(** * LinePlanner: the layout generator of the sewing-line planner

    A shallow embedding of [generateLayout] (the layout generator module,
    together with the capacity planner it imports) and the properties of
    the floor layout it produces.

    Conventions of the embedding.
    - Lengths.  Every length constant of the source is a decimal with one
      digit after the point (2.0, 1.5, 2.5, 3.5, -1.2, ...).  Lengths are
      therefore kept in [Z], counted in tenths of the source unit:
      [MACHINE_SPACING_X = 20] stands for 2.0.  Along-line offsets are sums
      of multiples of 0.5, which the source's binary64 numbers add without
      rounding, so the integer model is exact on them.
    - Angles.  The source only ever uses the four yaw constants and 0; they
      are the constructors of [Angle].
    - Identifiers.  [uuidv4()] is the only source of randomness.  It is a
      parameter [uuidv4 : nat -> string] giving the value of the n-th draw
      of one call; the state counts the draws.
    - Strings are ASCII; [toLowerCase] folds the letters A-Z. *)

From Stdlib Require Import ZArith QArith Qround List String Ascii Lia Bool.
From stdpp Require Import base tactics option list gmap strings pretty.

Local Open Scope string_scope.
Local Open Scope list_scope.
Local Open Scope Z_scope.

(** ** Strings *)

Definition lowerAscii (c : ascii) : ascii :=
  let n := nat_of_ascii c in
  if (Nat.leb 65 n && Nat.leb n 90)%bool then ascii_of_nat (n + 32) else c.

Fixpoint toLowerCase (s : string) : string :=
  match s with
  | EmptyString => EmptyString
  | String c t => String (lowerAscii c) (toLowerCase t)
  end.

(** [s.includes(sub)]: [sub] occurs in [s] as a contiguous substring. *)
Fixpoint includes (s sub : string) : bool :=
  (String.prefix sub s ||
   match s with
   | EmptyString => false
   | String _ t => includes t sub
   end)%bool.

(** ** Data model *)

Module Vec3.
Record t (T : Type) := mk { x : T; y : T; z : T }.
Arguments mk {T} _ _ _.
Arguments x {T} _.
Arguments y {T} _.
Arguments z {T} _.
End Vec3.

Module Operation.
Record t := mk {
  op_no : string;
  op_name : string;
  machine_type : string;
  smv : Q;
  section : string
}.
End Operation.

Module Lane.
Inductive t := A | B | C | D.
End Lane.

(** The yaw values of the source: [-Math.PI / 2], [Math.PI / 2], [Math.PI]
    and [0]. *)
Inductive Angle := NegHalfPi | HalfPi | Pi | Zero.

Module MachinePosition.
Record t := mk {
  id : string;
  operation : Operation.t;
  position : Vec3.t Z;
  rotation : Vec3.t Angle;
  lane : Lane.t;
  section : string;
  machineIndex : option Z;   (* absent on inspection tables and trolleys *)
  isInspection : bool;       (* an absent flag reads as false *)
  isTrolley : bool
}.
End MachinePosition.

Module Balanced.
Record t := mk { operation : Operation.t; count : Z }.
End Balanced.

Module LaneCursors.
Record t := mk { A : Z; B : Z; C : Z; D : Z }.

(** [cursors[lane]] and [cursors[lane] = v]. *)
Definition get (c : t) (l : Lane.t) : Z :=
  match l with
  | Lane.A => A c | Lane.B => B c | Lane.C => C c | Lane.D => D c
  end.

Definition set (c : t) (l : Lane.t) (v : Z) : t :=
  match l with
  | Lane.A => mk v (B c) (C c) (D c)
  | Lane.B => mk (A c) v (C c) (D c)
  | Lane.C => mk (A c) (B c) v (D c)
  | Lane.D => mk (A c) (B c) (C c) v
  end.
End LaneCursors.

Inductive TargetGroup := AB | CD.

Inductive error := InvalidDemand.

Inductive result (T : Type) :=
  | Ok (v : T)
  | Err (e : error).
Arguments Ok {T} v.
Arguments Err {T} e.

#[global] Instance Q_eq_dec : EqDecision Q.
Proof. solve_decision. Defined.
#[global] Instance Operation_eq_dec : EqDecision Operation.t.
Proof. solve_decision. Defined.
#[global] Instance Balanced_eq_dec : EqDecision Balanced.t.
Proof. solve_decision. Defined.
#[global] Instance Lane_eq_dec : EqDecision Lane.t.
Proof. solve_decision. Defined.
#[global] Instance Angle_eq_dec : EqDecision Angle.
Proof. solve_decision. Defined.

(** ** Constants (tenths of a metre) *)

Definition LANE_Z_A : Z := -12.
Definition LANE_Z_B : Z := -28.
Definition LANE_Z_C : Z := 12.
Definition LANE_Z_D : Z := 28.

Definition MACHINE_SPACING_X : Z := 20.
Definition SECTION_GAP_X : Z := 20.
Definition BOARD_GAP : Z := 15.

Definition ROT_FACE_FRONT : Angle := NegHalfPi.
Definition ROT_FACE_BACK : Angle := HalfPi.
Definition ROT_FACE_LEFT : Angle := Pi.
Definition ROT_FACE_RIGHT : Angle := Zero.

Definition ROT_A_FACES_B : Angle := ROT_FACE_LEFT.
Definition ROT_B_FACES_A : Angle := ROT_FACE_RIGHT.
Definition ROT_C_FACES_D : Angle := ROT_FACE_RIGHT.
Definition ROT_D_FACES_C : Angle := ROT_FACE_LEFT.

Definition abSections : list string := ["cuff"; "sleeve"; "back"].
Definition cdSections : list string := ["collar"; "front"].
Definition assemblySection : string := "assembly".

(** ** The capacity planner *)

(** Modelled from the spec: the required count computed by
    [calculateMachineRequirements], a function of the line-balancing module,
    whose source is not available.  Section 4.1:
    [requiredCount = ceil(smv * target / minutes)], and an operation never
    gets fewer than one machine (exactly one when its smv is 0). *)
Definition requiredCount (smv targetOutput workingMinutes : Q) : Z :=
  Z.max 1 (Qceiling (smv * targetOutput / workingMinutes)).

(** Modelled from the spec: [calculateMachineRequirements], imported from the
    line-balancing module, whose source is not available.  Sections 4.1 and
    7: the call fails with [InvalidDemand] unless both the target output and
    the working minutes are positive; otherwise every operation is kept, in
    input order, with its required count. *)
Definition calculateMachineRequirements
    (operations : list Operation.t) (targetOutput workingMinutes : Q)
    : result (list Balanced.t) :=
  if (Qle_bool targetOutput 0 || Qle_bool workingMinutes 0)%bool
  then Err InvalidDemand
  else Ok (map (fun op =>
                  Balanced.mk op
                    (requiredCount (Operation.smv op) targetOutput workingMinutes))
               operations).

(** ** The layout generator *)

Definition createDummyOp (name section : string) : Operation.t :=
  Operation.mk "00" name name 0%Q section.

(** [Math.ceil(a / b)] on integers, [b > 0]. *)
Definition ceilDiv (a b : Z) : Z := - ((- a) / b).

Definition max4 (a b c d : Z) : Z := Z.max (Z.max a b) (Z.max c d).

(** [a || b] on strings: the empty string is falsy. *)
Definition orElse (a b : string) : string :=
  if String.eqb a "" then b else a.

Record St := mkSt {
  layout : list MachinePosition.t;
  cursors : LaneCursors.t;
  draws : nat
}.

Definition push (st : St) (e : MachinePosition.t) : St :=
  mkSt (layout st ++ [e]) (cursors st) (draws st).

Definition drawn (st : St) : St :=
  mkSt (layout st) (cursors st) (S (draws st)).

Definition withCursors (st : St) (c : LaneCursors.t) : St :=
  mkSt (layout st) c (draws st).

(** The object literal built by [addMachine], given the uuid it drew. *)
Definition machineEntity (op : Operation.t) (lane : Lane.t) (xPos countIdx : Z)
    (forcedRot : option Angle) (sectionName : option string) (uuid : string)
    : MachinePosition.t :=
  let '(z, ry) :=
    match lane with
    | Lane.A => (LANE_Z_A, ROT_A_FACES_B)
    | Lane.B => (LANE_Z_B, ROT_B_FACES_A)
    | Lane.C => (LANE_Z_C, ROT_C_FACES_D)
    | Lane.D => (LANE_Z_D, ROT_D_FACES_C)
    end in
  let type := toLowerCase (Operation.machine_type op) in
  let ry :=
    if (includes type "iron" || includes type "inspection")%bool
    then ROT_FACE_FRONT else ry in
  let ry := match forcedRot with Some r => r | None => ry end in
  MachinePosition.mk
    (Operation.op_no op +:+ "-" +:+ pretty countIdx +:+ "-" +:+ uuid)
    op
    (Vec3.mk xPos 0 z)
    (Vec3.mk Zero ry Zero)
    lane
    (match sectionName with
     | Some s => orElse s (Operation.section op)
     | None => Operation.section op
     end)
    (Some countIdx)
    false false.

(** The object literal built by [addBoard]. *)
Definition boardEntity (name : string) (xPos zPos : Z) (uuid : string)
    : MachinePosition.t :=
  let dummyOp := createDummyOp name name in
  let dummyOp :=
    Operation.mk (Operation.op_no dummyOp) (Operation.op_name dummyOp) "Board"
                 (Operation.smv dummyOp) (Operation.section dummyOp) in
  MachinePosition.mk
    ("board-" +:+ name +:+ "-" +:+ uuid)
    dummyOp
    (Vec3.mk xPos 25 zPos)
    (Vec3.mk Zero ROT_FACE_FRONT Zero)
    (if zPos <? 0 then Lane.A else Lane.C)
    name
    (Some (-1))
    false false.

Definition inspectionEntity (secName : string) (inspectX innerZ : Z)
    (innerLane : Lane.t) : MachinePosition.t :=
  MachinePosition.mk
    ("inspect-" +:+ secName)
    (createDummyOp "Inspection" secName)
    (Vec3.mk inspectX 0 innerZ)
    (Vec3.mk Zero ROT_FACE_FRONT Zero)
    innerLane
    secName
    None
    true false.

Definition trolleyEntity (secName : string) (inspectX innerZ : Z)
    (innerLane : Lane.t) (targetGroup : TargetGroup) : MachinePosition.t :=
  MachinePosition.mk
    ("trolley-" +:+ secName)
    (createDummyOp "Trolley" secName)
    (Vec3.mk (inspectX + 35) 0
             (innerZ + match targetGroup with AB => -5 | CD => 5 end))
    (Vec3.mk Zero ROT_FACE_RIGHT Zero)
    innerLane
    secName
    None
    false true.

Definition sectionKey (item : Balanced.t) : string :=
  orElse (Operation.section (Balanced.operation item)) "Unknown".

(** One round of the grouping [forEach]: [sectionsMap] is the [Map], whose
    arrays are extended in place, and [sectionOrder] the list of its keys
    in order of first appearance. *)
Definition groupStep
    (acc : gmap string (list Balanced.t) * list string) (item : Balanced.t)
    : gmap string (list Balanced.t) * list string :=
  let '(sectionsMap, sectionOrder) := acc in
  let sec := sectionKey item in
  let '(sectionsMap, sectionOrder) :=
    match sectionsMap !! sec with
    | None => (<[sec := []]> sectionsMap, sectionOrder ++ [sec])
    | Some _ => (sectionsMap, sectionOrder)
    end in
  (alter (fun l => l ++ [item]) sec sectionsMap, sectionOrder).

Definition groupSections (balancedOps : list Balanced.t)
    : gmap string (list Balanced.t) * list string :=
  fold_left groupStep balancedOps (∅, []).

Definition isButton (i : Balanced.t) : bool :=
  (includes (toLowerCase (Operation.machine_type (Balanced.operation i))) "button" ||
   includes (toLowerCase (Operation.op_name (Balanced.operation i))) "button")%bool.

Definition isCDSection (secLower : string) : bool :=
  existsb (fun s => includes secLower s) cdSections.

(** The source also computes [isAB] from [abSections] but never reads it:
    the group is CD when a CD keyword occurs in the label and AB otherwise. *)
Definition targetGroupOf (secLower : string) : TargetGroup :=
  if isCDSection secLower then CD else AB.

Definition firstLane (g : TargetGroup) : Lane.t :=
  match g with AB => Lane.A | CD => Lane.C end.

Definition secondLane (g : TargetGroup) : Lane.t :=
  match g with AB => Lane.B | CD => Lane.D end.

(** Assign the same value to both cursors of a pair. *)
Definition setPair (g : TargetGroup) (c : LaneCursors.t) (v : Z) : LaneCursors.t :=
  match g with
  | AB => LaneCursors.mk v v (LaneCursors.C c) (LaneCursors.D c)
  | CD => LaneCursors.mk (LaneCursors.A c) (LaneCursors.B c) v v
  end.

(** Advance both cursors of a pair by [d]. *)
Definition addPair (g : TargetGroup) (c : LaneCursors.t) (d : Z) : LaneCursors.t :=
  match g with
  | AB => LaneCursors.mk (LaneCursors.A c + d) (LaneCursors.B c + d)
                         (LaneCursors.C c) (LaneCursors.D c)
  | CD => LaneCursors.mk (LaneCursors.A c) (LaneCursors.B c)
                         (LaneCursors.C c + d) (LaneCursors.D c + d)
  end.

Definition maxPair (g : TargetGroup) (c : LaneCursors.t) : Z :=
  match g with
  | AB => Z.max (LaneCursors.A c) (LaneCursors.B c)
  | CD => Z.max (LaneCursors.C c) (LaneCursors.D c)
  end.

Definition setAll (v : Z) : LaneCursors.t := LaneCursors.mk v v v v.

Definition toggle (g : TargetGroup) (laneToggle : Lane.t) : Lane.t :=
  match g with
  | AB => match laneToggle with Lane.A => Lane.B | _ => Lane.A end
  | CD => match laneToggle with Lane.C => Lane.D | _ => Lane.C end
  end.

Section Generator.

Variable uuidv4 : nat -> string.

Definition addMachine (st : St) (op : Operation.t) (lane : Lane.t)
    (xPos countIdx : Z) (forcedRot : option Angle)
    (sectionName : option string) : St :=
  drawn (push st (machineEntity op lane xPos countIdx forcedRot sectionName
                                (uuidv4 (draws st)))).

Definition addBoard (st : St) (name : string) (xPos zPos : Z) : St :=
  drawn (push st (boardEntity name xPos zPos (uuidv4 (draws st)))).

(** Body of [mainOps.forEach]: rows of three over lanes A, B, C. *)
Definition placeMainOp (secName : string) (acc : St * Z) (item : Balanced.t)
    : St * Z :=
  let '(st, assemblyCursor) := acc in
  let operation := Balanced.operation item in
  let count := Balanced.count item in
  let st :=
    fold_left
      (fun st k =>
         let laneIdx := k mod 3 in
         let rowIdx := k / 3 in
         let lane :=
           if laneIdx =? 0 then Lane.A
           else if laneIdx =? 1 then Lane.B else Lane.C in
         let xPos := assemblyCursor + rowIdx * MACHINE_SPACING_X in
         addMachine st operation lane xPos k (Some ROT_FACE_FRONT) (Some secName))
      (seqZ 0 count) st in
  let rows := ceilDiv count 3 in
  (st, assemblyCursor + rows * MACHINE_SPACING_X).

(** Body of [buttonOps.forEach]: one after another in lane D. *)
Definition placeButtonOp (secName : string) (acc : St * Z) (item : Balanced.t)
    : St * Z :=
  let operation := Balanced.operation item in
  let count := Balanced.count item in
  fold_left
    (fun '(st, dCursor) k =>
       (addMachine st operation Lane.D dCursor k (Some ROT_FACE_FRONT) (Some secName),
        dCursor + MACHINE_SPACING_X))
    (seqZ 0 count) acc.

(** Body of [ops.forEach] in a parts-preparation section. *)
Definition placeOp (targetGroup : TargetGroup) (secName : string)
    (acc : St * Lane.t) (item : Balanced.t) : St * Lane.t :=
  let '(st, laneToggle) := acc in
  let operation := Balanced.operation item in
  let count := Balanced.count item in
  let currentLane := laneToggle in
  let xPos := LaneCursors.get (cursors st) currentLane in
  let '(st, xPos) :=
    fold_left
      (fun '(st, xPos) k =>
         (addMachine st operation currentLane xPos k None (Some secName),
          xPos + MACHINE_SPACING_X))
      (seqZ 0 count) (st, xPos) in
  let st := withCursors st (LaneCursors.set (cursors st) currentLane xPos) in
  (st, toggle targetGroup laneToggle).

Definition placeOps (targetGroup : TargetGroup) (secName : string)
    (ops : list Balanced.t) (acc : St * Lane.t) : St * Lane.t :=
  fold_left (placeOp targetGroup secName) ops acc.

(** The assembly branch of the section loop. *)
Definition assemblyBranch (secName : string) (ops : list Balanced.t) (st : St)
    : St :=
  let c := cursors st in
  let startX :=
    max4 (LaneCursors.A c) (LaneCursors.B c) (LaneCursors.C c) (LaneCursors.D c)
    + SECTION_GAP_X in
  let st := withCursors st (setAll startX) in
  let st := addBoard st "Assembly" startX 0 in
  let buttonOps := filter (fun i => isButton i = true) ops in
  let mainOps := filter (fun i => i ∉ buttonOps) ops in
  let '(st, assemblyCursor) :=
    fold_left (placeMainOp secName) mainOps (st, startX) in
  let '(st, dCursor) :=
    fold_left (placeButtonOp secName) buttonOps (st, startX) in
  let endX := Z.max assemblyCursor dCursor in
  withCursors st (setAll endX).

(** The parts-preparation branch of the section loop. *)
Definition partsBranch (secName secLower : string) (ops : list Balanced.t)
    (st : St) : St :=
  let targetGroup := targetGroupOf secLower in
  let startX := maxPair targetGroup (cursors st) + SECTION_GAP_X in
  let st := withCursors st (setPair targetGroup (cursors st) startX) in
  let st :=
    addBoard st secName startX
             (match targetGroup with AB => LANE_Z_A | CD => LANE_Z_C end) in
  let st := withCursors st (addPair targetGroup (cursors st) BOARD_GAP) in
  let '(st, _) :=
    placeOps targetGroup secName ops (st, firstLane targetGroup) in
  let endX := maxPair targetGroup (cursors st) in
  let inspectX := endX + SECTION_GAP_X / 2 in
  let innerLane := firstLane targetGroup in
  let innerZ := match targetGroup with AB => LANE_Z_A | CD => LANE_Z_C end in
  let st := push st (inspectionEntity secName inspectX innerZ innerLane) in
  let st := push st (trolleyEntity secName inspectX innerZ innerLane targetGroup) in
  let nextStart := inspectX + 25 in
  withCursors st (setPair targetGroup (cursors st) nextStart).

(** Body of [sectionOrder.forEach]. *)
Definition processSection (sectionsMap : gmap string (list Balanced.t))
    (st : St) (secName : string) : St :=
  let secLower := toLowerCase secName in
  let ops := sectionsMap !!! secName in
  if includes secLower assemblySection
  then assemblyBranch secName ops st
  else partsBranch secName secLower ops st.

Definition initSt : St := mkSt [] (LaneCursors.mk 0 0 0 0) 0%nat.

(** Everything [generateLayout] does with the balanced operations. *)
Definition runSections (balancedOps : list Balanced.t) : St :=
  let '(sectionsMap, sectionOrder) := groupSections balancedOps in
  fold_left (processSection sectionsMap) sectionOrder initSt.

Definition generateLayout (rawOperations : list Operation.t)
    (targetOutput workingHours : Q) : result (list MachinePosition.t) :=
  match calculateMachineRequirements rawOperations targetOutput workingHours with
  | Err e => Err e
  | Ok balancedOps => Ok (layout (runSections balancedOps))
  end.

End Generator.

(** * Vocabulary of the properties *)

(** ** Closed forms of the placement loops *)

(** The machines one run emits: instance [k] sits [k] pitches after [x]
    and draws the [k]-th uuid after [d0]. *)
Definition runEntities (uuidv4 : nat -> string) (op : Operation.t) (lane : Lane.t)
    (forcedRot : option Angle) (sec : string) (x : Z) (d0 : nat) (count : Z)
    : list MachinePosition.t :=
  map (fun k => machineEntity op lane (x + k * MACHINE_SPACING_X) k forcedRot
                              (Some sec) (uuidv4 (d0 + Z.to_nat k)%nat))
      (seqZ 0 count).

(** The machines one main assembly operation emits. *)
Definition rowEntities (uuidv4 : nat -> string) (op : Operation.t) (sec : string)
    (cursor : Z) (d0 : nat) (count : Z) : list MachinePosition.t :=
  map (fun k =>
         machineEntity op
           (if k mod 3 =? 0 then Lane.A else if k mod 3 =? 1 then Lane.B else Lane.C)
           (cursor + k / 3 * MACHINE_SPACING_X) k (Some ROT_FACE_FRONT)
           (Some sec) (uuidv4 (d0 + Z.to_nat k)%nat))
      (seqZ 0 count).

(** The lane of instance [k] of a main assembly operation: [['A','B','C'][k % 3]]. *)
Definition rowLane (k : Z) : Lane.t :=
  if k mod 3 =? 0 then Lane.A else if k mod 3 =? 1 then Lane.B else Lane.C.

Definition assemblyStart (c : LaneCursors.t) : Z :=
  max4 (LaneCursors.A c) (LaneCursors.B c) (LaneCursors.C c) (LaneCursors.D c)
  + SECTION_GAP_X.

Definition innerZ (g : TargetGroup) : Z :=
  match g with AB => LANE_Z_A | CD => LANE_Z_C end.

(** The yaw a lane gives its machines: A and B face each other, and so do
    C and D. *)
Definition laneYaw (lane : Lane.t) : Angle :=
  match lane with
  | Lane.A => ROT_A_FACES_B
  | Lane.B => ROT_B_FACES_A
  | Lane.C => ROT_C_FACES_D
  | Lane.D => ROT_D_FACES_C
  end.

(** ** Grouping *)

(** The specification's "first-seen order" (section 4.2): the keys of a
    list in order of first appearance. *)
Fixpoint firstSeen (l : list string) : list string :=
  match l with
  | [] => []
  | s :: l' => s :: filter (fun t => t <> s) (firstSeen l')
  end.

(** What the grouping loop has built after reading [l]. *)
Definition grouped (l : list Balanced.t)
    (acc : gmap string (list Balanced.t) * list string) : Prop :=
  acc.2 = firstSeen (map sectionKey l) /\
  forall s,
    acc.1 !! s =
      if decide (s ∈ map sectionKey l)
      then Some (filter (fun i => sectionKey i = s) l)
      else None.

(** ** Machine slots, cursors and the packing invariant *)

(** A machine-class entity is one pushed by [addMachine]: it carries the
    index of the instance within its run.  Boards carry the sentinel -1,
    inspection tables and trolleys carry no index. *)
Definition isMachine (e : MachinePosition.t) : bool :=
  match MachinePosition.machineIndex e with
  | Some k => 0 <=? k
  | None => false
  end.

Definition slot (e : MachinePosition.t) : Lane.t * Z :=
  (MachinePosition.lane e, Vec3.x (MachinePosition.position e)).

Definition machinesOf (l : list MachinePosition.t) : list MachinePosition.t :=
  filter (fun e => isMachine e = true) l.

Definition machineSlots (l : list MachinePosition.t) : list (Lane.t * Z) :=
  map slot (machinesOf l).

Arguments machinesOf : simpl never.
Arguments machineSlots : simpl never.

Definition cursors_le (c c' : LaneCursors.t) : Prop :=
  forall l, LaneCursors.get c l <= LaneCursors.get c' l.

(** Machines occupy pairwise distinct slots, all strictly behind the cursor
    of their lane. *)
Definition packed (l : list MachinePosition.t) (c : LaneCursors.t) : Prop :=
  NoDup (machineSlots l) /\
  forall e, e ∈ l -> isMachine e = true ->
            Vec3.x (MachinePosition.position e)
            < LaneCursors.get c (MachinePosition.lane e).

(** The four kinds of entity the generator pushes. *)
Inductive emitted : MachinePosition.t -> Prop :=
  | emitted_machine op lane x k r s u :
      0 <= k -> emitted (machineEntity op lane x k r s u)
  | emitted_board name x z u : emitted (boardEntity name x z u)
  | emitted_inspection sec x z lane : emitted (inspectionEntity sec x z lane)
  | emitted_trolley sec x z lane g : emitted (trolleyEntity sec x z lane g).

(** ** Layouts up to identifiers *)



(** ** The planner claim as worded, and sample inputs *)

(** C1 as the claim words it: every operation gets exactly
    [ceil(smv * target / minutes)] machines, and at least one. *)
Definition countIsCeilAndPositive (ops : list Operation.t) (D W : Q) : Prop :=
  exists balanced,
    calculateMachineRequirements ops D W = Ok balanced /\
    Forall (fun b =>
              Balanced.count b
              = Qceiling (Operation.smv (Balanced.operation b) * D / W) /\
              1 <= Balanced.count b)
           balanced.

(** A sample uuid source for the examples: the n-th draw is "u<n>". *)
Definition sampleUuid (n : nat) : string := "u" +:+ pretty n.

Definition untimedOp : Operation.t := Operation.mk "7" "Mark cuff" "Table" 0%Q "Cuff".

Definition cuffOp2 : Operation.t := Operation.mk "1" "Hem cuff" "SNLS" 2%Q "Cuff".
Definition cuffOp1 : Operation.t := Operation.mk "2" "Attach cuff" "SNLS" 1%Q "Cuff".

Definition cuffOps : list Balanced.t :=
  [Balanced.mk cuffOp2 2; Balanced.mk cuffOp1 1].

(** The layout of two cuff operations needing 2 and 1 machines. *)
Definition cuffLayout : list MachinePosition.t :=
  Eval vm_compute in
    match generateLayout sampleUuid [cuffOp2; cuffOp1] 480 480 with
    | Ok l => l
    | Err _ => []
    end.

Definition pressOp : Operation.t :=
  Operation.mk "3" "Press cuff" "Steam Press" 1%Q "Cuff".

Definition joinOp : Operation.t := Operation.mk "10" "Join shoulder" "SNLS" 3%Q "Assembly".
Definition sideOp : Operation.t := Operation.mk "11" "Side seam" "Overlock" 3%Q "Assembly".
Definition hemOp : Operation.t := Operation.mk "12" "Bottom hem" "SNLS" 3%Q "Assembly".

(** The layout of three assembly operations needing three machines each. *)
Definition assemblyLayout : list MachinePosition.t :=
  Eval vm_compute in
    match generateLayout sampleUuid [joinOp; sideOp; hemOp] 480 480 with
    | Ok l => l
    | Err _ => []
    end.

(** ** What a layout contains, apart from the geometry *)

(** Everything an entity says except where it stands: its operation, its
    section label, its sequence index and its two fixture flags. *)
Definition contents (e : MachinePosition.t)
    : Operation.t * string * option Z * bool * bool :=
  (MachinePosition.operation e, MachinePosition.section e,
   MachinePosition.machineIndex e, MachinePosition.isInspection e,
   MachinePosition.isTrolley e).

Definition machineContents (op : Operation.t) (sec : string) (k : Z)
    : Operation.t * string * option Z * bool * bool :=
  (op, sec, Some k, false, false).

Definition boardContents (name : string)
    : Operation.t * string * option Z * bool * bool :=
  (Operation.mk "00" name "Board" 0%Q name, name, Some (-1), false, false).

Definition inspectionContents (sec : string)
    : Operation.t * string * option Z * bool * bool :=
  (createDummyOp "Inspection" sec, sec, None, true, false).

Definition trolleyContents (sec : string)
    : Operation.t * string * option Z * bool * bool :=
  (createDummyOp "Trolley" sec, sec, None, false, true).

(** The machines of one operation: instances 0 .. count-1. *)
Definition runContents (sec : string) (b : Balanced.t)
    : list (Operation.t * string * option Z * bool * bool) :=
  map (machineContents (Balanced.operation b) sec) (seqZ 0 (Balanced.count b)).

(** The block of one section: its board, its machines operation by
    operation (in an assembly section the main operations first, then the
    buttoning ones), and after a parts-preparation section the inspection
    table and the trolley. *)
Definition sectionContents (sec : string) (ops : list Balanced.t)
    : list (Operation.t * string * option Z * bool * bool) :=
  if includes (toLowerCase sec) "assembly"
  then boardContents "Assembly"
       :: flat_map (runContents sec)
            (filter (fun i => isButton i <> true) ops
             ++ filter (fun i => isButton i = true) ops)
  else boardContents sec
       :: flat_map (runContents sec) ops
       ++ [inspectionContents sec; trolleyContents sec].

Definition layoutContents (balancedOps : list Balanced.t)
    : list (Operation.t * string * option Z * bool * bool) :=
  flat_map (fun sec => sectionContents sec
                         (filter (fun i => sectionKey i = sec) balancedOps))
           (firstSeen (map sectionKey balancedOps)).

(** The operations of the machine-class entries of a contents list. *)
Definition machineOperations
    (cs : list (Operation.t * string * option Z * bool * bool))
    : list Operation.t :=
  flat_map (fun c => match c with
                     | (op, _, Some k, _, _) => if 0 <=? k then [op] else []
                     | _ => []
                     end) cs.

(** What the planner hands to the layout for a valid demand. *)
Definition planned (ops : list Operation.t) (D W : Q) : list Balanced.t :=
  map (fun op => Balanced.mk op (requiredCount (Operation.smv op) D W)) ops.

(** Each operation repeated once per machine it needs. *)
Definition machinesNeeded (balancedOps : list Balanced.t) : list Operation.t :=
  flat_map (fun b => replicate (Z.to_nat (Balanced.count b)) (Balanced.operation b))
           balancedOps.

(** The section labels of a plan, in order of first appearance, and those
    among them that are not assembly sections. *)
Definition sectionsOf (balancedOps : list Balanced.t) : list string :=
  firstSeen (map sectionKey balancedOps).

Definition isAssemblyLabel (sec : string) : bool :=
  includes (toLowerCase sec) assemblySection.

Definition fixturesOf (l : list MachinePosition.t) : list MachinePosition.t :=
  filter (fun e => isMachine e = false) l.

Arguments fixturesOf : simpl never.

Definition isMachineEntry (c : Operation.t * string * option Z * bool * bool) : bool :=
  match c with
  | (_, _, Some k, _, _) => 0 <=? k
  | _ => false
  end.

(** The number of entries of a contents list that are not machines. *)
Definition fixtureCount
    (cs : list (Operation.t * string * option Z * bool * bool)) : nat :=
  length (filter (fun c => isMachineEntry c = false) cs).

(** ** Geometry and lanes *)

(** The across-line offset of a lane. *)
Definition laneZ (lane : Lane.t) : Z :=
  match lane with
  | Lane.A => LANE_Z_A
  | Lane.B => LANE_Z_B
  | Lane.C => LANE_Z_C
  | Lane.D => LANE_Z_D
  end.

(** Where the label of its section allows a machine to stand: in an
    assembly section lane D is for the buttoning operations and lanes A, B
    and C for the others; any other section uses the two lanes of its
    group. *)
Definition laneAllowed (e : MachinePosition.t) : Prop :=
  let s := toLowerCase (MachinePosition.section e) in
  if includes s "assembly"
  then (MachinePosition.lane e = Lane.D <->
        isButton (Balanced.mk (MachinePosition.operation e) 0) = true)
  else if (includes s "collar" || includes s "front")%bool
       then MachinePosition.lane e = Lane.C \/ MachinePosition.lane e = Lane.D
       else MachinePosition.lane e = Lane.A \/ MachinePosition.lane e = Lane.B.

Definition laneRule (e : MachinePosition.t) : Prop :=
  isMachine e = true -> laneAllowed e.

(** ** How far a section moves the cursors *)

(** The machines a parts-preparation section puts in the lane it uses first
    and in the other lane of its pair. *)
Fixpoint laneLoads (ops : list Balanced.t) : Z * Z :=
  match ops with
  | [] => (0, 0)
  | b :: rest =>
      let '(first, second) := laneLoads rest in
      (Z.max 0 (Balanced.count b) + second, first)
  end.

(** The rows of three the main operations of an assembly section fill, and
    the places its buttoning operations take in lane D. *)
Definition mainRows (ops : list Balanced.t) : Z :=
  foldr (fun b acc => ceilDiv (Balanced.count b) 3 + acc) 0 ops.

Definition buttonSlots (ops : list Balanced.t) : Z :=
  foldr (fun b acc => Z.max 0 (Balanced.count b) + acc) 0 ops.

(** ** Fixtures and the machines around them *)

(** The pair of lanes a lane belongs to. *)
Definition pairOf (lane : Lane.t) : TargetGroup :=
  match lane with
  | Lane.A | Lane.B => AB
  | Lane.C | Lane.D => CD
  end.

(** In list order, every machine that comes before an inspection table of
    its own pair of lanes lies more than 1.0 before it along the line, and
    every machine that comes after a trolley of its own pair lies at least
    1.0 beyond it. *)
Definition separated (l : list MachinePosition.t) : Prop :=
  forall (i j : nat) (e f : MachinePosition.t),
    l !! i = Some e -> l !! j = Some f ->
    isMachine e = true ->
    pairOf (MachinePosition.lane e) = pairOf (MachinePosition.lane f) ->
    (MachinePosition.isInspection f = true -> (i < j)%nat ->
       Vec3.x (MachinePosition.position e) + 10
       < Vec3.x (MachinePosition.position f)) /\
    (MachinePosition.isTrolley f = true -> (j < i)%nat ->
       Vec3.x (MachinePosition.position f) + 10
       <= Vec3.x (MachinePosition.position e)).

(** No trolley is more than 1.0 beyond a cursor of its pair. *)
Definition trolleysBehind (l : list MachinePosition.t) (c : LaneCursors.t) : Prop :=
  forall f, f ∈ l -> MachinePosition.isTrolley f = true ->
    forall lane, pairOf lane = pairOf (MachinePosition.lane f) ->
      Vec3.x (MachinePosition.position f) <= LaneCursors.get c lane + 10.

(** An entity that is neither an inspection table nor a trolley and, if a
    machine, stands at least one section gap beyond the cursor [c] of its
    lane. *)
Definition beyond (c : LaneCursors.t) (e : MachinePosition.t) : Prop :=
  MachinePosition.isInspection e = false /\
  MachinePosition.isTrolley e = false /\
  (isMachine e = true ->
     LaneCursors.get c (MachinePosition.lane e) + SECTION_GAP_X
     <= Vec3.x (MachinePosition.position e)).

(** The state the section loop keeps: machines packed, trolleys behind the
    cursors, fixtures separating the machines. *)
Definition orderly (st : St) : Prop :=
  packed (layout st) (cursors st) /\
  trolleysBehind (layout st) (cursors st) /\
  separated (layout st).

(** * Classifiers, parser and store *)

(** The helpers of the sheet parser, the renderer's choice of a model and the
    store of saved lines.  An action of the store is a function from the
    store to the store; the clock readings and the fresh id an action uses
    are its arguments. *)

(** ** Array and string helpers *)

(** The loop [for (i = i0; ...) if (p(l[i])) return i; return -1], which is
    also [array.findIndex(p)] when it starts at 0: the first index whose
    element satisfies [p], or -1. *)
Fixpoint findIndexFrom {T} (p : T -> bool) (l : list T) (i : Z) : Z :=
  match l with
  | [] => -1
  | a :: rest => if p a then i else findIndexFrom p rest (i + 1)
  end.

Definition findIndex {T} (p : T -> bool) (l : list T) : Z := findIndexFrom p l 0.

(** [\s] on ASCII: space, tab, line feed, vertical tab, form feed and
    carriage return. *)
Definition isSpace (c : ascii) : bool :=
  let n := nat_of_ascii c in
  (Nat.eqb n 32 || (Nat.leb 9 n && Nat.leb n 13))%bool.

(** [s.trim()]. *)
Fixpoint trimStart (s : string) : string :=
  match s with
  | EmptyString => EmptyString
  | String c t => if isSpace c then trimStart t else s
  end.

Fixpoint trimEnd (s : string) : string :=
  match s with
  | EmptyString => EmptyString
  | String c t =>
      let t' := trimEnd t in
      if (isSpace c && String.eqb t' "")%bool then EmptyString else String c t'
  end.

Definition trim (s : string) : string := trimEnd (trimStart s).

(** [s.replace(/[...]/g, '')] for a class of characters. *)
Fixpoint removeAll (drop : ascii -> bool) (s : string) : string :=
  match s with
  | EmptyString => EmptyString
  | String c t => if drop c then removeAll drop t else String c (removeAll drop t)
  end.

(** No character of [s] satisfies [p]. *)
Fixpoint noneOf (p : ascii -> bool) (s : string) : bool :=
  match s with
  | EmptyString => true
  | String c t => negb (p c) && noneOf p t
  end.

Definition isUpper (c : ascii) : bool :=
  let n := nat_of_ascii c in (Nat.leb 65 n && Nat.leb n 90)%bool.

(** The strings of ASCII characters.  On them [toLowerCase], [isSpace] and
    [trim] are the source's [toLowerCase()], [\s] and [trim()]; outside them
    the source also folds and deletes characters that this model leaves
    alone. *)
Fixpoint isAscii (s : string) : bool :=
  match s with
  | EmptyString => true
  | String c t => (Nat.ltb (nat_of_ascii c) 128 && isAscii t)%bool
  end.

(** ** The sheet parser's classifiers *)

Module ObParser.

Inductive Field := op_no | op_name | machine_type | smv | section.

Definition COLUMN_ALIASES (field : Field) : list string :=
  match field with
  | op_no => ["op_no"; "operation_no"; "op no"; "operation no"; "opno"; "sl #";
              "sl#"; "sl no"; "sno"; "s.no"; "s no"; "sr"; "sr."; "sr no"; "serial"]
  | op_name => ["op_name"; "operation_name"; "op name"; "operation name"; "opname";
                "description"; "operation description"; "op desc"; "operation";
                "process"]
  | machine_type => ["machine_type"; "machine type"; "machinetype"; "machine";
                     "mc type"; "mc"; "m/c"; "m/c type"; "equipment"]
  | smv => ["smv"; "sam"; "standard_minute"; "time"; "std min"; "standard minute";
            "standard time"; "cycle time"]
  | section => ["section"; "sect"; "department"; "dept"; "area"; "zone"]
  end.

(** The class [[\s_\-\.\/]]. *)
Definition isSeparator (c : ascii) : bool :=
  (isSpace c || Ascii.eqb c "_" || Ascii.eqb c "-" || Ascii.eqb c "."
   || Ascii.eqb c "/")%bool.

(** [normalizeString], on ASCII strings (see [isAscii]). *)
Definition normalizeString (str : string) : string :=
  if String.eqb str "" then ""
  else trim (removeAll isSeparator (toLowerCase str)).

(** The test of [findColumnIndex] and [isHeaderRow] on a normalised cell. *)
Definition matchesAlias (aliases : list string) (normalized : string) : bool :=
  existsb (fun alias => (includes normalized alias || includes alias normalized)%bool)
          aliases.

Definition findColumnIndex (headers : list string) (field : Field) : Z :=
  let aliases := map normalizeString (COLUMN_ALIASES field) in
  findIndexFrom (fun h => matchesAlias aliases (normalizeString h)) headers 0.

(** A cell of the sheet: a string or a number. *)
Inductive Cell := Str (s : string) | Num (q : Q).

Section Cells.

(** [String(n)] for a number other than 0; its digits play no part below. *)
Variable numberToString : Q -> string.

(** [String(cell || '')]: the empty string and the number 0 are falsy. *)
Definition cellText (cell : Cell) : string :=
  match cell with
  | Str s => if String.eqb s "" then "" else s
  | Num q => if Qeq_bool q 0 then "" else numberToString q
  end.

(** [Object.values(COLUMN_ALIASES).flat().map(normalizeString)]. *)
Definition allAliases : list string :=
  map normalizeString
      (flat_map COLUMN_ALIASES [op_no; op_name; machine_type; smv; section]).

(** The loop of [isHeaderRow], entered with [matchCount] matches so far. *)
Fixpoint isHeaderRowFrom (row : list Cell) (matchCount : Z) : bool :=
  match row with
  | [] => false
  | cell :: rest =>
      let normalized := normalizeString (cellText cell) in
      let matchCount :=
        if matchesAlias allAliases normalized then matchCount + 1 else matchCount in
      if 2 <=? matchCount then true else isHeaderRowFrom rest matchCount
  end.

Definition isHeaderRow (row : list Cell) : bool := isHeaderRowFrom row 0.

(** The search for the header row in [parseOBExcel]: the first of the first
    20 rows that [isHeaderRow] accepts, or -1. *)
Definition headerRowIndex (rawData : list (list Cell)) : Z :=
  findIndexFrom isHeaderRow (take 20 rawData) 0.

(** The cells of a row that count as matches for [isHeaderRow]. *)
Definition headerCells (row : list Cell) : list Cell :=
  List.filter (fun cell => matchesAlias allAliases (normalizeString (cellText cell)))
              row.

End Cells.

Definition getMachineCategory (machineType : string) : string :=
  let normalized := normalizeString machineType in
  if (includes normalized "snls" || includes normalized "singleneedle"
      || includes normalized "lockstitch")%bool then "snls"
  else if (includes normalized "snec" || includes normalized "overlock"
           || includes normalized "edge")%bool then "snec"
  else if (includes normalized "iron" || includes normalized "press"
           || includes normalized "fusing")%bool then "iron"
  else if (includes normalized "button" || includes normalized "bhole"
           || includes normalized "buttonhole")%bool then "button"
  else if (includes normalized "bartack" || includes normalized "bar tack")%bool
       then "bartack"
  else if (includes normalized "helper" || includes normalized "table")%bool
       then "helper"
  else if (includes normalized "special" || includes normalized "contour"
           || includes normalized "turning" || includes normalized "pointing"
           || includes normalized "notch" || includes normalized "wrapping")%bool
       then "special"
  else "default".

End ObParser.

(** ** The renderer's choice of model *)

Module Machine3D.

(** [MODEL_MAP], in the order of its keys. *)
Definition MODEL_MAP : list (string * string) :=
  [("snls", "last machine.glb");
   ("dnls", "last machine.glb");
   ("snec", "3t ol.glb");
   ("3t ol", "3t ol.glb");
   ("bartack", "bartack.finalglb.glb");
   ("iron", "iron press.glb");
   ("inspection", "inspection machine final.glb");
   ("button", "buttonmaking mc.glb");
   ("buttonhole", "buttonhole.glb");
   ("supermarket", "supermarket.glb");
   ("trolley", "helpers table.glb");
   ("helper", "helpers table.glb");
   ("fusing", "fusing mc.glb");
   ("turning", "turning mc.glb");
   ("contour", "contour machine.glb");
   ("blocking", "blocking mc.glb");
   ("default", "last machine.glb")].

(** [MODEL_MAP[key]], for a key of the map. *)
Definition modelOf (key : string) : string :=
  match List.find (fun kv => String.eqb kv.1 key) MODEL_MAP with
  | Some kv => kv.2
  | None => ""
  end.

Definition getModelUrl (type : string) : string :=
  if String.eqb type "" then "/models/" +:+ modelOf "default"
  else
    let t := toLowerCase type in
    match List.find (fun kv => includes t kv.1) MODEL_MAP with
    | Some kv => "/models/" +:+ modelOf kv.1
    | None => "/models/" +:+ modelOf "default"
    end.

(** The test that makes the component draw a section board instead of a
    model: [machine_type.toLowerCase().startsWith('board')]. *)
Definition isBoard (e : MachinePosition.t) : bool :=
  String.prefix "board"
    (toLowerCase (Operation.machine_type (MachinePosition.operation e))).

End Machine3D.

(** ** The line store *)

(** The declared types of the application.  A stored machine position has
    an id, its operation, a position and a rotation; lengths are again in
    tenths. *)
Module Types.

Module MachinePosition.
Record t := mk {
  id : string;
  operation : Operation.t;
  position : Vec3.t Z;
  rotation : Vec3.t Angle
}.
End MachinePosition.

Module LineData.
Record t := mk {
  id : string;
  lineNo : string;
  styleNo : string;
  createdAt : string;
  updatedAt : string;
  operations : list Operation.t;
  machineLayout : list MachinePosition.t;
  totalSMV : Q
}.
End LineData.

Module UIState.
Record t := mk {
  isMachineInfoOpen : bool;
  isFileUploadOpen : bool;
  isLoading : bool;
  loadingMessage : string
}.
End UIState.

End Types.

Module LineStore.

Record t := mk {
  currentLine : option Types.LineData.t;
  savedLines : list Types.LineData.t;
  operations : list Operation.t;
  machineLayout : list Types.MachinePosition.t;
  selectedMachine : option Types.MachinePosition.t;
  ui : Types.UIState.t
}.

(** [MACHINE_SPACING = 2.5] and [ROW_OFFSET = 3], in tenths. *)
Definition MACHINE_SPACING : Z := 25.
Definition ROW_OFFSET : Z := 30.

(** The object built for the operation at [index] by [generateMachineLayout]. *)
Definition machineAt (index : nat) (op : Operation.t) : Types.MachinePosition.t :=
  let row := Z.of_nat index mod 2 in
  let col := Z.of_nat index / 2 in
  Types.MachinePosition.mk
    ("machine_" +:+ pretty index +:+ "_" +:+ Operation.op_no op)
    op
    (Vec3.mk (col * MACHINE_SPACING) 0 (row * ROW_OFFSET - ROW_OFFSET / 2))
    (Vec3.mk Zero (if row =? 1 then Pi else Zero) Zero).

(** [generateMachineLayout(operations)]: the layout it returns and the store
    it leaves. *)
Definition generateMachineLayout (st : t) (ops : list Operation.t)
    : list Types.MachinePosition.t * t :=
  let layout := imap machineAt ops in
  (layout,
   mk (currentLine st) (savedLines st) (operations st) layout
      (selectedMachine st) (ui st)).

(** [op.smv || 0]. *)
Definition smvOrZero (q : Q) : Q := if Qeq_bool q 0 then 0%Q else q.

(** [createLine(lineNo, styleNo, operations)]; [newId] is the value of
    [generateId()] and [created], [updated] are the two clock readings.
    [add] is the source's [+] on numbers: binary64 addition, which rounds.
    It is not interpreted, and nothing is assumed of it. *)
Definition createLine (add : Q -> Q -> Q) (newId created updated : string) (st : t)
    (lineNo styleNo : string) (ops : list Operation.t) : Types.LineData.t * t :=
  let '(layout, st) := generateMachineLayout st ops in
  let totalSMV :=
    fold_left (fun sum op => add sum (smvOrZero (Operation.smv op))) ops 0%Q in
  let line :=
    Types.LineData.mk newId lineNo styleNo created updated ops layout totalSMV in
  (line, mk (Some line) (savedLines st) ops layout (selectedMachine st) (ui st)).

Definition withUpdatedAt (line : Types.LineData.t) (now : string) : Types.LineData.t :=
  Types.LineData.mk (Types.LineData.id line) (Types.LineData.lineNo line)
    (Types.LineData.styleNo line) (Types.LineData.createdAt line) now
    (Types.LineData.operations line) (Types.LineData.machineLayout line)
    (Types.LineData.totalSMV line).

Definition hasId (id : string) (l : Types.LineData.t) : bool :=
  String.eqb (Types.LineData.id l) id.

(** [saveLine(line)]; [now] is the clock reading. *)
Definition saveLine (now : string) (st : t) (line : Types.LineData.t) : t :=
  let existingIndex := findIndex (hasId (Types.LineData.id line)) (savedLines st) in
  let updatedLine := withUpdatedAt line now in
  let saved :=
    if 0 <=? existingIndex
    then <[Z.to_nat existingIndex := updatedLine]> (savedLines st)
    else savedLines st ++ [updatedLine] in
  mk (currentLine st) saved (operations st) (machineLayout st)
     (selectedMachine st) (ui st).

Definition deleteLine (st : t) (id : string) : t :=
  mk (match currentLine st with
      | Some cur => if String.eqb (Types.LineData.id cur) id then None else Some cur
      | None => None
      end)
     (List.filter (fun l => negb (hasId id l)) (savedLines st))
     (operations st) (machineLayout st) (selectedMachine st) (ui st).

Definition loadLine (st : t) (id : string) : t :=
  match List.find (hasId id) (savedLines st) with
  | Some line =>
      mk (Some line) (savedLines st) (Types.LineData.operations line)
         (Types.LineData.machineLayout line) None (ui st)
  | None => st
  end.

(** The ids under which lines are saved. *)
Definition savedIds (st : t) : list string :=
  map Types.LineData.id (savedLines st).

(** The store before any action. *)
Definition initial : t :=
  mk None [] [] [] None (Types.UIState.mk false false false "").

End LineStore.

(** ** Sample inputs of the store and the parser *)

Definition sampleLine : Types.LineData.t :=
  Types.LineData.mk "line_1" "Line 1" "Style 9" "2024-01-01" "2024-01-01"
    [cuffOp2; cuffOp1] [] 3%Q.

Definition sampleHeaders : list string := ["Style"; ""; "Op No"; "Machine"].

(** Strings made of decimal digits only, the shape of a printed index. *)
Definition isDigit (c : ascii) : bool :=
  (48 <=? Z.of_nat (nat_of_ascii c)) && (Z.of_nat (nat_of_ascii c) <=? 57).

Fixpoint allDigits (s : string) : bool :=
  match s with
  | EmptyString => true
  | String c rest => isDigit c && allDigits rest
  end.

(** ** The sections of one call *)

(** The state of the generator when its section loop reaches the [j]-th
    section of the balanced operations: the sections before it have been
    laid out. *)
Definition sectionState (uuidv4 : nat -> string) (balancedOps : list Balanced.t)
    (j : nat) : St :=
  let '(sectionsMap, sectionOrder) := groupSections balancedOps in
  fold_left (processSection uuidv4 sectionsMap) (take j sectionOrder) initSt.

(** The first steps of the parts-preparation branch: the cursors of the pair
    are synchronised, the board is pushed, the cursors move past it. *)
Definition afterBoard (uuidv4 : nat -> string) (secName : string) (st : St) : St :=
  let targetGroup := targetGroupOf (toLowerCase secName) in
  let startX := maxPair targetGroup (cursors st) + SECTION_GAP_X in
  let st := withCursors st (setPair targetGroup (cursors st) startX) in
  let st := addBoard uuidv4 st secName startX (innerZ targetGroup) in
  withCursors st (addPair targetGroup (cursors st) BOARD_GAP).

(** The machines already standing in the lane of the operation at index [i]
    of a parts-preparation section: those of the operations before it that
    have the parity of [i]. *)
Definition sameLaneBefore (ops : list Balanced.t) (i : nat) : Z :=
  if Nat.even i then (laneLoads (take i ops)).1 else (laneLoads (take i ops)).2.

(** * Properties *)

(** ** State bookkeeping *)

Lemma St_eta st : mkSt (layout st) (cursors st) (draws st) = st.
Proof. by destruct st. Qed.

(** [imap] over an integer range, indexed by the integers themselves. *)
Lemma imap_seqZ {T} (f : nat -> Z -> T) (n : Z) :
  imap f (seqZ 0 n) = map (fun k => f (Z.to_nat k) k) (seqZ 0 n).
Proof.
  apply list_eq; intros i.
  rewrite list_lookup_imap, list_lookup_fmap.
  destruct (seqZ 0 n !! i) as [k|] eqn:Hk; simpl; [|done].
  apply lookup_seqZ in Hk as [-> _].
  by rewrite Z.add_0_l, Nat2Z.id.
Qed.

Section Loops.

Variable uuidv4 : nat -> string.

Lemma run_fold op lane forcedRot sec (ks : list Z) : forall st x,
  fold_left
    (fun '(st, xPos) k =>
       (addMachine uuidv4 st op lane xPos k forcedRot (Some sec),
        xPos + MACHINE_SPACING_X))
    ks (st, x)
  = (mkSt (layout st
           ++ imap (fun j k =>
                      machineEntity op lane (x + Z.of_nat j * MACHINE_SPACING_X) k
                                    forcedRot (Some sec) (uuidv4 (draws st + j)%nat))
                   ks)
          (cursors st) (draws st + length ks)%nat,
     x + Z.of_nat (length ks) * MACHINE_SPACING_X).
Proof.
  induction ks as [|k ks IH]; intros st x; simpl.
  - rewrite app_nil_r, Nat.add_0_r, Z.add_0_r. by rewrite St_eta.
  - rewrite IH. unfold addMachine, drawn, push; simpl.
    rewrite <- app_assoc; simpl. unfold MACHINE_SPACING_X.
    f_equal; [|lia]. f_equal; [|lia].
    do 2 f_equal.
    + by rewrite Z.add_0_r, Nat.add_0_r.
    + apply imap_ext; intros j k' _; simpl.
      f_equal; [lia|]. f_equal; lia.
Qed.

Lemma run_loop op lane forcedRot sec count st x :
  fold_left
    (fun '(st, xPos) k =>
       (addMachine uuidv4 st op lane xPos k forcedRot (Some sec),
        xPos + MACHINE_SPACING_X))
    (seqZ 0 count) (st, x)
  = (mkSt (layout st ++ runEntities uuidv4 op lane forcedRot sec x (draws st) count)
          (cursors st) (draws st + Z.to_nat count)%nat,
     x + Z.max 0 count * MACHINE_SPACING_X).
Proof.
  rewrite run_fold, imap_seqZ, length_seqZ. unfold runEntities, MACHINE_SPACING_X.
  f_equal; [|lia].
  do 2 f_equal. apply map_ext_in; intros k Hk.
  apply list_elem_of_In, elem_of_seqZ in Hk.
  f_equal. lia.
Qed.

Lemma row_fold op sec cursor (ks : list Z) : forall st,
  fold_left
    (fun st k =>
       let laneIdx := k mod 3 in
       let rowIdx := k / 3 in
       let lane :=
         if laneIdx =? 0 then Lane.A
         else if laneIdx =? 1 then Lane.B else Lane.C in
       let xPos := cursor + rowIdx * MACHINE_SPACING_X in
       addMachine uuidv4 st op lane xPos k (Some ROT_FACE_FRONT) (Some sec))
    ks st
  = mkSt (layout st
          ++ imap (fun j k =>
                     machineEntity op
                       (if k mod 3 =? 0 then Lane.A
                        else if k mod 3 =? 1 then Lane.B else Lane.C)
                       (cursor + k / 3 * MACHINE_SPACING_X) k (Some ROT_FACE_FRONT)
                       (Some sec) (uuidv4 (draws st + j)%nat))
                  ks)
         (cursors st) (draws st + length ks)%nat.
Proof.
  induction ks as [|k ks IH]; intros st; simpl.
  - rewrite app_nil_r, Nat.add_0_r. by rewrite St_eta.
  - rewrite IH. unfold addMachine, drawn, push; simpl.
    rewrite <- app_assoc; simpl.
    f_equal; [|lia].
    do 2 f_equal.
    + by rewrite Nat.add_0_r.
    + apply imap_ext; intros j k' _; simpl. do 2 f_equal. lia.
Qed.

Lemma placeMainOp_eq sec st cursor item :
  placeMainOp uuidv4 sec (st, cursor) item
  = (mkSt (layout st
           ++ rowEntities uuidv4 (Balanced.operation item) sec cursor (draws st)
                          (Balanced.count item))
          (cursors st) (draws st + Z.to_nat (Balanced.count item))%nat,
     cursor + ceilDiv (Balanced.count item) 3 * MACHINE_SPACING_X).
Proof.
  unfold placeMainOp. rewrite row_fold, imap_seqZ, length_seqZ. done.
Qed.

Lemma placeButtonOp_eq sec st cursor item :
  placeButtonOp uuidv4 sec (st, cursor) item
  = (mkSt (layout st
           ++ runEntities uuidv4 (Balanced.operation item) Lane.D (Some ROT_FACE_FRONT)
                          sec cursor (draws st) (Balanced.count item))
          (cursors st) (draws st + Z.to_nat (Balanced.count item))%nat,
     cursor + Z.max 0 (Balanced.count item) * MACHINE_SPACING_X).
Proof. unfold placeButtonOp. apply run_loop. Qed.

Lemma placeOp_eq g sec st laneToggle item :
  placeOp uuidv4 g sec (st, laneToggle) item
  = (mkSt (layout st
           ++ runEntities uuidv4 (Balanced.operation item) laneToggle None sec
                          (LaneCursors.get (cursors st) laneToggle) (draws st)
                          (Balanced.count item))
          (LaneCursors.set (cursors st) laneToggle
             (LaneCursors.get (cursors st) laneToggle
              + Z.max 0 (Balanced.count item) * MACHINE_SPACING_X))
          (draws st + Z.to_nat (Balanced.count item))%nat,
     toggle g laneToggle).
Proof. unfold placeOp. rewrite run_loop. done. Qed.

End Loops.

(** ** Grouping by section *)

Lemma filter_one_True {T} (P : T -> Prop) `{!forall x, Decision (P x)} (x : T) :
  P x -> filter P [x] = [x].
Proof. intros. by apply (filter_singleton_True P x []). Qed.

Lemma filter_one_False {T} (P : T -> Prop) `{!forall x, Decision (P x)} (x : T) :
  ~ P x -> filter P [x] = [].
Proof. intros. by apply (filter_singleton_False P x []). Qed.

Lemma filter_none {T} (P : T -> Prop) `{!forall x, Decision (P x)} (l : list T) :
  (forall x, x ∈ l -> ~ P x) -> filter P l = [].
Proof.
  induction l as [|a l IH]; intros Hl; [done|].
  rewrite filter_cons_False by (apply Hl; by left).
  apply IH. intros x Hx. apply Hl. by right.
Qed.

Lemma filter_ext_in {T} (P1 P2 : T -> Prop)
    `{!forall x, Decision (P1 x)} `{!forall x, Decision (P2 x)} (l : list T) :
  (forall x, x ∈ l -> P1 x <-> P2 x) -> filter P1 l = filter P2 l.
Proof.
  induction l as [|a l IH]; intros Hl; [done|].
  assert (Ha : P1 a <-> P2 a) by (apply Hl; by left).
  rewrite !filter_cons.
  rewrite IH by (intros x Hx; apply Hl; by right).
  destruct (decide (P1 a)), (decide (P2 a)); tauto.
Qed.

Lemma elem_of_firstSeen s l : s ∈ firstSeen l <-> s ∈ l.
Proof.
  induction l as [|a l IH]; simpl; [done|].
  rewrite !elem_of_cons, list_elem_of_filter, IH.
  destruct (decide (s = a)); tauto.
Qed.

Lemma firstSeen_snoc l s :
  firstSeen (l ++ [s]) = if decide (s ∈ l) then firstSeen l else firstSeen l ++ [s].
Proof.
  induction l as [|a l IH]; simpl.
  - destruct (decide (s ∈ [])) as [H|_]; [by apply elem_of_nil in H|done].
  - rewrite IH.
    destruct (decide (s ∈ l)) as [Hin|Hin].
    + rewrite decide_True by (by right). done.
    + rewrite filter_app.
      destruct (decide (s = a)) as [->|Hne].
      * rewrite decide_True by (by left).
        rewrite filter_one_False by (intros H; by apply H).
        by rewrite app_nil_r.
      * rewrite decide_False by (rewrite elem_of_cons; tauto).
        rewrite filter_one_True by done. done.
Qed.

Lemma NoDup_firstSeen l : NoDup (firstSeen l).
Proof.
  induction l as [|a l IH]; simpl; [constructor|].
  apply NoDup_cons. split.
  - rewrite list_elem_of_filter. tauto.
  - by apply NoDup_filter.
Qed.

Lemma groupStep_grouped l acc item :
  grouped l acc -> grouped (l ++ [item]) (groupStep acc item).
Proof.
  destruct acc as [m order]. intros [Hord Hm]; simpl in *.
  unfold groupStep, grouped.
  pose proof (Hm (sectionKey item)) as Hk.
  rewrite map_app; simpl.
  destruct (m !! sectionKey item) as [b|] eqn:Hb; simpl.
  - destruct (decide (sectionKey item ∈ map sectionKey l)) as [Hin|Hin]; [|done].
    split.
    + rewrite firstSeen_snoc, decide_True by done. done.
    + intros s. rewrite filter_app, lookup_alter.
      destruct (decide (sectionKey item = s)) as [<-|Hne].
      * rewrite Hb; simpl.
        rewrite decide_True by (rewrite elem_of_app; by left).
        rewrite filter_one_True by done. congruence.
      * rewrite Hm, filter_one_False by done.
        rewrite app_nil_r.
        destruct (decide (s ∈ map sectionKey l)) as [Hs|Hs].
        -- rewrite decide_True by (rewrite elem_of_app; by left). done.
        -- rewrite decide_False; [done|].
           rewrite elem_of_app, list_elem_of_singleton. intros [?|?]; congruence.
  - destruct (decide (sectionKey item ∈ map sectionKey l)) as [Hin|Hin]; [done|].
    split.
    + rewrite firstSeen_snoc, decide_False by done. by rewrite Hord.
    + intros s. rewrite filter_app, lookup_alter.
      destruct (decide (sectionKey item = s)) as [<-|Hne].
      * rewrite lookup_insert_eq; simpl.
        rewrite decide_True by (rewrite elem_of_app, list_elem_of_singleton; by right).
        rewrite filter_one_True by done.
        rewrite filter_none; [done|].
        intros x Hx Hkey. apply Hin. rewrite <- Hkey.
        apply list_elem_of_In, in_map, list_elem_of_In, Hx.
      * rewrite lookup_insert_ne, Hm, filter_one_False by done.
        rewrite app_nil_r.
        destruct (decide (s ∈ map sectionKey l)) as [Hs|Hs].
        -- rewrite decide_True by (rewrite elem_of_app; by left). done.
        -- rewrite decide_False; [done|].
           rewrite elem_of_app, list_elem_of_singleton. intros [?|?]; congruence.
Qed.

Lemma groupSections_grouped l : grouped l (groupSections l).
Proof.
  unfold groupSections.
  induction l as [|item l IH] using rev_ind.
  - split; [done|]. intros s; simpl. by rewrite lookup_empty.
  - rewrite fold_left_app; simpl. by apply groupStep_grouped.
Qed.

(** The section loop visits the sections in order of first appearance, and
    each section's bucket holds its operations in input order. *)
Lemma groupSections_order l :
  (groupSections l).2 = firstSeen (map sectionKey l).
Proof. apply groupSections_grouped. Qed.

Lemma groupSections_bucket l s :
  s ∈ (groupSections l).2 ->
  (groupSections l).1 !!! s = filter (fun i => sectionKey i = s) l.
Proof.
  destruct (groupSections_grouped l) as [Hord Hm]. rewrite Hord.
  intros Hs. rewrite elem_of_firstSeen in Hs.
  rewrite lookup_total_alt, Hm. by rewrite decide_True.
Qed.

(** The partition of the assembly operations: [mainOps] is what the
    buttoning test rejects. *)
Lemma mainOps_filter (ops : list Balanced.t) :
  filter (fun i => i ∉ filter (fun i => isButton i = true) ops) ops
  = filter (fun i => isButton i <> true) ops.
Proof.
  apply filter_ext_in. intros i Hi.
  rewrite list_elem_of_filter. tauto.
Qed.

(** ** The two branches of the section loop *)

Section Branches.

Variable uuidv4 : nat -> string.

(** The assembly branch, with the partition written as two filters on the
    buttoning test. *)
Lemma assemblyBranch_eq sec ops st :
  assemblyBranch uuidv4 sec ops st
  = let startX := assemblyStart (cursors st) in
    let st1 := addBoard uuidv4 (withCursors st (setAll startX)) "Assembly" startX 0 in
    let '(st2, assemblyCursor) :=
      fold_left (placeMainOp uuidv4 sec)
                (filter (fun i => isButton i <> true) ops) (st1, startX) in
    let '(st3, dCursor) :=
      fold_left (placeButtonOp uuidv4 sec)
                (filter (fun i => isButton i = true) ops) (st2, startX) in
    withCursors st3 (setAll (Z.max assemblyCursor dCursor)).
Proof. unfold assemblyBranch. by rewrite mainOps_filter. Qed.

Lemma processSection_assembly m st sec :
  includes (toLowerCase sec) "assembly" = true ->
  processSection uuidv4 m st sec = assemblyBranch uuidv4 sec (m !!! sec) st.
Proof. unfold processSection, assemblySection. by intros ->. Qed.

Lemma processSection_parts m st sec :
  includes (toLowerCase sec) "assembly" = false ->
  processSection uuidv4 m st sec
  = partsBranch uuidv4 sec (toLowerCase sec) (m !!! sec) st.
Proof. unfold processSection, assemblySection. by intros ->. Qed.

(** The parts-preparation branch: board, clearance, the operations, then the
    inspection table and the trolley, then the cursors of the pair. *)
Lemma partsBranch_eq sec secLower ops st :
  partsBranch uuidv4 sec secLower ops st
  = let g := targetGroupOf secLower in
    let startX := maxPair g (cursors st) + SECTION_GAP_X in
    let st1 :=
      mkSt (layout st ++ [boardEntity sec startX (innerZ g) (uuidv4 (draws st))])
           (addPair g (setPair g (cursors st) startX) BOARD_GAP)
           (S (draws st)) in
    let st2 := (placeOps uuidv4 g sec ops (st1, firstLane g)).1 in
    let inspectX := maxPair g (cursors st2) + 10 in
    mkSt (layout st2
          ++ [inspectionEntity sec inspectX (innerZ g) (firstLane g);
              trolleyEntity sec inspectX (innerZ g) (firstLane g) g])
         (setPair g (cursors st2) (inspectX + 25))
         (draws st2).
Proof.
  unfold partsBranch. simpl.
  destruct (placeOps uuidv4 _ sec ops _) as [st2 lane2]. simpl.
  unfold push; simpl. by rewrite <- app_assoc.
Qed.

End Branches.

(** ** Machine slots and the packing invariant *)

Lemma cursors_le_refl c : cursors_le c c.
Proof. intros l. lia. Qed.

Lemma cursors_le_trans c1 c2 c3 :
  cursors_le c1 c2 -> cursors_le c2 c3 -> cursors_le c1 c3.
Proof. intros H12 H23 l. specialize (H12 l). specialize (H23 l). lia. Qed.

Lemma cursors_le_set c l v :
  LaneCursors.get c l <= v -> cursors_le c (LaneCursors.set c l v).
Proof. intros Hv l'. destruct l, l'; simpl in *; lia. Qed.

Lemma get_set_eq c l v : LaneCursors.get (LaneCursors.set c l v) l = v.
Proof. by destruct l. Qed.

Lemma get_set_ne c l l' v :
  l <> l' -> LaneCursors.get (LaneCursors.set c l v) l' = LaneCursors.get c l'.
Proof. by destruct l, l'. Qed.

Lemma machineEntity_lane op lane x k r s u :
  MachinePosition.lane (machineEntity op lane x k r s u) = lane.
Proof. by destruct lane. Qed.

Lemma machineEntity_x op lane x k r s u :
  Vec3.x (MachinePosition.position (machineEntity op lane x k r s u)) = x.
Proof. by destruct lane. Qed.

Lemma machineEntity_index op lane x k r s u :
  MachinePosition.machineIndex (machineEntity op lane x k r s u) = Some k.
Proof. by destruct lane. Qed.

Lemma machineEntity_operation op lane x k r s u :
  MachinePosition.operation (machineEntity op lane x k r s u) = op.
Proof. by destruct lane. Qed.

Lemma machineEntity_forced op lane x k r s u :
  Vec3.y (MachinePosition.rotation (machineEntity op lane x k (Some r) s u)) = r.
Proof. by destruct lane. Qed.

Lemma machineEntity_isMachine op lane x k r s u :
  0 <= k -> isMachine (machineEntity op lane x k r s u) = true.
Proof.
  intros Hk. unfold isMachine. rewrite machineEntity_index. by apply Z.leb_le.
Qed.

Lemma elem_of_machineSlots s l :
  s ∈ machineSlots l <->
  exists e, e ∈ l /\ isMachine e = true /\ slot e = s.
Proof.
  unfold machineSlots, machinesOf. rewrite list_elem_of_In, in_map_iff. split.
  - intros (e & <- & He). apply list_elem_of_In, list_elem_of_filter in He.
    exists e. tauto.
  - intros (e & He & Hm & <-). exists e. split; [done|].
    apply list_elem_of_In, list_elem_of_filter. tauto.
Qed.

Lemma machineSlots_app l1 l2 :
  machineSlots (l1 ++ l2) = machineSlots l1 ++ machineSlots l2.
Proof. unfold machineSlots, machinesOf. by rewrite filter_app, map_app. Qed.

Lemma machineSlots_fixture e : isMachine e = false -> machineSlots [e] = [].
Proof.
  intros He. unfold machineSlots, machinesOf.
  rewrite filter_one_False; [done|]. congruence.
Qed.

Lemma machineSlots_map {T} (f : T -> MachinePosition.t) (ks : list T) :
  (forall k, k ∈ ks -> isMachine (f k) = true) ->
  machineSlots (map f ks) = map (fun k => slot (f k)) ks.
Proof.
  induction ks as [|k ks IH]; intros Hks; [done|].
  change (map f (k :: ks)) with ([f k] ++ map f ks).
  rewrite machineSlots_app, IH by (intros; apply Hks; by right).
  unfold machineSlots at 1. unfold machinesOf.
  rewrite filter_one_True by (apply Hks; by left). done.
Qed.

Lemma packed_mono l c c' : packed l c -> cursors_le c c' -> packed l c'.
Proof.
  intros [Hnd Hlt] Hle. split; [done|].
  intros e He Hm. specialize (Hlt e He Hm).
  specialize (Hle (MachinePosition.lane e)). lia.
Qed.

(** Appending entities whose machines lie between the old and the new
    cursor of their lane keeps the layout packed. *)
Lemma packed_app l new c c' :
  packed l c ->
  cursors_le c c' ->
  NoDup (machineSlots new) ->
  (forall e, e ∈ new -> isMachine e = true ->
             LaneCursors.get c (MachinePosition.lane e)
             <= Vec3.x (MachinePosition.position e)
             < LaneCursors.get c' (MachinePosition.lane e)) ->
  packed (l ++ new) c'.
Proof.
  intros [Hnd Hlt] Hle Hnew Hin. split.
  - rewrite machineSlots_app. apply NoDup_app. split; [done|]. split; [|done].
    intros s (e & He & Hm & <-)%elem_of_machineSlots
             (e' & He' & Hm' & Heq)%elem_of_machineSlots.
    unfold slot in Heq. injection Heq as Hlane Hx.
    specialize (Hlt e He Hm). specialize (Hin e' He' Hm').
    rewrite Hlane, Hx in Hin. lia.
  - intros e [He|He]%elem_of_app Hm.
    + specialize (Hlt e He Hm). specialize (Hle (MachinePosition.lane e)). lia.
    + specialize (Hin e He Hm). lia.
Qed.

Lemma packed_push l c e : isMachine e = false -> packed l c -> packed (l ++ [e]) c.
Proof.
  intros He Hp. apply (packed_app l [e] c c); [done|apply cursors_le_refl| |].
  - rewrite machineSlots_fixture by done. constructor.
  - intros e' ->%list_elem_of_singleton. congruence.
Qed.

Section Packing.

Variable uuidv4 : nat -> string.

Lemma runEntities_slots op lane r sec x d0 count :
  machineSlots (runEntities uuidv4 op lane r sec x d0 count)
  = map (fun k => (lane, x + k * MACHINE_SPACING_X)) (seqZ 0 count).
Proof.
  unfold runEntities. rewrite machineSlots_map.
  - apply map_ext. intros k. unfold slot.
    by rewrite machineEntity_lane, machineEntity_x.
  - intros k Hk%elem_of_seqZ. apply machineEntity_isMachine. lia.
Qed.

Lemma rowEntities_slots op sec cursor d0 count :
  machineSlots (rowEntities uuidv4 op sec cursor d0 count)
  = map (fun k =>
           (if k mod 3 =? 0 then Lane.A
            else if k mod 3 =? 1 then Lane.B else Lane.C,
            cursor + k / 3 * MACHINE_SPACING_X))
        (seqZ 0 count).
Proof.
  unfold rowEntities. rewrite machineSlots_map.
  - apply map_ext. intros k. unfold slot.
    by rewrite machineEntity_lane, machineEntity_x.
  - intros k Hk%elem_of_seqZ. apply machineEntity_isMachine. lia.
Qed.

Lemma elem_of_runEntities e op lane r sec x d0 count :
  e ∈ runEntities uuidv4 op lane r sec x d0 count ->
  exists k, 0 <= k < count /\
    e = machineEntity op lane (x + k * MACHINE_SPACING_X) k r (Some sec)
                      (uuidv4 (d0 + Z.to_nat k)%nat).
Proof.
  unfold runEntities. rewrite list_elem_of_In, in_map_iff.
  intros (k & <- & Hk). apply list_elem_of_In, elem_of_seqZ in Hk.
  exists k. split; [lia|done].
Qed.

Lemma elem_of_rowEntities e op sec cursor d0 count :
  e ∈ rowEntities uuidv4 op sec cursor d0 count ->
  exists k, 0 <= k < count /\
    e = machineEntity op
          (if k mod 3 =? 0 then Lane.A else if k mod 3 =? 1 then Lane.B else Lane.C)
          (cursor + k / 3 * MACHINE_SPACING_X) k (Some ROT_FACE_FRONT) (Some sec)
          (uuidv4 (d0 + Z.to_nat k)%nat).
Proof.
  unfold rowEntities. rewrite list_elem_of_In, in_map_iff.
  intros (k & <- & Hk). apply list_elem_of_In, elem_of_seqZ in Hk.
  exists k. split; [lia|done].
Qed.

(** One run keeps the layout packed and moves only its own cursor. *)
Lemma packed_run l c op lane r sec d0 count :
  packed l c ->
  packed (l ++ runEntities uuidv4 op lane r sec (LaneCursors.get c lane) d0 count)
         (LaneCursors.set c lane
            (LaneCursors.get c lane + Z.max 0 count * MACHINE_SPACING_X)).
Proof.
  intros Hp. eapply packed_app; [done| | |].
  - apply cursors_le_set. unfold MACHINE_SPACING_X. lia.
  - rewrite runEntities_slots.
    apply (NoDup_fmap_2_strong _ (seqZ 0 count)); [|apply NoDup_seqZ].
    intros k k' _ _ Heq. injection Heq. unfold MACHINE_SPACING_X. lia.
  - intros e (k & Hk & ->)%elem_of_runEntities _.
    rewrite machineEntity_lane, machineEntity_x, get_set_eq.
    unfold MACHINE_SPACING_X. lia.
Qed.

(** One main assembly operation fills rows of three behind a common
    cursor for lanes A, B and C. *)
Lemma packed_rows l ac d op sec d0 count :
  0 <= count ->
  packed l (LaneCursors.mk ac ac ac d) ->
  packed (l ++ rowEntities uuidv4 op sec ac d0 count)
         (let ac' := ac + ceilDiv count 3 * MACHINE_SPACING_X in
          LaneCursors.mk ac' ac' ac' d).
Proof.
  intros Hc Hp. unfold ceilDiv, MACHINE_SPACING_X.
  eapply packed_app; [done| | |].
  - intros lane. destruct lane; simpl; Z.div_mod_to_equations; lia.
  - rewrite rowEntities_slots.
    apply (NoDup_fmap_2_strong _ (seqZ 0 count)); [|apply NoDup_seqZ].
    intros k k' Hk%elem_of_seqZ Hk'%elem_of_seqZ Heq.
    injection Heq as Hlane Hrow. unfold MACHINE_SPACING_X in Hrow.
    destruct (Z.eqb_spec (k mod 3) 0), (Z.eqb_spec (k mod 3) 1),
             (Z.eqb_spec (k' mod 3) 0), (Z.eqb_spec (k' mod 3) 1);
      try discriminate; Z.div_mod_to_equations; lia.
  - intros e (k & Hk & ->)%elem_of_rowEntities _.
    rewrite machineEntity_lane, machineEntity_x. unfold MACHINE_SPACING_X.
    destruct (k mod 3 =? 0), (k mod 3 =? 1); simpl;
      Z.div_mod_to_equations; lia.
Qed.

End Packing.

(** ** The section loop keeps the layout packed *)

Lemma fold_left_inv {S T} (P : S -> Prop) (f : S -> T -> S) (l : list T) :
  forall a,
    P a ->
    (forall a x, x ∈ l -> P a -> P (f a x)) ->
    P (fold_left f l a).
Proof.
  induction l as [|x l IH]; intros a Ha Hstep; simpl; [done|].
  apply IH.
  - apply Hstep; [by left|done].
  - intros a' x' Hx'. apply Hstep. by right.
Qed.

Lemma boardEntity_fixture name x z u : isMachine (boardEntity name x z u) = false.
Proof. done. Qed.

Lemma inspectionEntity_fixture sec x z l : isMachine (inspectionEntity sec x z l) = false.
Proof. done. Qed.

Lemma trolleyEntity_fixture sec x z l g : isMachine (trolleyEntity sec x z l g) = false.
Proof. done. Qed.

Lemma cursors_le_setAll c v :
  max4 (LaneCursors.A c) (LaneCursors.B c) (LaneCursors.C c) (LaneCursors.D c) <= v ->
  cursors_le c (setAll v).
Proof. unfold max4. intros Hv l. destruct l; simpl; lia. Qed.

Lemma cursors_le_setPair g c v :
  maxPair g c <= v -> cursors_le c (setPair g c v).
Proof. intros Hv l. destruct g, l; simpl in *; lia. Qed.

Lemma cursors_le_addPair g c d : 0 <= d -> cursors_le c (addPair g c d).
Proof. intros Hd l. destruct g, l; simpl; lia. Qed.

Section SectionLoop.

Variable uuidv4 : nat -> string.

Lemma placeOps_packed g sec ops : forall st lane,
  packed (layout st) (cursors st) ->
  let st' := (placeOps uuidv4 g sec ops (st, lane)).1 in
  packed (layout st') (cursors st').
Proof.
  intros st lane Hp. unfold placeOps.
  apply (fold_left_inv (fun acc => packed (layout acc.1) (cursors acc.1))); [done|].
  intros [st0 lane0] item _ Hp0. rewrite placeOp_eq; simpl in *.
  by apply packed_run.
Qed.

Lemma assemblyBranch_packed sec ops st :
  (forall item, item ∈ ops -> 0 <= Balanced.count item) ->
  packed (layout st) (cursors st) ->
  packed (layout (assemblyBranch uuidv4 sec ops st))
         (cursors (assemblyBranch uuidv4 sec ops st)).
Proof.
  intros Hcount Hp. unfold assemblyBranch.
  set (startX := max4 _ _ _ _ + SECTION_GAP_X).
  set (st1 := addBoard uuidv4 (withCursors st (setAll startX)) "Assembly" startX 0).
  assert (Hp1 : packed (layout st1) (LaneCursors.mk startX startX startX startX)).
  { apply packed_push; [done|]. eapply packed_mono; [done|].
    apply cursors_le_setAll. unfold startX, SECTION_GAP_X. lia. }
  destruct (fold_left (placeMainOp uuidv4 sec) _ (st1, startX)) as [st2 ac] eqn:Hmain.
  assert (Hp2 : packed (layout st2) (LaneCursors.mk ac ac ac startX)).
  { change (packed (layout (st2, ac).1)
                   (LaneCursors.mk (st2, ac).2 (st2, ac).2 (st2, ac).2 startX)).
    rewrite <- Hmain.
    apply (fold_left_inv
             (fun acc => packed (layout acc.1)
                                (LaneCursors.mk acc.2 acc.2 acc.2 startX)));
      [done|].
    intros [st0 ac0] item Hitem Hp0. rewrite placeMainOp_eq; simpl in *.
    apply packed_rows; [|done].
    apply Hcount. apply list_elem_of_filter in Hitem. tauto. }
  destruct (fold_left (placeButtonOp uuidv4 sec) _ (st2, startX)) as [st3 dc] eqn:Hbtn.
  assert (Hp3 : packed (layout st3) (LaneCursors.mk ac ac ac dc)).
  { change (packed (layout (st3, dc).1) (LaneCursors.mk ac ac ac (st3, dc).2)).
    rewrite <- Hbtn.
    apply (fold_left_inv
             (fun acc => packed (layout acc.1) (LaneCursors.mk ac ac ac acc.2)));
      [done|].
    intros [st0 d0] item _ Hp0. rewrite placeButtonOp_eq; simpl in *.
    apply (packed_run uuidv4 _ (LaneCursors.mk ac ac ac d0) _ Lane.D). done. }
  simpl. eapply packed_mono; [done|].
  intros l. destruct l; simpl; lia.
Qed.

Lemma partsBranch_packed sec secLower ops st :
  packed (layout st) (cursors st) ->
  packed (layout (partsBranch uuidv4 sec secLower ops st))
         (cursors (partsBranch uuidv4 sec secLower ops st)).
Proof.
  intros Hp. unfold partsBranch.
  set (g := targetGroupOf secLower).
  set (startX := maxPair g (cursors st) + SECTION_GAP_X).
  set (st1 := withCursors (addBoard uuidv4 _ sec startX _) _).
  assert (Hp1 : packed (layout st1) (cursors st1)).
  { simpl. apply packed_push; [done|]. eapply packed_mono; [done|].
    eapply cursors_le_trans; [|apply cursors_le_addPair; by unfold BOARD_GAP].
    apply cursors_le_setPair. unfold startX, SECTION_GAP_X. lia. }
  pose proof (placeOps_packed g sec ops st1 (firstLane g) Hp1) as Hp2.
  destruct (placeOps uuidv4 g sec ops (st1, firstLane g)) as [st2 lane2].
  simpl in *.
  eapply packed_mono.
  - apply packed_push; [done|]. apply packed_push; [done|]. exact Hp2.
  - apply cursors_le_setPair. unfold SECTION_GAP_X.
    change (20 / 2) with 10. lia.
Qed.

Lemma processSection_packed m st sec :
  (forall item, item ∈ (m !!! sec : list Balanced.t) -> 0 <= Balanced.count item) ->
  packed (layout st) (cursors st) ->
  packed (layout (processSection uuidv4 m st sec))
         (cursors (processSection uuidv4 m st sec)).
Proof.
  intros Hcount Hp. unfold processSection.
  destruct (includes _ _).
  - by apply assemblyBranch_packed.
  - by apply partsBranch_packed.
Qed.

Lemma runSections_packed balancedOps :
  (forall item, item ∈ balancedOps -> 0 <= Balanced.count item) ->
  packed (layout (runSections uuidv4 balancedOps))
         (cursors (runSections uuidv4 balancedOps)).
Proof.
  intros Hcount. unfold runSections.
  pose proof (groupSections_bucket balancedOps) as Hbucket.
  destruct (groupSections balancedOps) as [m order]; simpl in *.
  apply (fold_left_inv (fun st => packed (layout st) (cursors st))).
  - split; [constructor|]. intros e He. by apply elem_of_nil in He.
  - intros st sec Hsec Hp. apply processSection_packed; [|done].
    intros item Hitem. rewrite Hbucket in Hitem by done.
    apply list_elem_of_filter in Hitem. apply Hcount. tauto.
Qed.

End SectionLoop.

(** ** The capacity planner: required counts and the demand precondition *)

Lemma requiredCount_ge_1 smv D W : 1 <= requiredCount smv D W.
Proof. unfold requiredCount. lia. Qed.

Lemma Qceiling_pos (q : Q) : (0 < q)%Q -> 1 <= Qceiling q.
Proof.
  intros Hq. pose proof (Qle_ceiling q) as Hc.
  assert (Hlt : (0 < inject_Z (Qceiling q))%Q) by (eapply Qlt_le_trans; eauto).
  change 0%Q with (inject_Z 0) in Hlt. rewrite <- Zlt_Qlt in Hlt. lia.
Qed.

Lemma valid_demand D W :
  (0 < D)%Q -> (0 < W)%Q -> (Qle_bool D 0 || Qle_bool W 0)%bool = false.
Proof.
  intros HD HW. apply orb_false_iff. split.
  - destruct (Qle_bool D 0) eqn:E; [|done].
    apply Qle_bool_iff in E. by apply Qlt_not_le in HD.
  - destruct (Qle_bool W 0) eqn:E; [|done].
    apply Qle_bool_iff in E. by apply Qlt_not_le in HW.
Qed.

Lemma invalid_demand D W :
  (Qle_bool D 0 || Qle_bool W 0)%bool = true <-> (D <= 0)%Q \/ (W <= 0)%Q.
Proof. by rewrite orb_true_iff, !Qle_bool_iff. Qed.

Lemma planned_counts ops D W balanced :
  calculateMachineRequirements ops D W = Ok balanced ->
  forall item, item ∈ balanced -> 1 <= Balanced.count item.
Proof.
  unfold calculateMachineRequirements.
  destruct (_ || _)%bool; [done|]. intros [= <-] item Hitem.
  apply list_elem_of_In, in_map_iff in Hitem as (op & <- & _).
  apply requiredCount_ge_1.
Qed.

(** C1, counterexample: for an operation with smv = 0 the formula
    [ceil(smv * target / minutes)] is 0, so the count cannot be both the
    formula's value and at least 1; the planner returns 1. *)
Lemma C1_counterexample : ~ countIsCeilAndPositive [untimedOp] 480 480.
Proof.
  intros (balanced & Hcalc & Hall).
  vm_compute in Hcalc. injection Hcalc as <-.
  apply Forall_cons in Hall as [[Hceil _] _].
  vm_compute in Hceil. discriminate.
Qed.

(** C1 (amended): with a positive target and positive working minutes the
    planner succeeds, keeps every operation in input order, and
    [generateLayout] lays out exactly its result; every operation gets at
    least one machine; an operation with smv > 0 gets
    [ceil(smv * target / minutes)] machines and one with smv = 0 gets exactly
    one. *)
Theorem C1_required_count uuid (ops : list Operation.t) (D W : Q) :
  (0 < D)%Q -> (0 < W)%Q ->
  exists balanced,
    calculateMachineRequirements ops D W = Ok balanced /\
    generateLayout uuid ops D W = Ok (layout (runSections uuid balanced)) /\
    map Balanced.operation balanced = ops /\
    Forall (fun b =>
              let smv := Operation.smv (Balanced.operation b) in
              1 <= Balanced.count b /\
              ((0 < smv)%Q -> Balanced.count b = Qceiling (smv * D / W)) /\
              ((smv == 0)%Q -> Balanced.count b = 1))
           balanced.
Proof.
  intros HD HW. unfold generateLayout, calculateMachineRequirements.
  rewrite valid_demand by done.
  eexists. split; [done|]. split; [done|]. split.
  - rewrite map_map; simpl. apply map_id.
  - apply Forall_forall. intros b Hb.
    apply list_elem_of_In, in_map_iff in Hb as (op & <- & _); simpl.
    unfold requiredCount. split; [lia|]. split.
    + intros Hsmv.
      assert (1 <= Qceiling (Operation.smv op * D / W)); [|lia].
      apply Qceiling_pos. unfold Qdiv.
      apply Qmult_lt_0_compat; [by apply Qmult_lt_0_compat|].
      by apply Qinv_lt_0_compat.
    + intros Hsmv.
      assert (Hz : (Operation.smv op * D / W == 0)%Q).
      { rewrite Hsmv. unfold Qdiv. by rewrite !Qmult_0_l. }
      rewrite Hz. done.
Qed.

Lemma C1_required_count_witness :
  exists balanced,
    calculateMachineRequirements [untimedOp] 480 480 = Ok balanced /\
    generateLayout sampleUuid [untimedOp] 480 480
    = Ok (layout (runSections sampleUuid balanced)) /\
    map Balanced.operation balanced = [untimedOp] /\
    Forall (fun b =>
              let smv := Operation.smv (Balanced.operation b) in
              1 <= Balanced.count b /\
              ((0 < smv)%Q -> Balanced.count b = Qceiling (smv * 480 / 480)) /\
              ((smv == 0)%Q -> Balanced.count b = 1))
           balanced.
Proof. apply (C1_required_count sampleUuid [untimedOp] 480 480); reflexivity. Defined.

(** C7: [generateLayout] fails with [InvalidDemand] exactly when the target
    output or the working minutes are not positive; the failure carries no
    layout, so no entity is produced; a target of 0 is such a failure. *)
Theorem C7_invalid_demand uuid (ops : list Operation.t) (D W : Q) :
  (generateLayout uuid ops D W = Err InvalidDemand <-> (D <= 0)%Q \/ (W <= 0)%Q) /\
  ((D <= 0)%Q \/ (W <= 0)%Q -> forall l, generateLayout uuid ops D W <> Ok l) /\
  generateLayout uuid ops 0 W = Err InvalidDemand.
Proof.
  assert (Hiff : generateLayout uuid ops D W = Err InvalidDemand
                 <-> (D <= 0)%Q \/ (W <= 0)%Q).
  { rewrite <- invalid_demand.
    unfold generateLayout, calculateMachineRequirements.
    destruct (_ || _)%bool; split; intros; done. }
  split; [done|]. split; [|done].
  intros Hbad l. apply Hiff in Hbad. congruence.
Qed.

Lemma C7_invalid_demand_witness :
  generateLayout sampleUuid [untimedOp] 0 480 = Err InvalidDemand /\
  forall l, generateLayout sampleUuid [untimedOp] 480 0 <> Ok l.
Proof.
  split.
  - apply (proj1 (C7_invalid_demand sampleUuid [untimedOp] 0 480)).
    left. discriminate.
  - apply (proj1 (proj2 (C7_invalid_demand sampleUuid [untimedOp] 480 0))).
    right. discriminate.
Defined.

(** Example 4 of the specification: no operations, no entities, no error. *)
Lemma empty_operations uuid (D W : Q) :
  (0 < D)%Q -> (0 < W)%Q -> generateLayout uuid [] D W = Ok [].
Proof.
  intros HD HW. unfold generateLayout, calculateMachineRequirements.
  by rewrite valid_demand.
Qed.

(** ** Distinct machine slots *)

Lemma NoDup_map_filter_lookup {S T} (f : S -> T) (P : S -> Prop)
    `{!forall x, Decision (P x)} (l : list S) :
  NoDup (map f (filter P l)) ->
  forall i j a b,
    i <> j -> l !! i = Some a -> l !! j = Some b -> P a -> P b -> f a <> f b.
Proof.
  assert (Hin : forall (l' : list S) b j, l' !! j = Some b -> P b ->
                                          f b ∈ map f (filter P l')).
  { intros l' b j Hj Hb. apply list_elem_of_In, in_map, list_elem_of_In, list_elem_of_filter.
    split; [done|]. by eapply list_elem_of_lookup_2. }
  induction l as [|a0 l IH]; intros Hnd i j a b Hij Hi Hj Ha Hb; [done|].
  rewrite filter_cons in Hnd.
  destruct i as [|i], j as [|j]; simpl in *; try done.
  - injection Hi as ->. rewrite decide_True in Hnd by done. simpl in Hnd.
    apply NoDup_cons in Hnd as [Hnotin _].
    intros Heq. apply Hnotin. rewrite Heq. by eapply Hin.
  - injection Hj as ->. rewrite decide_True in Hnd by done. simpl in Hnd.
    apply NoDup_cons in Hnd as [Hnotin _].
    intros Heq. apply Hnotin. rewrite <- Heq. by eapply Hin.
  - apply (IH) with (i := i) (j := j); try done; [|congruence].
    destruct (decide (P a0)); [|done]. simpl in Hnd.
    by apply NoDup_cons in Hnd as [_ ?].
Qed.

Lemma generateLayout_packed uuid ops D W l :
  generateLayout uuid ops D W = Ok l -> NoDup (machineSlots l).
Proof.
  unfold generateLayout.
  destruct (calculateMachineRequirements ops D W) as [balanced|] eqn:Hcalc; [|done].
  intros [= <-]. apply runSections_packed.
  intros item Hitem. pose proof (planned_counts _ _ _ _ Hcalc item Hitem). lia.
Qed.

(** C2: in the list returned by [generateLayout], two different entries that
    are both machine-class entities never have the same lane together with
    the same along-line position x. *)
Theorem C2_distinct_slots uuid (ops : list Operation.t) (D W : Q)
    (l : list MachinePosition.t) (i j : nat) (e1 e2 : MachinePosition.t) :
  generateLayout uuid ops D W = Ok l ->
  i <> j ->
  l !! i = Some e1 ->
  l !! j = Some e2 ->
  isMachine e1 = true ->
  isMachine e2 = true ->
  ~ (MachinePosition.lane e1 = MachinePosition.lane e2 /\
     Vec3.x (MachinePosition.position e1) = Vec3.x (MachinePosition.position e2)).
Proof.
  intros Hgen Hij Hi Hj Hm1 Hm2 [Hlane Hx].
  apply generateLayout_packed in Hgen.
  unfold machineSlots, machinesOf in Hgen.
  eapply (NoDup_map_filter_lookup slot _ l Hgen i j e1 e2); try done.
  unfold slot. by rewrite Hlane, Hx.
Qed.

Lemma C2_distinct_slots_witness :
  generateLayout sampleUuid [cuffOp2; cuffOp1] 480 480 = Ok cuffLayout /\
  cuffLayout !! 1%nat = Some (machineEntity cuffOp2 Lane.A 35 0 None (Some "Cuff") "u1") /\
  cuffLayout !! 2%nat = Some (machineEntity cuffOp2 Lane.A 55 1 None (Some "Cuff") "u2") /\
  ~ (Lane.A = Lane.A /\ 35 = 55).
Proof.
  split; [reflexivity|]. split; [reflexivity|]. split; [reflexivity|].
  apply (C2_distinct_slots sampleUuid [cuffOp2; cuffOp1] 480 480 cuffLayout
           1%nat 2%nat
           (machineEntity cuffOp2 Lane.A 35 0 None (Some "Cuff") "u1")
           (machineEntity cuffOp2 Lane.A 55 1 None (Some "Cuff") "u2"));
    [reflexivity | discriminate | reflexivity | reflexivity
     | reflexivity | reflexivity].
Defined.

(** ** Parts-preparation sections: one lane per operation *)

Lemma toggle_pair g lane :
  lane = firstLane g \/ lane = secondLane g ->
  (toggle g lane = firstLane g \/ toggle g lane = secondLane g) /\
  toggle g (toggle g lane) = lane.
Proof. destruct g; intros [-> | ->]; simpl; auto. Qed.

Section PartsPreparation.

Variable uuidv4 : nat -> string.

Lemma runEntities_lookup op lane r sec x d0 count k :
  0 <= k < count ->
  runEntities uuidv4 op lane r sec x d0 count !! Z.to_nat k
  = Some (machineEntity op lane (x + k * MACHINE_SPACING_X) k r (Some sec)
                        (uuidv4 (d0 + Z.to_nat k)%nat)).
Proof.
  intros Hk. unfold runEntities.
  change (map ?f ?l) with (f <$> l).
  rewrite list_lookup_fmap, lookup_seqZ_lt by lia. simpl.
  by replace (0 + Z.of_nat (Z.to_nat k)) with k by lia.
Qed.

Lemma rowEntities_lookup op sec cursor d0 count k :
  0 <= k < count ->
  rowEntities uuidv4 op sec cursor d0 count !! Z.to_nat k
  = Some (machineEntity op
            (if k mod 3 =? 0 then Lane.A else if k mod 3 =? 1 then Lane.B else Lane.C)
            (cursor + k / 3 * MACHINE_SPACING_X) k (Some ROT_FACE_FRONT) (Some sec)
            (uuidv4 (d0 + Z.to_nat k)%nat)).
Proof.
  intros Hk. unfold rowEntities.
  change (map ?f ?l) with (f <$> l).
  rewrite list_lookup_fmap, lookup_seqZ_lt by lia. simpl.
  by replace (0 + Z.of_nat (Z.to_nat k)) with k by lia.
Qed.

Lemma placeOps_snoc g sec ops item acc :
  placeOps uuidv4 g sec (ops ++ [item]) acc
  = placeOp uuidv4 g sec (placeOps uuidv4 g sec ops acc) item.
Proof. unfold placeOps. by rewrite fold_left_app. Qed.

(** The lane the toggle points at after a prefix of the operations. *)
Lemma placeOps_toggle g sec ops st :
  (placeOps uuidv4 g sec ops (st, firstLane g)).2
  = if Nat.even (length ops) then firstLane g else secondLane g.
Proof.
  induction ops as [|item ops IH] using rev_ind; [done|].
  rewrite placeOps_snoc, length_app, Nat.add_1_r, Nat.even_succ, <- Nat.negb_even.
  destruct (placeOps uuidv4 g sec ops (st, firstLane g)) as [st' lane'].
  rewrite placeOp_eq. simpl in *. subst lane'.
  destruct g, (Nat.even (length ops)); done.
Qed.

End PartsPreparation.

(** In a parts-preparation section the operations take the two lanes of
    the pair in turn, starting with the pair's first lane.  For the
    operation at index [i] of the section (counting from 0), with
    [count >= 0] machines: the toggle points at the first lane when [i] is
    even and at the second lane when [i] is odd; the operation appends
    exactly its run, instance [k] (for k = 0 .. count-1) lying in that lane
    at [k] pitches after the lane's cursor and recording [machineIndex = k];
    afterwards that lane's cursor has advanced by [count * pitch] and every
    other cursor is unchanged.  The last part ties the loop to the section:
    for a label without "assembly" the section loop runs it on the section's
    operations, from the pair's first lane, right after the board and its
    clearance, and closes the section with the two fixtures. *)
Lemma placeOps_run uuid (g : TargetGroup) (sec : string)
    (ops : list Balanced.t) (st : St) (i : nat) (item : Balanced.t) :
  ops !! i = Some item ->
  0 <= Balanced.count item ->
  let before := placeOps uuid g sec (take i ops) (st, firstLane g) in
  let after := placeOps uuid g sec (take (S i) ops) (st, firstLane g) in
  let lane := if Nat.even i then firstLane g else secondLane g in
  let x0 := LaneCursors.get (cursors before.1) lane in
  let run := runEntities uuid (Balanced.operation item) lane None sec x0
                         (draws before.1) (Balanced.count item) in
  before.2 = lane /\
  layout after.1 = layout before.1 ++ run /\
  length run = Z.to_nat (Balanced.count item) /\
  (forall k, 0 <= k < Balanced.count item ->
     exists e, run !! Z.to_nat k = Some e /\
       MachinePosition.lane e = lane /\
       Vec3.x (MachinePosition.position e) = x0 + k * MACHINE_SPACING_X /\
       MachinePosition.machineIndex e = Some k /\
       MachinePosition.operation e = Balanced.operation item) /\
  LaneCursors.get (cursors after.1) lane
  = x0 + Balanced.count item * MACHINE_SPACING_X /\
  (forall l, l <> lane ->
     LaneCursors.get (cursors after.1) l = LaneCursors.get (cursors before.1) l) /\
  (forall m st0,
     includes (toLowerCase sec) "assembly" = false ->
     g = targetGroupOf (toLowerCase sec) ->
     exists st1 inspectX,
       layout st1
       = layout st0
         ++ [boardEntity sec (maxPair g (cursors st0) + SECTION_GAP_X) (innerZ g)
                         (uuid (draws st0))] /\
       layout (processSection uuid m st0 sec)
       = layout (placeOps uuid g sec (m !!! sec) (st1, firstLane g)).1
         ++ [inspectionEntity sec inspectX (innerZ g) (firstLane g);
             trolleyEntity sec inspectX (innerZ g) (firstLane g) g]).
Proof.
  intros Hi Hcount before after lane x0 run.
  assert (Hsection : forall m st0,
             includes (toLowerCase sec) "assembly" = false ->
             g = targetGroupOf (toLowerCase sec) ->
             exists st1 inspectX,
               layout st1
               = layout st0
                 ++ [boardEntity sec (maxPair g (cursors st0) + SECTION_GAP_X)
                                 (innerZ g) (uuid (draws st0))] /\
               layout (processSection uuid m st0 sec)
               = layout (placeOps uuid g sec (m !!! sec) (st1, firstLane g)).1
                 ++ [inspectionEntity sec inspectX (innerZ g) (firstLane g);
                     trolleyEntity sec inspectX (innerZ g) (firstLane g) g]).
  { intros m st0 Hsec ->.
    rewrite processSection_parts, partsBranch_eq by done. simpl.
    eexists (mkSt _ _ _), _. split; reflexivity. }
  assert (Hlen : length (take i ops) = i).
  { apply length_take_le. apply lookup_lt_Some in Hi. lia. }
  assert (Hlane : before.2 = lane).
  { unfold before, lane. by rewrite placeOps_toggle, Hlen. }
  assert (Hafter : after = placeOp uuid g sec before item).
  { unfold after, before. erewrite take_S_r by done. apply placeOps_snoc. }
  destruct before as [st0 lane0] eqn:Hbefore. simpl in Hlane. subst lane0.
  rewrite placeOp_eq in Hafter. rewrite Hafter. simpl.
  split; [done|]. split; [done|]. split.
  { unfold run, runEntities. by rewrite length_map, length_seqZ. }
  split.
  { intros k Hk. eexists. split; [by apply runEntities_lookup|].
    by rewrite machineEntity_lane, machineEntity_x, machineEntity_index,
               machineEntity_operation. }
  split; [by rewrite get_set_eq, Z.max_r by lia|].
  split; [|exact Hsection].
  intros l Hl. by rewrite get_set_ne.
Qed.

(** ** The assembly section *)

Lemma rowLane_nth k : 0 <= k -> Some (rowLane k) = [Lane.A; Lane.B; Lane.C] !! Z.to_nat (k mod 3).
Proof.
  intros Hk. unfold rowLane.
  assert (Hm : k mod 3 = 0 \/ k mod 3 = 1 \/ k mod 3 = 2)
    by (Z.div_mod_to_equations; lia).
  destruct Hm as [-> | [-> | ->]]; done.
Qed.


(** In a section whose lower-cased label contains "assembly", the
    operations are split by the buttoning test.  A main (non-buttoning)
    operation appends [count] machines, instance [k] in lane
    [[A,B,C][k mod 3]] at row [k / 3] (that many pitches after the
    operation's cursor), all with the front yaw, and moves the cursor on by
    [ceil(count / 3)] rows.  A buttoning operation appends its machines one
    pitch after another in lane D, all with the front yaw.  Three main
    operations of three machines each give nine machines, three per lane
    A/B/C, each operation's three machines sharing one row. *)
Lemma assembly_loops uuid (sec : string) :
  (forall m st, includes (toLowerCase sec) "assembly" = true ->
     processSection uuid m st sec = assemblyBranch uuid sec (m !!! sec) st) /\
  (forall ops st,
     assemblyBranch uuid sec ops st
     = let startX := assemblyStart (cursors st) in
       let st1 := addBoard uuid (withCursors st (setAll startX)) "Assembly" startX 0 in
       let '(st2, assemblyCursor) :=
         fold_left (placeMainOp uuid sec)
                   (filter (fun i => isButton i <> true) ops) (st1, startX) in
       let '(st3, dCursor) :=
         fold_left (placeButtonOp uuid sec)
                   (filter (fun i => isButton i = true) ops) (st2, startX) in
       withCursors st3 (setAll (Z.max assemblyCursor dCursor))) /\
  (forall st cursor item,
     let run := rowEntities uuid (Balanced.operation item) sec cursor (draws st)
                            (Balanced.count item) in
     (placeMainOp uuid sec (st, cursor) item).1
     = mkSt (layout st ++ run) (cursors st)
            (draws st + Z.to_nat (Balanced.count item))%nat /\
     (placeMainOp uuid sec (st, cursor) item).2
     = cursor + ceilDiv (Balanced.count item) 3 * MACHINE_SPACING_X /\
     forall k, 0 <= k < Balanced.count item ->
       exists e, run !! Z.to_nat k = Some e /\
         Some (MachinePosition.lane e)
         = [Lane.A; Lane.B; Lane.C] !! Z.to_nat (k mod 3) /\
         Vec3.x (MachinePosition.position e) = cursor + k / 3 * MACHINE_SPACING_X /\
         Vec3.y (MachinePosition.rotation e) = ROT_FACE_FRONT /\
         MachinePosition.machineIndex e = Some k) /\
  (forall st dCursor item,
     let run := runEntities uuid (Balanced.operation item) Lane.D
                            (Some ROT_FACE_FRONT) sec dCursor (draws st)
                            (Balanced.count item) in
     (placeButtonOp uuid sec (st, dCursor) item).1
     = mkSt (layout st ++ run) (cursors st)
            (draws st + Z.to_nat (Balanced.count item))%nat /\
     (placeButtonOp uuid sec (st, dCursor) item).2
     = dCursor + Z.max 0 (Balanced.count item) * MACHINE_SPACING_X /\
     forall k, 0 <= k < Balanced.count item ->
       exists e, run !! Z.to_nat k = Some e /\
         MachinePosition.lane e = Lane.D /\
         Vec3.x (MachinePosition.position e) = dCursor + k * MACHINE_SPACING_X /\
         Vec3.y (MachinePosition.rotation e) = ROT_FACE_FRONT /\
         MachinePosition.machineIndex e = Some k) /\
  (forall st o1 o2 o3,
     isButton (Balanced.mk o1 3) = false ->
     isButton (Balanced.mk o2 3) = false ->
     isButton (Balanced.mk o3 3) = false ->
     let s := assemblyStart (cursors st) in
     let new := drop (length (layout st))
                     (layout (assemblyBranch uuid sec
                                [Balanced.mk o1 3; Balanced.mk o2 3; Balanced.mk o3 3] st)) in
     machineSlots new
     = [(Lane.A, s); (Lane.B, s); (Lane.C, s);
        (Lane.A, s + 20); (Lane.B, s + 20); (Lane.C, s + 20);
        (Lane.A, s + 40); (Lane.B, s + 40); (Lane.C, s + 40)] /\
     map MachinePosition.operation (machinesOf new)
     = [o1; o1; o1; o2; o2; o2; o3; o3; o3] /\
     Forall (fun e => isMachine e = true ->
                      Vec3.y (MachinePosition.rotation e) = ROT_FACE_FRONT) new).
Proof.
  split; [intros; by apply processSection_assembly|].
  split; [intros; apply assemblyBranch_eq|].
  split.
  { intros st cursor item run. rewrite placeMainOp_eq; simpl.
    split; [done|]. split; [done|].
    intros k Hk. eexists. split; [by apply rowEntities_lookup|].
    rewrite machineEntity_lane, machineEntity_x, machineEntity_forced,
            machineEntity_index.
    split; [apply rowLane_nth; lia|done]. }
  split.
  { intros st dCursor item run. rewrite placeButtonOp_eq; simpl.
    split; [done|]. split; [done|].
    intros k Hk. eexists. split; [by apply runEntities_lookup|].
    by rewrite machineEntity_lane, machineEntity_x, machineEntity_forced,
               machineEntity_index. }
  intros st o1 o2 o3 H1 H2 H3 s new. subst new.
  rewrite assemblyBranch_eq.
  rewrite !filter_cons, !filter_nil.
  rewrite !decide_True, !decide_False by congruence.
  cbn [fold_left]. rewrite !placeMainOp_eq. cbn [fold_left].
  fold s. simpl.
  rewrite <- !app_assoc, drop_app_length.
  unfold rowEntities.
  change (seqZ 0 3) with [0; 1; 2]. simpl.
  split; [|split].
  - unfold machineSlots, machinesOf. rewrite filter_cons_False by done.
    rewrite !filter_cons_True by (apply machineEntity_isMachine; lia).
    rewrite filter_nil. simpl. unfold slot.
    rewrite !machineEntity_lane, !machineEntity_x.
    unfold ceilDiv, MACHINE_SPACING_X.
    repeat (apply (f_equal2 cons);
            [apply (f_equal2 pair); [done|Z.div_mod_to_equations; lia]|]).
    done.
  - done.
  - repeat (apply Forall_cons; split;
            [intros _; by rewrite ?machineEntity_forced|]).
    by apply Forall_nil.
Qed.

(** ** Lane cursors never move backwards *)

Section Cursors.

Variable uuidv4 : nat -> string.

Lemma placeOp_cursors_le g sec st lane item :
  cursors_le (cursors st) (cursors (placeOp uuidv4 g sec (st, lane) item).1).
Proof.
  rewrite placeOp_eq; simpl. apply cursors_le_set.
  unfold MACHINE_SPACING_X. lia.
Qed.

Lemma placeOps_cursors_le g sec ops st lane :
  cursors_le (cursors st) (cursors (placeOps uuidv4 g sec ops (st, lane)).1).
Proof.
  unfold placeOps.
  apply (fold_left_inv (fun acc => cursors_le (cursors st) (cursors acc.1)));
    [apply cursors_le_refl|].
  intros [st0 lane0] item _ Hle; simpl in *.
  eapply cursors_le_trans; [exact Hle|apply placeOp_cursors_le].
Qed.

Lemma buttonOps_cursor_le sec ops st startX :
  startX <= (fold_left (placeButtonOp uuidv4 sec) ops (st, startX)).2.
Proof.
  apply (fold_left_inv (fun acc => startX <= acc.2)); [simpl; lia|].
  intros [st0 d0] item _ Hle. rewrite placeButtonOp_eq; simpl in *.
  unfold MACHINE_SPACING_X. lia.
Qed.

Lemma assemblyBranch_cursors sec ops st :
  exists endX,
    assemblyStart (cursors st) <= endX /\
    cursors (assemblyBranch uuidv4 sec ops st) = setAll endX.
Proof.
  rewrite assemblyBranch_eq; simpl.
  destruct (fold_left (placeMainOp uuidv4 sec) _ _) as [st2 ac].
  pose proof (buttonOps_cursor_le sec
                (filter (fun i => isButton i = true) ops) st2
                (assemblyStart (cursors st))) as Hd.
  destruct (fold_left (placeButtonOp uuidv4 sec) _ _) as [st3 dc].
  simpl in *. exists (Z.max ac dc). split; [lia|done].
Qed.

Lemma assemblyStart_ge c l : LaneCursors.get c l <= assemblyStart c.
Proof. unfold assemblyStart, max4, SECTION_GAP_X. destruct l; simpl; lia. Qed.


Lemma assemblyBranch_cursors_le sec ops st :
  cursors_le (cursors st) (cursors (assemblyBranch uuidv4 sec ops st)).
Proof.
  destruct (assemblyBranch_cursors sec ops st) as (endX & Hle & ->).
  intros l. pose proof (assemblyStart_ge (cursors st) l).
  destruct l; simpl in *; lia.
Qed.

Lemma partsBranch_cursors_le sec secLower ops st :
  cursors_le (cursors st) (cursors (partsBranch uuidv4 sec secLower ops st)).
Proof.
  unfold partsBranch.
  set (g := targetGroupOf secLower).
  set (startX := maxPair g (cursors st) + SECTION_GAP_X).
  set (st1 := withCursors (addBoard uuidv4 _ sec startX _) _).
  assert (H1 : cursors_le (cursors st) (cursors st1)).
  { simpl.
    eapply cursors_le_trans; [|apply cursors_le_addPair; by unfold BOARD_GAP].
    apply cursors_le_setPair. unfold startX, SECTION_GAP_X. lia. }
  pose proof (placeOps_cursors_le g sec ops st1 (firstLane g)) as H2.
  destruct (placeOps uuidv4 g sec ops (st1, firstLane g)) as [st2 lane2].
  simpl in *.
  eapply cursors_le_trans; [exact H1|].
  eapply cursors_le_trans; [exact H2|].
  apply cursors_le_setPair. unfold SECTION_GAP_X. change (20 / 2) with 10. lia.
Qed.


End Cursors.


(** ** What the layout is made of *)

Lemma Forall_snoc {T} (P : T -> Prop) (l : list T) (x : T) :
  Forall P l -> P x -> Forall P (l ++ [x]).
Proof. intros Hl Hx. apply Forall_app. split; [done|]. by apply Forall_singleton. Qed.

(** Among the entities the generator pushes, the machine-class ones are
    exactly those built by [addMachine]. *)
Lemma isMachine_emitted e :
  emitted e ->
  (isMachine e = true <->
   exists op lane x k r s u, 0 <= k /\ e = machineEntity op lane x k r s u).
Proof.
  intros [op lane x k r s u Hk|name x z u|sec x z lane|sec x z lane g].
  - split; [|intros _; by apply machineEntity_isMachine].
    intros _. by exists op, lane, x, k, r, s, u.
  - split; [done|]. intros (op & lane & x' & k & r & s & u' & Hk & Heq).
    apply (f_equal MachinePosition.machineIndex) in Heq.
    rewrite machineEntity_index in Heq. injection Heq as <-. lia.
  - split; [done|]. intros (op & lane' & x' & k & r & s & u & Hk & Heq).
    apply (f_equal MachinePosition.machineIndex) in Heq.
    by rewrite machineEntity_index in Heq.
  - split; [done|]. intros (op & lane' & x' & k & r & s & u & Hk & Heq).
    apply (f_equal MachinePosition.machineIndex) in Heq.
    by rewrite machineEntity_index in Heq.
Qed.

Section Provenance.

Variable uuidv4 : nat -> string.

Lemma runEntities_emitted op lane r sec x d0 count :
  Forall emitted (runEntities uuidv4 op lane r sec x d0 count).
Proof.
  apply Forall_forall. intros e (k & Hk & ->)%elem_of_runEntities.
  constructor. lia.
Qed.

Lemma rowEntities_emitted op sec cursor d0 count :
  Forall emitted (rowEntities uuidv4 op sec cursor d0 count).
Proof.
  apply Forall_forall. intros e (k & Hk & ->)%elem_of_rowEntities.
  constructor. lia.
Qed.

Lemma assemblyBranch_emitted sec ops st :
  Forall emitted (layout st) ->
  Forall emitted (layout (assemblyBranch uuidv4 sec ops st)).
Proof.
  intros Hst. rewrite assemblyBranch_eq; simpl.
  set (st1 := addBoard uuidv4 _ _ _ _).
  assert (H1 : Forall emitted (layout st1)).
  { simpl. apply Forall_snoc; [done|constructor]. }
  destruct (fold_left (placeMainOp uuidv4 sec) _ _) as [st2 ac] eqn:Hmain.
  assert (H2 : Forall emitted (layout st2)).
  { change st2 with (st2, ac).1. rewrite <- Hmain.
    apply (fold_left_inv (fun acc => Forall emitted (layout acc.1))); [done|].
    intros [st0 c0] item _ H0. rewrite placeMainOp_eq; simpl in *.
    apply Forall_app. split; [done|apply rowEntities_emitted]. }
  destruct (fold_left (placeButtonOp uuidv4 sec) _ _) as [st3 dc] eqn:Hbtn.
  change st3 with (st3, dc).1. rewrite <- Hbtn.
  apply (fold_left_inv (fun acc => Forall emitted (layout acc.1))); [done|].
  intros [st0 c0] item _ H0. rewrite placeButtonOp_eq; simpl in *.
  apply Forall_app. split; [done|apply runEntities_emitted].
Qed.

Lemma partsBranch_emitted sec secLower ops st :
  Forall emitted (layout st) ->
  Forall emitted (layout (partsBranch uuidv4 sec secLower ops st)).
Proof.
  intros Hst. unfold partsBranch.
  set (g := targetGroupOf secLower).
  set (st1 := withCursors (addBoard uuidv4 _ sec _ _) _).
  assert (H1 : Forall emitted (layout st1)).
  { simpl. apply Forall_snoc; [done|constructor]. }
  assert (H2 : Forall emitted (layout (placeOps uuidv4 g sec ops (st1, firstLane g)).1)).
  { unfold placeOps.
    apply (fold_left_inv (fun acc => Forall emitted (layout acc.1))); [done|].
    intros [st0 l0] item _ H0. rewrite placeOp_eq; simpl in *.
    apply Forall_app. split; [done|apply runEntities_emitted]. }
  destruct (placeOps uuidv4 g sec ops (st1, firstLane g)) as [st2 lane2].
  simpl in *.
  apply Forall_snoc; [apply Forall_snoc|]; [done|constructor..].
Qed.

Lemma runSections_emitted balancedOps :
  Forall emitted (layout (runSections uuidv4 balancedOps)).
Proof.
  unfold runSections. destruct (groupSections balancedOps) as [m order].
  apply (fold_left_inv (fun st => Forall emitted (layout st))); [by constructor|].
  intros st sec _ Hst. unfold processSection. destruct (includes _ _).
  - by apply assemblyBranch_emitted.
  - by apply partsBranch_emitted.
Qed.

Lemma generateLayout_emitted ops D W l :
  generateLayout uuidv4 ops D W = Ok l -> Forall emitted l.
Proof.
  unfold generateLayout. destruct (calculateMachineRequirements ops D W); [|done].
  intros [= <-]. apply runSections_emitted.
Qed.

(** The assembly section starts by pushing its central board. *)
Lemma assemblyBranch_board sec ops st :
  exists rest,
    layout (assemblyBranch uuidv4 sec ops st)
    = layout st
      ++ boardEntity "Assembly" (assemblyStart (cursors st)) 0 (uuidv4 (draws st))
      :: rest.
Proof.
  rewrite assemblyBranch_eq; simpl.
  set (st1 := addBoard uuidv4 _ _ _ _).
  set (base := layout st1).
  assert (Hext : forall f l acc,
            (forall (a : St * Z) (x : Balanced.t) r,
                layout a.1 = base ++ r -> exists r', layout (f a x).1 = base ++ r') ->
            (exists r, layout acc.1 = base ++ r) ->
            exists r, layout (fold_left f l acc).1 = base ++ r).
  { intros f l acc Hf Hacc.
    apply (fold_left_inv (fun a => exists r, layout a.1 = base ++ r)); [done|].
    intros a x _ [r Hr]. by eapply Hf. }
  assert (Hmain : forall (a : St * Z) (x : Balanced.t) r,
             layout a.1 = base ++ r ->
             exists r', layout (placeMainOp uuidv4 sec a x).1 = base ++ r').
  { intros [st0 c0] x r Hr. rewrite placeMainOp_eq; simpl in *.
    rewrite Hr, <- app_assoc. eauto. }
  assert (Hbtn : forall (a : St * Z) (x : Balanced.t) r,
             layout a.1 = base ++ r ->
             exists r', layout (placeButtonOp uuidv4 sec a x).1 = base ++ r').
  { intros [st0 c0] x r Hr. rewrite placeButtonOp_eq; simpl in *.
    rewrite Hr, <- app_assoc. eauto. }
  destruct (Hext _ (filter (fun i => isButton i <> true) ops)
                 (st1, assemblyStart (cursors st)) Hmain) as [r2 Hr2].
  { exists []. by rewrite app_nil_r. }
  destruct (fold_left (placeMainOp uuidv4 sec) _ _) as [st2 ac].
  destruct (Hext _ (filter (fun i => isButton i = true) ops)
                 (st2, assemblyStart (cursors st)) Hbtn) as [r3 Hr3]; [by eauto|].
  destruct (fold_left (placeButtonOp uuidv4 sec) _ _) as [st3 dc].
  simpl in *. exists r3. rewrite Hr3. unfold base. simpl.
  by rewrite <- app_assoc.
Qed.

End Provenance.

(** C10: a section board is the entity with the sentinel index -1.  Its
    lane is A exactly when its z is negative and C otherwise, its height y
    is 2.5, its machine type is "Board".  The assembly section pushes its
    board at z = 0, so that board is filed under lane C. *)
Theorem C10_board_lane uuid :
  (forall name x z u,
     let b := boardEntity name x z u in
     MachinePosition.machineIndex b = Some (-1) /\
     Vec3.z (MachinePosition.position b) = z /\
     Vec3.y (MachinePosition.position b) = 25 /\
     Operation.machine_type (MachinePosition.operation b) = "Board" /\
     (MachinePosition.lane b = Lane.A <-> z < 0) /\
     (MachinePosition.lane b = Lane.C <-> ~ z < 0)) /\
  (forall ops D W l e,
     generateLayout uuid ops D W = Ok l ->
     e ∈ l ->
     MachinePosition.machineIndex e = Some (-1) ->
     (MachinePosition.lane e = Lane.A <-> Vec3.z (MachinePosition.position e) < 0) /\
     (MachinePosition.lane e = Lane.C <-> ~ Vec3.z (MachinePosition.position e) < 0) /\
     Vec3.y (MachinePosition.position e) = 25 /\
     Operation.machine_type (MachinePosition.operation e) = "Board") /\
  (forall sec ops st,
     exists b,
       b ∈ layout (assemblyBranch uuid sec ops st) /\
       b = boardEntity "Assembly" (assemblyStart (cursors st)) 0 (uuid (draws st)) /\
       Vec3.z (MachinePosition.position b) = 0 /\
       MachinePosition.lane b = Lane.C).
Proof.
  assert (Hboard : forall name x z u,
             let b := boardEntity name x z u in
             MachinePosition.machineIndex b = Some (-1) /\
             Vec3.z (MachinePosition.position b) = z /\
             Vec3.y (MachinePosition.position b) = 25 /\
             Operation.machine_type (MachinePosition.operation b) = "Board" /\
             (MachinePosition.lane b = Lane.A <-> z < 0) /\
             (MachinePosition.lane b = Lane.C <-> ~ z < 0)).
  { intros name x z u; simpl. repeat (split; [done|]).
    destruct (Z.ltb_spec z 0); split; split; intros; (done || lia). }
  split; [exact Hboard|]. split.
  - intros ops D W l e Hgen He Hidx.
    apply generateLayout_emitted in Hgen.
    rewrite Forall_forall in Hgen. specialize (Hgen e He).
    destruct Hgen as [op lane x k r s u Hk|name x z u|sec x z lane|sec x z lane g].
    + rewrite machineEntity_index in Hidx. injection Hidx as ->. lia.
    + destruct (Hboard name x z u) as (_ & Hz & Hy & Hty & HA & HC).
      rewrite Hz. tauto.
    + discriminate.
    + discriminate.
  - intros sec ops st.
    destruct (assemblyBranch_board uuid sec ops st) as [rest Hrest].
    eexists. split; [|split; [reflexivity|done]].
    rewrite Hrest. apply elem_of_app. right. by left.
Qed.

(** ** Determinism up to identifiers *)






Section Determinism.

Variables u1 u2 : nat -> string.










End Determinism.


(** ** Facing of the machines outside the assembly section *)

(** Without a forced rotation the yaw is the front yaw exactly for the
    machine types that mention "iron" or "inspection", and the lane's yaw for
    every other type. *)
Lemma machineEntity_yaw op lane x k s u :
  Vec3.y (MachinePosition.rotation (machineEntity op lane x k None s u))
  = if (includes (toLowerCase (Operation.machine_type op)) "iron"
        || includes (toLowerCase (Operation.machine_type op)) "inspection")%bool
    then ROT_FACE_FRONT
    else laneYaw lane.
Proof. destruct lane; simpl; by destruct (_ || _)%bool. Qed.

Lemma laneYaw_values :
  laneYaw Lane.A = ROT_FACE_LEFT /\ laneYaw Lane.B = ROT_FACE_RIGHT /\
  laneYaw Lane.C = ROT_FACE_RIGHT /\ laneYaw Lane.D = ROT_FACE_LEFT.
Proof. done. Qed.

(** C5, the code at a pressing machine: a "Steam Press" in the section
    "Cuff" is a machine of a pressing type placed outside the assembly
    section; it lands in lane A and gets lane A's yaw (left), not the front
    yaw.  The test in [addMachine] looks for "iron" and "inspection" only. *)
Theorem C5_pressing_machine_faces_by_lane uuid :
  exists l e,
    generateLayout uuid [pressOp] 480 480 = Ok l /\
    l !! 1%nat = Some e /\
    isMachine e = true /\
    MachinePosition.operation e = pressOp /\
    includes (toLowerCase (Operation.machine_type pressOp)) "press" = true /\
    includes (toLowerCase (MachinePosition.section e)) "assembly" = false /\
    MachinePosition.lane e = Lane.A /\
    Vec3.y (MachinePosition.rotation e) = ROT_FACE_LEFT /\
    Vec3.y (MachinePosition.rotation e) <> ROT_FACE_FRONT.
Proof.
  eexists _, _. split; [reflexivity|]. split; [vm_compute; reflexivity|].
  repeat split; try reflexivity. discriminate.
Qed.

(** ** The fixtures that end a parts-preparation section *)


(** C6, the code after a parts-preparation section: the section ends with
    exactly two fixtures in the pair's inner lane, the inspection table at
    [inspectX] and then the trolley at [inspectX + 3.5]; both cursors of the
    pair are then set to [inspectX + 2.5], which is 1.0 short of the
    trolley. *)
Theorem C6_cursors_stop_before_trolley uuid (sec secLower : string)
    (ops : list Balanced.t) (st : St) :
  let g := targetGroupOf secLower in
  let st' := partsBranch uuid sec secLower ops st in
  exists body inspectX,
    let inspection := inspectionEntity sec inspectX (innerZ g) (firstLane g) in
    let trolley := trolleyEntity sec inspectX (innerZ g) (firstLane g) g in
    layout st' = body ++ [inspection; trolley] /\
    MachinePosition.lane inspection = firstLane g /\
    MachinePosition.lane trolley = firstLane g /\
    Vec3.x (MachinePosition.position inspection) = inspectX /\
    Vec3.x (MachinePosition.position trolley) = inspectX + 35 /\
    LaneCursors.get (cursors st') (firstLane g) = inspectX + 25 /\
    LaneCursors.get (cursors st') (secondLane g) = inspectX + 25 /\
    LaneCursors.get (cursors st') (firstLane g)
    < Vec3.x (MachinePosition.position trolley) /\
    LaneCursors.get (cursors st') (secondLane g)
    < Vec3.x (MachinePosition.position trolley).
Proof.
  intros g st'. unfold st'. rewrite partsBranch_eq. fold g. simpl.
  eexists _, _. split; [reflexivity|].
  repeat split; try reflexivity; destruct g; simpl; lia.
Qed.

(** The same on one operation in the section "Cuff": the trolley stands at
    10.0 and both cursors of the pair A/B end at 9.0. *)
Lemma cuff_section_cursors :
  let st := runSections sampleUuid [Balanced.mk (Operation.mk "2" "Attach cuff" "SNLS" 1%Q "Cuff") 1] in
  cursors st = LaneCursors.mk 90 90 0 0 /\
  (Vec3.x ∘ MachinePosition.position) <$> last (layout st) = Some 100.
Proof. split; vm_compute; reflexivity. Qed.

(** ** The generator at a concrete input *)

(** Example 3 of the specification through the whole generator: three
    assembly operations of smv 3 at a takt time of one minute. *)
Lemma assembly_example :
  (fun l => map (fun e => (MachinePosition.lane e, Vec3.x (MachinePosition.position e),
                           Vec3.y (MachinePosition.rotation e)))
                (machinesOf l))
  <$> match generateLayout sampleUuid [joinOp; sideOp; hemOp] 480 480 with
      | Ok l => Some l
      | Err _ => None
      end
  = Some [(Lane.A, 20, ROT_FACE_FRONT); (Lane.B, 20, ROT_FACE_FRONT);
          (Lane.C, 20, ROT_FACE_FRONT); (Lane.A, 40, ROT_FACE_FRONT);
          (Lane.B, 40, ROT_FACE_FRONT); (Lane.C, 40, ROT_FACE_FRONT);
          (Lane.A, 60, ROT_FACE_FRONT); (Lane.B, 60, ROT_FACE_FRONT);
          (Lane.C, 60, ROT_FACE_FRONT)].
Proof. vm_compute. reflexivity. Qed.

(** * Further properties of the layout generator *)

(** ** Contents and order of the layout *)

Lemma orElse_nonempty a b : a <> "" -> orElse a b = a.
Proof.
  intros Ha. unfold orElse. destruct (String.eqb_spec a ""); [done|done].
Qed.

Lemma sectionKey_nonempty item : sectionKey item <> "".
Proof.
  unfold sectionKey, orElse.
  destruct (String.eqb_spec (Operation.section (Balanced.operation item)) "");
    [discriminate|done].
Qed.

Lemma contents_machineEntity op lane x k r sec u :
  sec <> "" ->
  contents (machineEntity op lane x k r (Some sec) u) = machineContents op sec k.
Proof.
  intros Hsec. unfold contents, machineContents.
  destruct lane; simpl; by rewrite orElse_nonempty.
Qed.

Lemma flat_map_ext_elem {S T} (f g : S -> list T) (l : list S) :
  (forall x, x ∈ l -> f x = g x) -> flat_map f l = flat_map g l.
Proof.
  induction l as [|a l IH]; intros H; simpl; [done|].
  rewrite (H a) by (by left). rewrite IH; [done|].
  intros x Hx. apply H. by right.
Qed.

Section Contents.

Variable uuidv4 : nat -> string.

Lemma runEntities_contents op lane r sec x d0 count :
  sec <> "" ->
  map contents (runEntities uuidv4 op lane r sec x d0 count)
  = runContents sec (Balanced.mk op count).
Proof.
  intros Hsec. unfold runEntities, runContents. rewrite map_map.
  apply map_ext. intros k. by apply contents_machineEntity.
Qed.

Lemma rowEntities_contents op sec cursor d0 count :
  sec <> "" ->
  map contents (rowEntities uuidv4 op sec cursor d0 count)
  = runContents sec (Balanced.mk op count).
Proof.
  intros Hsec. unfold rowEntities, runContents. rewrite map_map.
  apply map_ext. intros k. by apply contents_machineEntity.
Qed.

Lemma runContents_eta sec item :
  runContents sec (Balanced.mk (Balanced.operation item) (Balanced.count item))
  = runContents sec item.
Proof. by destruct item. Qed.

(** A loop that appends one run per operation appends their contents in
    order. *)
Lemma fold_contents {T} (f : St * T -> Balanced.t -> St * T) sec ops :
  (forall acc item,
      map contents (layout (f acc item).1)
      = map contents (layout acc.1) ++ runContents sec item) ->
  forall acc,
    map contents (layout (fold_left f ops acc).1)
    = map contents (layout acc.1) ++ flat_map (runContents sec) ops.
Proof.
  intros Hf. induction ops as [|item ops IH]; intros acc; simpl.
  - by rewrite app_nil_r.
  - by rewrite IH, Hf, <- app_assoc.
Qed.

Lemma placeOps_contents g sec ops acc :
  sec <> "" ->
  map contents (layout (placeOps uuidv4 g sec ops acc).1)
  = map contents (layout acc.1) ++ flat_map (runContents sec) ops.
Proof.
  intros Hsec. apply fold_contents. intros [st lane] item.
  rewrite placeOp_eq; simpl.
  by rewrite map_app, runEntities_contents, runContents_eta.
Qed.

Lemma mainOps_contents sec ops acc :
  sec <> "" ->
  map contents (layout (fold_left (placeMainOp uuidv4 sec) ops acc).1)
  = map contents (layout acc.1) ++ flat_map (runContents sec) ops.
Proof.
  intros Hsec. apply fold_contents. intros [st c] item.
  rewrite placeMainOp_eq; simpl.
  by rewrite map_app, rowEntities_contents, runContents_eta.
Qed.

Lemma buttonOps_contents sec ops acc :
  sec <> "" ->
  map contents (layout (fold_left (placeButtonOp uuidv4 sec) ops acc).1)
  = map contents (layout acc.1) ++ flat_map (runContents sec) ops.
Proof.
  intros Hsec. apply fold_contents. intros [st c] item.
  rewrite placeButtonOp_eq; simpl.
  by rewrite map_app, runEntities_contents, runContents_eta.
Qed.

Lemma processSection_contents m st sec :
  sec <> "" ->
  map contents (layout (processSection uuidv4 m st sec))
  = map contents (layout st) ++ sectionContents sec (m !!! sec).
Proof.
  intros Hsec. unfold sectionContents.
  destruct (includes (toLowerCase sec) "assembly") eqn:Hasm.
  - rewrite processSection_assembly, assemblyBranch_eq by done. simpl.
    set (st1 := addBoard uuidv4 _ _ _ _).
    pose proof (mainOps_contents sec
                  (filter (fun i => isButton i <> true) (m !!! sec))
                  (st1, assemblyStart (cursors st)) Hsec) as Hmain.
    destruct (fold_left (placeMainOp uuidv4 sec) _ _) as [st2 ac].
    pose proof (buttonOps_contents sec
                  (filter (fun i => isButton i = true) (m !!! sec))
                  (st2, assemblyStart (cursors st)) Hsec) as Hbtn.
    destruct (fold_left (placeButtonOp uuidv4 sec) _ _) as [st3 dc].
    simpl in *. rewrite Hbtn, Hmain. unfold st1; simpl.
    rewrite map_app, flat_map_app, <- !app_assoc. done.
  - rewrite processSection_parts, partsBranch_eq by done. simpl.
    rewrite map_app, placeOps_contents by done. simpl.
    rewrite map_app, <- !app_assoc. done.
Qed.

Lemma sections_contents m secs : forall st,
  (forall sec, sec ∈ secs -> sec <> "") ->
  map contents (layout (fold_left (processSection uuidv4 m) secs st))
  = map contents (layout st)
    ++ flat_map (fun sec => sectionContents sec (m !!! sec)) secs.
Proof.
  induction secs as [|sec secs IH]; intros st Hne; simpl.
  - by rewrite app_nil_r.
  - rewrite IH by (intros; apply Hne; by right).
    rewrite processSection_contents by (apply Hne; by left).
    by rewrite <- app_assoc.
Qed.

Lemma runSections_contents balancedOps :
  map contents (layout (runSections uuidv4 balancedOps))
  = layoutContents balancedOps.
Proof.
  unfold runSections, layoutContents.
  pose proof (groupSections_order balancedOps) as Hord.
  pose proof (groupSections_bucket balancedOps) as Hbucket.
  destruct (groupSections balancedOps) as [m order]; simpl in *.
  rewrite sections_contents; simpl.
  - rewrite <- Hord. apply flat_map_ext_elem.
    intros sec Hsec. by rewrite Hbucket.
  - intros sec Hsec. rewrite Hord, elem_of_firstSeen in Hsec.
    apply list_elem_of_In, in_map_iff in Hsec as (item & <- & _).
    apply sectionKey_nonempty.
Qed.

End Contents.

Lemma planned_ok ops D W balanced :
  calculateMachineRequirements ops D W = Ok balanced -> balanced = planned ops D W.
Proof.
  unfold calculateMachineRequirements, planned.
  destruct (_ || _)%bool; [done|]. by intros [= <-].
Qed.

(** X1: the layout lists the sections in order of first appearance; each
    section contributes its board, then its machines operation by operation
    with indices 0 .. count-1 (main operations before buttoning ones in an
    assembly section), then, unless it is an assembly section, its
    inspection table and its trolley.  Every machine carries the label of
    its section, which is its operation's section or "Unknown" when that is
    empty; the assembly board is always labelled "Assembly". *)
Theorem X1_layout_contents uuid (ops : list Operation.t) (D W : Q)
    (l : list MachinePosition.t) :
  generateLayout uuid ops D W = Ok l ->
  map contents l = layoutContents (planned ops D W).
Proof.
  unfold generateLayout.
  destruct (calculateMachineRequirements ops D W) as [balanced|] eqn:Hcalc; [|done].
  intros [= <-]. apply planned_ok in Hcalc as ->.
  apply runSections_contents.
Qed.

(** ** Every planned machine is placed exactly once *)

Lemma filter_eq_NoDup (x : string) (l : list string) :
  NoDup l -> x ∈ l -> filter (fun s => s = x) l = [x].
Proof.
  induction 1 as [|a l Ha Hnd IH]; intros Hx; [by apply elem_of_nil in Hx|].
  rewrite filter_cons. destruct (decide (a = x)) as [->|Hne].
  - f_equal. apply filter_none. intros s Hs ->. done.
  - apply IH. apply elem_of_cons in Hx as [->|Hx]; done.
Qed.

Lemma flat_map_perm {S T} (f g : S -> list T) (l : list S) :
  (forall x, x ∈ l -> f x ≡ₚ g x) -> flat_map f l ≡ₚ flat_map g l.
Proof.
  induction l as [|a l IH]; intros H; simpl; [done|].
  apply Permutation_app; [apply H; by left|].
  apply IH. intros x Hx. apply H. by right.
Qed.

(** Grouping by key, in order of first appearance, only reorders a list. *)
Lemma buckets_perm {T} (key : T -> string) (l : list T) :
  flat_map (fun s => filter (fun i => key i = s) l) (firstSeen (map key l)) ≡ₚ l.
Proof.
  induction l as [|a l IH]; [done|]. simpl.
  rewrite filter_cons_True by done. simpl. constructor.
  set (ka := key a). set (FS := firstSeen (map key l)).
  rewrite (flat_map_ext_elem _ (fun s => filter (fun i => key i = s) l)).
  2:{ intros s [Hs _]%list_elem_of_filter.
      rewrite filter_cons_False; [done|]. unfold ka in Hs. congruence. }
  etransitivity; [|exact IH]. fold FS.
  etransitivity;
    [|apply Permutation_flat_map, (filter_app_complement (fun s => s = ka) FS)].
  rewrite flat_map_app. apply Permutation_app; [|done].
  destruct (decide (ka ∈ FS)) as [Hin|Hin].
  - rewrite filter_eq_NoDup by (done || apply NoDup_firstSeen). simpl.
    by rewrite app_nil_r.
  - rewrite (filter_none (fun s => s = ka) FS) by (intros s Hs ->; done). simpl.
    rewrite filter_none; [done|].
    intros i Hi Hk. apply Hin. unfold FS. rewrite elem_of_firstSeen, <- Hk.
    apply list_elem_of_In, in_map, list_elem_of_In, Hi.
Qed.

Lemma machineOperations_app cs1 cs2 :
  machineOperations (cs1 ++ cs2) = machineOperations cs1 ++ machineOperations cs2.
Proof. unfold machineOperations. apply flat_map_app. Qed.

Lemma machineOperations_of_layout l :
  map MachinePosition.operation (machinesOf l) = machineOperations (map contents l).
Proof.
  unfold machinesOf. induction l as [|e l IH]; [done|].
  rewrite filter_cons.
  destruct (decide (isMachine e = true)) as [Hm|Hm]; simpl; rewrite <- IH;
    unfold isMachine in Hm;
    destruct (MachinePosition.machineIndex e) as [k|]; try done;
    destruct (0 <=? k); done.
Qed.

Lemma machineOperations_run sec b :
  machineOperations (runContents sec b)
  = replicate (Z.to_nat (Balanced.count b)) (Balanced.operation b).
Proof.
  unfold machineOperations, runContents, machineContents.
  rewrite flat_map_concat_map, map_map, <- flat_map_concat_map.
  rewrite (flat_map_ext_elem _ (fun _ => [Balanced.operation b])).
  2:{ intros k Hk%elem_of_seqZ. by rewrite (proj2 (Z.leb_le 0 k)) by lia. }
  rewrite <- (length_seqZ 0 (Balanced.count b)).
  induction (seqZ 0 (Balanced.count b)); simpl; by f_equal.
Qed.

Lemma machineOperations_runs sec ops :
  machineOperations (flat_map (runContents sec) ops) = machinesNeeded ops.
Proof.
  unfold machinesNeeded. induction ops as [|b ops IH]; [done|]. simpl.
  by rewrite machineOperations_app, machineOperations_run, IH.
Qed.

Lemma machinesNeeded_perm l1 l2 : l1 ≡ₚ l2 -> machinesNeeded l1 ≡ₚ machinesNeeded l2.
Proof. apply Permutation_flat_map. Qed.

Lemma machineOperations_section sec ops :
  machineOperations (sectionContents sec ops) ≡ₚ machinesNeeded ops.
Proof.
  unfold sectionContents. destruct (includes _ _).
  - change (boardContents "Assembly" :: ?l) with ([boardContents "Assembly"] ++ l).
    rewrite machineOperations_app, machineOperations_runs. simpl.
    apply machinesNeeded_perm.
    rewrite Permutation_app_comm.
    apply (filter_app_complement (fun i => isButton i = true)).
  - change (boardContents sec :: ?l) with ([boardContents sec] ++ l).
    rewrite !machineOperations_app, machineOperations_runs. simpl.
    by rewrite app_nil_r.
Qed.

Lemma machineOperations_layout balancedOps :
  machineOperations (layoutContents balancedOps) ≡ₚ machinesNeeded balancedOps.
Proof.
  unfold layoutContents.
  assert (Hflat : forall (F : string -> list (Operation.t * string * option Z * bool * bool)) secs,
             machineOperations (flat_map F secs)
             = flat_map (fun s => machineOperations (F s)) secs).
  { intros F secs. induction secs as [|s secs IH]; [done|]. simpl.
    by rewrite machineOperations_app, IH. }
  rewrite Hflat.
  etransitivity.
  { apply flat_map_perm. intros s _. apply machineOperations_section. }
  assert (Hnest : forall secs,
             flat_map (fun s => machinesNeeded
                                  (filter (fun i => sectionKey i = s) balancedOps))
                      secs
             = machinesNeeded
                 (flat_map (fun s => filter (fun i => sectionKey i = s) balancedOps)
                           secs)).
  { intros secs. unfold machinesNeeded.
    induction secs as [|s secs IH]; [done|]. simpl.
    by rewrite flat_map_app, IH. }
  rewrite Hnest. apply machinesNeeded_perm, buckets_perm.
Qed.

(** X2: the machine-class entities of the layout are, up to order, the
    operations of the input, each repeated as many times as the planner
    requires: no operation is dropped and none gets an extra machine. *)
Theorem X2_every_machine_placed_once uuid (ops : list Operation.t) (D W : Q)
    (l : list MachinePosition.t) :
  generateLayout uuid ops D W = Ok l ->
  map MachinePosition.operation (machinesOf l)
  ≡ₚ flat_map (fun op => replicate (Z.to_nat (requiredCount (Operation.smv op) D W)) op)
              ops.
Proof.
  intros Hgen. unfold generateLayout in Hgen.
  destruct (calculateMachineRequirements ops D W) as [balanced|] eqn:Hcalc; [|done].
  injection Hgen as <-. apply planned_ok in Hcalc as ->.
  rewrite machineOperations_of_layout, runSections_contents.
  etransitivity; [apply machineOperations_layout|].
  unfold machinesNeeded, planned.
  rewrite flat_map_concat_map, map_map, <- flat_map_concat_map. done.
Qed.


(** ** The size of the layout *)

Lemma fixtureCount_app cs1 cs2 :
  fixtureCount (cs1 ++ cs2) = (fixtureCount cs1 + fixtureCount cs2)%nat.
Proof. unfold fixtureCount. by rewrite filter_app, length_app. Qed.

Lemma fixtureCount_of_layout l :
  length (fixturesOf l) = fixtureCount (map contents l).
Proof.
  unfold fixturesOf, fixtureCount. induction l as [|e l IH]; [done|].
  simpl. rewrite !filter_cons.
  assert (He : isMachineEntry (contents e) = isMachine e).
  { unfold isMachine, contents. simpl. by destruct (MachinePosition.machineIndex e). }
  rewrite He. destruct (isMachine e).
  - rewrite !decide_False by done. exact IH.
  - rewrite !decide_True by done. simpl. by f_equal.
Qed.

Lemma fixtureCount_runs sec ops : fixtureCount (flat_map (runContents sec) ops) = 0%nat.
Proof.
  induction ops as [|b ops IH]; [done|]. simpl.
  rewrite fixtureCount_app, IH, Nat.add_0_r.
  unfold fixtureCount, runContents. rewrite filter_none; [done|].
  intros c Hc. apply list_elem_of_In, in_map_iff in Hc as (k & <- & Hk).
  apply list_elem_of_In, elem_of_seqZ in Hk. simpl.
  rewrite (proj2 (Z.leb_le 0 k)) by lia. done.
Qed.

Lemma fixtureCount_section sec ops :
  fixtureCount (sectionContents sec ops)
  = if isAssemblyLabel sec then 1%nat else 3%nat.
Proof.
  unfold sectionContents, isAssemblyLabel, assemblySection.
  destruct (includes _ _).
  - change (boardContents "Assembly" :: ?l) with ([boardContents "Assembly"] ++ l).
    by rewrite fixtureCount_app, fixtureCount_runs.
  - change (boardContents sec :: ?l) with ([boardContents sec] ++ l).
    by rewrite !fixtureCount_app, fixtureCount_runs.
Qed.

Lemma fixtureCount_sections (B : string -> list Balanced.t) secs :
  fixtureCount (flat_map (fun sec => sectionContents sec (B sec)) secs)
  = (length secs + 2 * length (filter (fun s => isAssemblyLabel s = false) secs))%nat.
Proof.
  induction secs as [|s secs IH]; [done|]. simpl.
  rewrite fixtureCount_app, fixtureCount_section, IH, filter_cons.
  destruct (isAssemblyLabel s); simpl; lia.
Qed.

Lemma length_machines_fixtures l :
  length l = (length (machinesOf l) + length (fixturesOf l))%nat.
Proof.
  unfold machinesOf, fixturesOf. induction l as [|e l IH]; [done|].
  rewrite !filter_cons. simpl. destruct (isMachine e).
  - rewrite decide_True by done. rewrite decide_False by done. simpl. lia.
  - rewrite decide_False by done. rewrite decide_True by done. simpl. lia.
Qed.

(** X3: the layout holds one machine per machine needed, one board per
    section, and an inspection table and a trolley per section that is not
    an assembly section; nothing else. *)
Theorem X3_layout_size uuid (ops : list Operation.t) (D W : Q)
    (l : list MachinePosition.t) :
  generateLayout uuid ops D W = Ok l ->
  let secs := sectionsOf (planned ops D W) in
  let parts := filter (fun s => isAssemblyLabel s = false) secs in
  length (machinesOf l) = length (machinesNeeded (planned ops D W)) /\
  length (fixturesOf l) = (length secs + 2 * length parts)%nat /\
  length l
  = (length (machinesNeeded (planned ops D W)) + length secs + 2 * length parts)%nat.
Proof.
  intros Hgen secs parts. unfold generateLayout in Hgen.
  destruct (calculateMachineRequirements ops D W) as [balanced|] eqn:Hcalc; [|done].
  injection Hgen as <-. apply planned_ok in Hcalc as ->.
  assert (Hm : length (machinesOf (layout (runSections uuid (planned ops D W))))
               = length (machinesNeeded (planned ops D W))).
  { rewrite <- (length_map MachinePosition.operation).
    rewrite machineOperations_of_layout, runSections_contents.
    apply Permutation_length, machineOperations_layout. }
  assert (Hf : length (fixturesOf (layout (runSections uuid (planned ops D W))))
               = (length secs + 2 * length parts)%nat).
  { rewrite fixtureCount_of_layout, runSections_contents.
    apply fixtureCount_sections. }
  split; [done|]. split; [done|].
  rewrite length_machines_fixtures, Hm, Hf. lia.
Qed.

(** ** Where the entities stand *)

Lemma emitted_geometry e :
  emitted e ->
  Vec3.x (MachinePosition.rotation e) = Zero /\
  Vec3.z (MachinePosition.rotation e) = Zero /\
  (isMachine e = true ->
     Vec3.y (MachinePosition.position e) = 0 /\
     Vec3.z (MachinePosition.position e) = laneZ (MachinePosition.lane e)) /\
  (isMachine e = false ->
     Vec3.y (MachinePosition.position e) = 0 \/
     Vec3.y (MachinePosition.position e) = 25).
Proof.
  intros [op lane x k r s u Hk|name x z u|sec x z lane|sec x z lane g].
  - destruct lane; simpl; (split; [done|]); (split; [done|]);
      (split; [done|]); intros _; by left.
  - simpl. repeat (split; [done|]). intros _. by right.
  - simpl. repeat (split; [done|]). intros _. by left.
  - simpl. repeat (split; [done|]). intros _. by left.
Qed.


(** X5: no two machines of a layout stand at the same place: two different
    entries that are machines differ in their position. *)
Theorem X5_distinct_positions uuid (ops : list Operation.t) (D W : Q)
    (l : list MachinePosition.t) (i j : nat) (e1 e2 : MachinePosition.t) :
  generateLayout uuid ops D W = Ok l ->
  i <> j ->
  l !! i = Some e1 ->
  l !! j = Some e2 ->
  isMachine e1 = true ->
  isMachine e2 = true ->
  MachinePosition.position e1 <> MachinePosition.position e2.
Proof.
  intros Hgen Hij Hi Hj Hm1 Hm2 Hpos.
  pose proof (generateLayout_emitted _ _ _ _ _ Hgen) as Hem.
  rewrite Forall_forall in Hem.
  destruct (emitted_geometry e1) as (_ & _ & Hz1 & _);
    [by eapply Hem, list_elem_of_lookup_2|].
  destruct (emitted_geometry e2) as (_ & _ & Hz2 & _);
    [by eapply Hem, list_elem_of_lookup_2|].
  destruct (Hz1 Hm1) as [_ Hl1]. destruct (Hz2 Hm2) as [_ Hl2].
  apply generateLayout_packed in Hgen. unfold machineSlots, machinesOf in Hgen.
  eapply (NoDup_map_filter_lookup slot _ l Hgen i j e1 e2); try done.
  unfold slot. rewrite Hpos in *. f_equal.
  rewrite Hl2 in Hl1.
  destruct (MachinePosition.lane e1), (MachinePosition.lane e2); done.
Qed.

(** ** Lanes by section label *)

Lemma isButton_operation b k :
  isButton (Balanced.mk (Balanced.operation b) k) = isButton b.
Proof. by destruct b. Qed.

Lemma machineEntity_section op lane x k r sec u :
  sec <> "" ->
  MachinePosition.section (machineEntity op lane x k r (Some sec) u) = sec.
Proof. intros Hsec. destruct lane; simpl; by apply orElse_nonempty. Qed.

Section LaneRule.

Variable uuidv4 : nat -> string.

Lemma runEntities_laneRule_parts op lane r sec x d0 count :
  sec <> "" ->
  includes (toLowerCase sec) "assembly" = false ->
  lane = firstLane (targetGroupOf (toLowerCase sec)) \/
  lane = secondLane (targetGroupOf (toLowerCase sec)) ->
  Forall laneRule (runEntities uuidv4 op lane r sec x d0 count).
Proof.
  intros Hsec Hasm Hlane. apply Forall_forall.
  intros e (k & Hk & ->)%elem_of_runEntities _. unfold laneAllowed.
  rewrite machineEntity_section, machineEntity_lane by done.
  rewrite Hasm. unfold targetGroupOf, isCDSection, cdSections in Hlane.
  simpl in Hlane. rewrite orb_false_r in Hlane.
  by destruct (_ || _)%bool.
Qed.

Lemma partsBranch_laneRule sec ops st :
  sec <> "" ->
  includes (toLowerCase sec) "assembly" = false ->
  Forall laneRule (layout st) ->
  Forall laneRule (layout (partsBranch uuidv4 sec (toLowerCase sec) ops st)).
Proof.
  intros Hsec Hasm Hst. rewrite partsBranch_eq. simpl.
  set (g := targetGroupOf (toLowerCase sec)).
  set (st1 := mkSt _ _ _).
  assert (H1 : Forall laneRule (layout st1)).
  { simpl. apply Forall_snoc; [done|]. intros Hm. discriminate. }
  assert (H2 : Forall laneRule (layout (placeOps uuidv4 g sec ops (st1, firstLane g)).1)
               /\ ((placeOps uuidv4 g sec ops (st1, firstLane g)).2 = firstLane g \/
                   (placeOps uuidv4 g sec ops (st1, firstLane g)).2 = secondLane g)).
  { unfold placeOps.
    apply (fold_left_inv
             (fun acc => Forall laneRule (layout acc.1)
                         /\ (acc.2 = firstLane g \/ acc.2 = secondLane g)));
      [by auto|].
    intros [st0 l0] item _ [H0 Hl0]. rewrite placeOp_eq; simpl in *. split.
    - apply Forall_app. split; [done|]. by apply runEntities_laneRule_parts.
    - by apply toggle_pair. }
  destruct H2 as [H2 _].
  apply Forall_app. split; [done|].
  repeat (apply Forall_cons; split; [intros Hm; discriminate|]).
  by apply Forall_nil.
Qed.

Lemma assemblyBranch_laneRule sec ops st :
  sec <> "" ->
  includes (toLowerCase sec) "assembly" = true ->
  Forall laneRule (layout st) ->
  Forall laneRule (layout (assemblyBranch uuidv4 sec ops st)).
Proof.
  intros Hsec Hasm Hst. rewrite assemblyBranch_eq; simpl.
  set (st1 := addBoard uuidv4 _ _ _ _).
  assert (H1 : Forall laneRule (layout st1)).
  { simpl. apply Forall_snoc; [done|]. intros Hm. discriminate. }
  destruct (fold_left (placeMainOp uuidv4 sec) _ _) as [st2 ac] eqn:Hmain.
  assert (H2 : Forall laneRule (layout st2)).
  { change st2 with (st2, ac).1. rewrite <- Hmain.
    apply (fold_left_inv (fun acc => Forall laneRule (layout acc.1))); [done|].
    intros [st0 c0] item Hitem H0. rewrite placeMainOp_eq; simpl in *.
    apply list_elem_of_filter in Hitem as [Hnb _].
    apply Forall_app. split; [done|]. apply Forall_forall.
    intros e (k & Hk & ->)%elem_of_rowEntities _. unfold laneAllowed.
    rewrite machineEntity_section, machineEntity_lane, machineEntity_operation by done.
    rewrite Hasm, isButton_operation.
    split; [|done]. destruct (k mod 3 =? 0), (k mod 3 =? 1); discriminate. }
  destruct (fold_left (placeButtonOp uuidv4 sec) _ _) as [st3 dc] eqn:Hbtn.
  change st3 with (st3, dc).1. rewrite <- Hbtn.
  apply (fold_left_inv (fun acc => Forall laneRule (layout acc.1))); [done|].
  intros [st0 c0] item Hitem H0. rewrite placeButtonOp_eq; simpl in *.
  apply list_elem_of_filter in Hitem as [Hb _].
  apply Forall_app. split; [done|]. apply Forall_forall.
  intros e (k & Hk & ->)%elem_of_runEntities _. unfold laneAllowed.
  rewrite machineEntity_section, machineEntity_lane, machineEntity_operation by done.
  by rewrite Hasm, isButton_operation.
Qed.

Lemma runSections_laneRule balancedOps :
  Forall laneRule (layout (runSections uuidv4 balancedOps)).
Proof.
  unfold runSections.
  pose proof (groupSections_order balancedOps) as Hord.
  destruct (groupSections balancedOps) as [m order]; simpl in *.
  apply (fold_left_inv (fun st => Forall laneRule (layout st))); [by constructor|].
  intros st sec Hsec Hst.
  assert (Hne : sec <> "").
  { rewrite Hord, elem_of_firstSeen in Hsec.
    apply list_elem_of_In, in_map_iff in Hsec as (item & <- & _).
    apply sectionKey_nonempty. }
  destruct (includes (toLowerCase sec) "assembly") eqn:Hasm.
  - rewrite processSection_assembly by done. by apply assemblyBranch_laneRule.
  - rewrite processSection_parts by done. by apply partsBranch_laneRule.
Qed.

End LaneRule.

(** X6: the label of its section decides where a machine may stand.  In a
    section whose label mentions "assembly" (in any case) lane D holds
    exactly the machines of buttoning operations; in any other section
    the machines stay in lanes C and D when the label mentions "collar" or
    "front" and in lanes A and B otherwise. *)
Theorem X6_lanes_by_label uuid (ops : list Operation.t) (D W : Q)
    (l : list MachinePosition.t) (e : MachinePosition.t) :
  generateLayout uuid ops D W = Ok l ->
  e ∈ l ->
  isMachine e = true ->
  laneAllowed e.
Proof.
  unfold generateLayout.
  destruct (calculateMachineRequirements ops D W) as [balanced|]; [|done].
  intros [= <-] He Hm.
  pose proof (runSections_laneRule uuid balanced) as Hall.
  rewrite Forall_forall in Hall. by apply Hall.
Qed.

(** ** How far a section moves the cursors *)

Lemma cursors_ext c c' :
  (forall l, LaneCursors.get c l = LaneCursors.get c' l) -> c = c'.
Proof.
  intros H. destruct c, c'.
  pose proof (H Lane.A). pose proof (H Lane.B).
  pose proof (H Lane.C). pose proof (H Lane.D). simpl in *. congruence.
Qed.

Lemma toggle_ne g lane :
  lane = firstLane g \/ lane = secondLane g -> toggle g lane <> lane.
Proof. destruct g; intros [-> | ->]; discriminate. Qed.

Section CursorForms.

Variable uuidv4 : nat -> string.

Lemma placeOps_cursor_form g sec ops : forall st lane,
  lane = firstLane g \/ lane = secondLane g ->
  let c' := cursors (placeOps uuidv4 g sec ops (st, lane)).1 in
  LaneCursors.get c' lane
  = LaneCursors.get (cursors st) lane + 20 * (laneLoads ops).1 /\
  LaneCursors.get c' (toggle g lane)
  = LaneCursors.get (cursors st) (toggle g lane) + 20 * (laneLoads ops).2 /\
  (forall l, l <> lane -> l <> toggle g lane ->
     LaneCursors.get c' l = LaneCursors.get (cursors st) l).
Proof.
  induction ops as [|b ops IH]; intros st lane Hlane.
  - simpl. repeat split; lia.
  - unfold placeOps in *. cbn [fold_left laneLoads]. rewrite placeOp_eq.
    destruct (toggle_pair g lane Hlane) as [Hpair Hback].
    pose proof (toggle_ne g lane Hlane) as Hne.
    specialize (IH (mkSt (layout st ++ runEntities uuidv4 (Balanced.operation b) lane None sec
                                         (LaneCursors.get (cursors st) lane) (draws st)
                                         (Balanced.count b))
                         (LaneCursors.set (cursors st) lane
                            (LaneCursors.get (cursors st) lane
                             + Z.max 0 (Balanced.count b) * MACHINE_SPACING_X))
                         (draws st + Z.to_nat (Balanced.count b))%nat)
                   (toggle g lane) Hpair).
    simpl in IH. destruct IH as (IH1 & IH2 & IH3).
    rewrite Hback in IH2.
    rewrite get_set_ne in IH1 by done. rewrite get_set_eq in IH2.
    destruct (laneLoads ops) as [f s]. simpl in *.
    unfold MACHINE_SPACING_X in *.
    split; [lia|]. split; [lia|].
    intros l Hl1 Hl2. rewrite IH3 by congruence. by rewrite get_set_ne.
Qed.

Lemma mainOps_cursor_form sec ops : forall st c,
  (fold_left (placeMainOp uuidv4 sec) ops (st, c)).2 = c + 20 * mainRows ops.
Proof.
  induction ops as [|b ops IH]; intros st c; [simpl; lia|].
  cbn [fold_left mainRows foldr]. rewrite placeMainOp_eq, IH.
  unfold MACHINE_SPACING_X. fold (mainRows ops). lia.
Qed.

Lemma buttonOps_cursor_form sec ops : forall st c,
  (fold_left (placeButtonOp uuidv4 sec) ops (st, c)).2 = c + 20 * buttonSlots ops.
Proof.
  induction ops as [|b ops IH]; intros st c; [simpl; lia|].
  cbn [fold_left buttonSlots foldr]. rewrite placeButtonOp_eq, IH.
  unfold MACHINE_SPACING_X. fold (buttonSlots ops). lia.
Qed.

End CursorForms.

(** X7: a parts-preparation section moves both cursors of its pair to
    7.0 + 2.0 * n beyond the further of the two, where n is the number of
    machines in the fuller of its two lanes; the cursors of the other pair
    are not touched. *)
Theorem X7_parts_section_length uuid (sec secLower : string)
    (ops : list Balanced.t) (st : St) :
  let g := targetGroupOf secLower in
  cursors (partsBranch uuid sec secLower ops st)
  = setPair g (cursors st)
      (maxPair g (cursors st) + 70
       + 20 * Z.max (laneLoads ops).1 (laneLoads ops).2).
Proof.
  intros g. rewrite partsBranch_eq. fold g. simpl.
  set (start := maxPair g (cursors st) + SECTION_GAP_X).
  set (st1 := mkSt _ _ _).
  destruct (placeOps_cursor_form uuid g sec ops st1 (firstLane g))
    as (Hf & Hs & Ho); [by left|].
  set (c2 := cursors (placeOps uuid g sec ops (st1, firstLane g)).1) in *.
  assert (Ht : toggle g (firstLane g) = secondLane g) by (by destruct g).
  rewrite Ht in *.
  apply cursors_ext. intros l.
  unfold start, SECTION_GAP_X, BOARD_GAP in *.
  destruct g, l; simpl in *; try lia.
  - by apply (Ho Lane.C).
  - by apply (Ho Lane.D).
  - by apply (Ho Lane.A).
  - by apply (Ho Lane.B).
Qed.

(** X8: an assembly section leaves all four cursors at the same offset:
    its start (2.0 beyond the furthest cursor) plus 2.0 times the larger of
    the number of rows of three its main operations fill and the number of
    places its buttoning operations take in lane D. *)
Theorem X8_assembly_section_length uuid (sec : string)
    (ops : list Balanced.t) (st : St) :
  cursors (assemblyBranch uuid sec ops st)
  = setAll (assemblyStart (cursors st)
            + 20 * Z.max (mainRows (filter (fun i => isButton i <> true) ops))
                         (buttonSlots (filter (fun i => isButton i = true) ops))).
Proof.
  rewrite assemblyBranch_eq; simpl.
  set (st1 := addBoard uuid _ _ _ _).
  pose proof (mainOps_cursor_form uuid sec
                (filter (fun i => isButton i <> true) ops) st1
                (assemblyStart (cursors st))) as Hmain.
  destruct (fold_left (placeMainOp uuid sec) _ _) as [st2 ac].
  pose proof (buttonOps_cursor_form uuid sec
                (filter (fun i => isButton i = true) ops) st2
                (assemblyStart (cursors st))) as Hbtn.
  destruct (fold_left (placeButtonOp uuid sec) _ _) as [st3 dc].
  simpl in *. subst ac dc. f_equal. lia.
Qed.


(** ** Fixtures separate the sections *)

Lemma machineEntity_flags op lane x k r s u :
  MachinePosition.isInspection (machineEntity op lane x k r s u) = false /\
  MachinePosition.isTrolley (machineEntity op lane x k r s u) = false.
Proof. by destruct lane. Qed.

Lemma separated_app_beyond l pre c :
  separated l ->
  trolleysBehind l c ->
  Forall (beyond c) pre ->
  separated (l ++ pre).
Proof.
  intros Hsep Htr Hpre i j e f Hi Hj Hm Hpair.
  rewrite Forall_forall in Hpre.
  apply lookup_app_Some in Hj as [Hj|[Hlj Hj]].
  - apply lookup_app_Some in Hi as [Hi|[Hli Hi]].
    + by apply (Hsep i j e f).
    + pose proof (lookup_lt_Some _ _ _ Hj) as Hjl.
      split; [intros _ Hlt; lia|]. intros Hf _.
      destruct (Hpre e) as (_ & _ & Hx); [by eapply list_elem_of_lookup_2|].
      specialize (Hx Hm).
      pose proof (Htr f (list_elem_of_lookup_2 _ _ _ Hj) Hf
                      (MachinePosition.lane e) Hpair) as Hb.
      unfold SECTION_GAP_X in Hx. lia.
  - destruct (Hpre f) as (Hni & Hnt & _); [by eapply list_elem_of_lookup_2|].
    split; intros Hf; congruence.
Qed.

Lemma separated_app_fixtures l sec inspectX z g :
  separated l ->
  (forall e, e ∈ l -> isMachine e = true ->
     pairOf (MachinePosition.lane e) = g ->
     Vec3.x (MachinePosition.position e) + 10 < inspectX) ->
  separated (l ++ [inspectionEntity sec inspectX z (firstLane g);
                   trolleyEntity sec inspectX z (firstLane g) g]).
Proof.
  intros Hsep Hbefore i j e f Hi Hj Hm Hpair.
  assert (Hil : l !! i = Some e).
  { apply lookup_app_Some in Hi as [Hi|[_ Hi]]; [done|].
    destruct (i - length l)%nat as [|[|n]]; simpl in Hi; [| |done].
    - injection Hi as <-. discriminate.
    - injection Hi as <-. discriminate. }
  pose proof (lookup_lt_Some _ _ _ Hil) as Hlt.
  apply lookup_app_Some in Hj as [Hj|[Hlj Hj]]; [by apply (Hsep i j e f)|].
  destruct (j - length l)%nat as [|[|n]]; simpl in Hj; [| |done].
  - injection Hj as <-. simpl in *. split; [|discriminate].
    intros _ _. apply Hbefore; [by eapply list_elem_of_lookup_2|done|].
    rewrite Hpair. by destruct g.
  - injection Hj as <-. simpl. split; [discriminate|]. intros _ Hji. lia.
Qed.

Lemma pairOf_lanes g lane :
  pairOf lane = g -> lane = firstLane g \/ lane = secondLane g.
Proof. destruct lane, g; simpl; intros; (done || auto). Qed.

Lemma get_le_maxPair g c lane :
  pairOf lane = g -> LaneCursors.get c lane <= maxPair g c.
Proof. destruct lane, g; simpl; intros; (done || lia). Qed.

Lemma get_setPair_in g c v lane :
  pairOf lane = g -> LaneCursors.get (setPair g c v) lane = v.
Proof. destruct lane, g; simpl; intros; done. Qed.

Lemma trolleysBehind_mono l c c' :
  trolleysBehind l c -> cursors_le c c' -> trolleysBehind l c'.
Proof.
  intros Htr Hle f Hf Ht lane Hpair.
  specialize (Htr f Hf Ht lane Hpair). specialize (Hle lane). lia.
Qed.

Lemma trolleysBehind_app_beyond l pre c c0 :
  trolleysBehind l c -> Forall (beyond c0) pre -> trolleysBehind (l ++ pre) c.
Proof.
  intros Htr Hpre f [Hf|Hf]%elem_of_app Ht; [by apply Htr|].
  rewrite Forall_forall in Hpre. destruct (Hpre f Hf) as (_ & Hnt & _). congruence.
Qed.


Lemma beyond_run uuidv4 c op lane r sec x d0 count :
  LaneCursors.get c lane + SECTION_GAP_X <= x ->
  Forall (beyond c) (runEntities uuidv4 op lane r sec x d0 count).
Proof.
  intros Hx. apply Forall_forall. intros e (k & Hk & ->)%elem_of_runEntities.
  destruct (machineEntity_flags op lane (x + k * MACHINE_SPACING_X) k r (Some sec)
              (uuidv4 (d0 + Z.to_nat k)%nat)) as [Hi Ht].
  split; [done|]. split; [done|]. intros _.
  rewrite machineEntity_lane, machineEntity_x.
  unfold MACHINE_SPACING_X, SECTION_GAP_X in *. lia.
Qed.

Lemma beyond_rows uuidv4 c op sec cursor d0 count :
  (forall lane, LaneCursors.get c lane + SECTION_GAP_X <= cursor) ->
  Forall (beyond c) (rowEntities uuidv4 op sec cursor d0 count).
Proof.
  intros Hx. apply Forall_forall. intros e (k & Hk & ->)%elem_of_rowEntities.
  match goal with |- beyond _ (machineEntity ?o ?l ?x ?k ?r ?s ?u) =>
    destruct (machineEntity_flags o l x k r s u) as [Hi Ht];
    specialize (Hx l) end.
  split; [done|]. split; [done|]. intros _.
  rewrite machineEntity_lane, machineEntity_x.
  unfold MACHINE_SPACING_X, SECTION_GAP_X in *. clear Hi Ht.
  set (v := LaneCursors.get c _) in *. clearbody v.
  assert (0 <= k / 3) by (apply Z.div_pos; lia). lia.
Qed.

Section Orderly.

Variable uuidv4 : nat -> string.

Lemma partsBranch_orderly sec secLower ops st :
  orderly st -> orderly (partsBranch uuidv4 sec secLower ops st).
Proof.
  intros (Hpacked & Htr & Hsep).
  pose proof (partsBranch_packed uuidv4 sec secLower ops st Hpacked) as Hpacked'.
  pose proof (partsBranch_cursors_le uuidv4 sec secLower ops st) as Hle'.
  rewrite partsBranch_eq in *. simpl in Hpacked', Hle'. simpl.
  set (g := targetGroupOf secLower) in *.
  set (start := maxPair g (cursors st) + SECTION_GAP_X) in *.
  set (st1 := mkSt _ _ _) in *.
  assert (Hc1 : forall lane, lane = firstLane g \/ lane = secondLane g ->
                  LaneCursors.get (cursors st) lane + SECTION_GAP_X
                  <= LaneCursors.get (cursors st1) lane).
  { intros lane Hlane. unfold st1, start, SECTION_GAP_X, BOARD_GAP. simpl.
    destruct g, Hlane as [-> | ->]; simpl; lia. }
  assert (Hp1 : packed (layout st1) (cursors st1)).
  { simpl. apply packed_push; [done|]. eapply packed_mono; [done|].
    eapply cursors_le_trans; [|apply cursors_le_addPair; by unfold BOARD_GAP].
    apply cursors_le_setPair. unfold start, SECTION_GAP_X. lia. }
  pose proof (placeOps_packed uuidv4 g sec ops st1 (firstLane g) Hp1) as Hp2.
  assert (Hpre : (exists pre,
                     layout (placeOps uuidv4 g sec ops (st1, firstLane g)).1
                     = layout st ++ pre /\ Forall (beyond (cursors st)) pre)).
  { cut ((exists pre,
            layout (placeOps uuidv4 g sec ops (st1, firstLane g)).1
            = layout st ++ pre /\ Forall (beyond (cursors st)) pre)
         /\ cursors_le (cursors st1)
                       (cursors (placeOps uuidv4 g sec ops (st1, firstLane g)).1)
         /\ ((placeOps uuidv4 g sec ops (st1, firstLane g)).2 = firstLane g \/
             (placeOps uuidv4 g sec ops (st1, firstLane g)).2 = secondLane g));
      [tauto|].
    unfold placeOps.
    apply (fold_left_inv
             (fun acc =>
                (exists pre, layout acc.1 = layout st ++ pre
                             /\ Forall (beyond (cursors st)) pre)
                /\ cursors_le (cursors st1) (cursors acc.1)
                /\ (acc.2 = firstLane g \/ acc.2 = secondLane g))).
    - split; [|split; [apply cursors_le_refl|by left]].
      eexists. split; [reflexivity|].
      apply Forall_singleton. repeat split; done.
    - intros [st0 l0] item _ ((pre & Hl & Hb) & Hle & Hl0).
      rewrite placeOp_eq; simpl in *. split; [|split].
      + exists (pre ++ runEntities uuidv4 (Balanced.operation item) l0 None sec
                         (LaneCursors.get (cursors st0) l0) (draws st0)
                         (Balanced.count item)).
        split; [by rewrite Hl, app_assoc|].
        apply Forall_app. split; [done|]. apply beyond_run.
        specialize (Hc1 l0 Hl0). specialize (Hle l0). lia.
      + eapply cursors_le_trans; [exact Hle|]. apply cursors_le_set.
        unfold MACHINE_SPACING_X. lia.
      + by apply toggle_pair. }
  destruct Hpre as (pre & Hl2 & Hb2).
  set (st2 := (placeOps uuidv4 g sec ops (st1, firstLane g)).1) in *.
  split; [exact Hpacked'|]. split.
  - intros f [Hf|Hf]%elem_of_app Ht lane Hpair.
    + rewrite Hl2 in Hf.
      pose proof (trolleysBehind_app_beyond _ _ _ _ Htr Hb2 f Hf Ht lane Hpair) as Hb.
      etransitivity; [exact Hb|]. apply Z.add_le_mono_r. exact (Hle' lane).
    + apply elem_of_cons in Hf as [->|Hf]; [discriminate|].
      apply list_elem_of_singleton in Hf as ->. simpl in *.
      rewrite get_setPair_in by (rewrite Hpair; by destruct g). lia.
  - apply separated_app_fixtures.
    + rewrite Hl2. by eapply separated_app_beyond.
    + intros e He Hm Hpair. destruct Hp2 as [_ Hlt].
      specialize (Hlt e He Hm).
      pose proof (get_le_maxPair g (cursors st2) _ Hpair). lia.
Qed.

Lemma assemblyBranch_orderly sec ops st :
  (forall item, item ∈ ops -> 0 <= Balanced.count item) ->
  orderly st -> orderly (assemblyBranch uuidv4 sec ops st).
Proof.
  intros Hcount (Hpacked & Htr & Hsep).
  pose proof (assemblyBranch_packed uuidv4 sec ops st Hcount Hpacked) as Hpacked'.
  pose proof (assemblyBranch_cursors_le uuidv4 sec ops st) as Hle'.
  assert (Hpre : exists pre,
             layout (assemblyBranch uuidv4 sec ops st) = layout st ++ pre
             /\ Forall (beyond (cursors st)) pre).
  { rewrite assemblyBranch_eq; simpl.
    set (startX := assemblyStart (cursors st)).
    set (st1 := addBoard uuidv4 _ _ _ _).
    assert (Hstart : forall c, startX <= c ->
                       forall lane, LaneCursors.get (cursors st) lane + SECTION_GAP_X <= c).
    { intros c Hc lane. unfold startX, assemblyStart, max4 in Hc.
      destruct lane; simpl; lia. }
    set (P := fun acc : St * Z =>
                (exists pre, layout acc.1 = layout st ++ pre
                             /\ Forall (beyond (cursors st)) pre)
                /\ startX <= acc.2).
    assert (H1 : P (st1, startX)).
    { split; [|simpl; lia]. eexists. split; [reflexivity|].
      apply Forall_singleton. repeat split; done. }
    assert (H2 : P (fold_left (placeMainOp uuidv4 sec)
                              (filter (fun i => isButton i <> true) ops) (st1, startX))).
    { apply (fold_left_inv P); [done|].
      intros [st0 c0] item Hitem ((pre & Hl & Hb) & Hc0).
      apply list_elem_of_filter in Hitem as [_ Hitem]. specialize (Hcount _ Hitem).
      rewrite placeMainOp_eq. split; simpl in *.
      - eexists. split; [by rewrite Hl, <- app_assoc|].
        apply Forall_app. split; [done|]. apply beyond_rows. by apply Hstart.
      - unfold ceilDiv, MACHINE_SPACING_X. Z.div_mod_to_equations. lia. }
    destruct (fold_left (placeMainOp uuidv4 sec) _ _) as [st2 ac].
    destruct H2 as [H2 _].
    assert (H3 : P (fold_left (placeButtonOp uuidv4 sec)
                              (filter (fun i => isButton i = true) ops) (st2, startX))).
    { apply (fold_left_inv P); [split; [done|simpl; lia]|].
      intros [st0 c0] item _ ((pre & Hl & Hb) & Hc0).
      rewrite placeButtonOp_eq. split; simpl in *.
      - eexists. split; [by rewrite Hl, <- app_assoc|].
        apply Forall_app. split; [done|]. apply beyond_run.
        by apply Hstart.
      - unfold MACHINE_SPACING_X. lia. }
    destruct (fold_left (placeButtonOp uuidv4 sec) _ _) as [st3 dc].
    destruct H3 as [H3 _]. exact H3. }
  destruct Hpre as (pre & Hl & Hb).
  split; [done|]. split.
  - rewrite Hl. eapply trolleysBehind_mono; [|exact Hle'].
    by eapply trolleysBehind_app_beyond.
  - rewrite Hl. by eapply separated_app_beyond.
Qed.

Lemma runSections_orderly balancedOps :
  (forall item, item ∈ balancedOps -> 0 <= Balanced.count item) ->
  orderly (runSections uuidv4 balancedOps).
Proof.
  intros Hcount. unfold runSections.
  pose proof (groupSections_bucket balancedOps) as Hbucket.
  destruct (groupSections balancedOps) as [m order]; simpl in *.
  apply (fold_left_inv orderly).
  - split; [|split].
    + split; [constructor|]. intros e He. by apply elem_of_nil in He.
    + intros f Hf. by apply elem_of_nil in Hf.
    + intros i j e f Hi. done.
  - intros st sec Hsec Hst. unfold processSection. destruct (includes _ _).
    + apply assemblyBranch_orderly; [|done].
      intros item Hitem. rewrite Hbucket in Hitem by done.
      apply list_elem_of_filter in Hitem. apply Hcount. tauto.
    + by apply partsBranch_orderly.
Qed.

End Orderly.

(** X9: the fixtures keep the sections apart.  Reading the layout in
    order, a machine listed before an inspection table of its own pair of
    lanes stands more than 1.0 before the table, and a machine listed after
    a trolley of its own pair stands at least 1.0 beyond the trolley. *)
Theorem X9_fixtures_separate_sections uuid (ops : list Operation.t) (D W : Q)
    (l : list MachinePosition.t) :
  generateLayout uuid ops D W = Ok l -> separated l.
Proof.
  unfold generateLayout.
  destruct (calculateMachineRequirements ops D W) as [balanced|] eqn:Hcalc; [|done].
  intros [= <-]. apply runSections_orderly.
  intros item Hitem. pose proof (planned_counts _ _ _ _ Hcalc item Hitem). lia.
Qed.

(** * Properties of the line store *)

Lemma findIndexFrom_range {T} (p : T -> bool) (l : list T) : forall i,
  findIndexFrom p l i = -1 \/
  i <= findIndexFrom p l i < i + Z.of_nat (length l).
Proof.
  induction l as [|a l IH]; intros i; simpl; [by left|].
  destruct (p a); [right; lia|].
  destruct (IH (i + 1)) as [->|H]; [by left|right; lia].
Qed.

Lemma findIndexFrom_None {T} (p : T -> bool) (l : list T) : forall i,
  0 <= i ->
  (findIndexFrom p l i = -1 <-> List.find p l = None).
Proof.
  induction l as [|a l IH]; intros i Hi; simpl; [done|].
  destruct (p a).
  - split; [lia|done].
  - apply IH. lia.
Qed.

Lemma find_insert_first {T} (p : T -> bool) (l : list T) (x : T) : forall i,
  0 <= i ->
  p x = true ->
  0 <= findIndexFrom p l i ->
  List.find p (<[Z.to_nat (findIndexFrom p l i - i) := x]> l) = Some x.
Proof.
  induction l as [|a l IH]; intros i Hi Hx Hfound; simpl in *; [lia|].
  destruct (p a) eqn:Ha.
  - rewrite Z.sub_diag. simpl. by rewrite Hx.
  - destruct (findIndexFrom_range p l (i + 1)) as [Hn|Hr]; [lia|].
    replace (Z.to_nat (findIndexFrom p l (i + 1) - i))
      with (S (Z.to_nat (findIndexFrom p l (i + 1) - (i + 1)))) by lia.
    simpl. rewrite Ha. apply IH; [lia|done|lia].
Qed.

Lemma find_insert_other {T} (p : T -> bool) (l : list T) (x : T) (n : nat) :
  p x = false ->
  (forall y, l !! n = Some y -> p y = false) ->
  List.find p (<[n := x]> l) = List.find p l.
Proof.
  revert n. induction l as [|a l IH]; intros n Hx Hy; [done|].
  destruct n as [|n]; simpl.
  - rewrite Hx. by rewrite (Hy a).
  - destruct (p a); [done|]. by apply IH.
Qed.

Lemma find_snoc {T} (p : T -> bool) (l : list T) (x : T) :
  List.find p (l ++ [x])
  = match List.find p l with
    | Some a => Some a
    | None => if p x then Some x else None
    end.
Proof.
  induction l as [|a l IH]; simpl; [done|]. by destruct (p a).
Qed.

Lemma findIndexFrom_lookup {T} (p : T -> bool) (l : list T) : forall i,
  0 <= findIndexFrom p l i ->
  0 <= i ->
  exists y, l !! Z.to_nat (findIndexFrom p l i - i) = Some y /\ p y = true.
Proof.
  induction l as [|a l IH]; intros i Hf Hi; simpl in *; [lia|].
  destruct (p a) eqn:Ha.
  - rewrite Z.sub_diag. by exists a.
  - destruct (findIndexFrom_range p l (i + 1)) as [Hn|Hr]; [lia|].
    replace (Z.to_nat (findIndexFrom p l (i + 1) - i))
      with (S (Z.to_nat (findIndexFrom p l (i + 1) - (i + 1)))) by lia.
    simpl. apply IH; lia.
Qed.

Lemma hasId_eq id l : LineStore.hasId id l = true <-> Types.LineData.id l = id.
Proof. unfold LineStore.hasId. apply String.eqb_eq. Qed.

Lemma hasId_neq id l : LineStore.hasId id l = false <-> Types.LineData.id l <> id.
Proof. unfold LineStore.hasId. apply String.eqb_neq. Qed.

Lemma find_hasId_None id (l : list Types.LineData.t) :
  List.find (LineStore.hasId id) l = None <-> id ∉ map Types.LineData.id l.
Proof.
  induction l as [|a l IH]; simpl.
  - split; [intros _; apply not_elem_of_nil|done].
  - rewrite not_elem_of_cons. destruct (LineStore.hasId id a) eqn:Ha.
    + apply hasId_eq in Ha. split; [done|]. intros [Hne _]. congruence.
    + apply hasId_neq in Ha. rewrite IH. split; [|tauto].
      intros Hn. split; [congruence|done].
Qed.

Lemma find_saveLine (now : string) (st : LineStore.t) (line : Types.LineData.t) :
  List.find (LineStore.hasId (Types.LineData.id line))
            (LineStore.savedLines (LineStore.saveLine now st line))
  = Some (LineStore.withUpdatedAt line now).
Proof.
  unfold LineStore.saveLine. cbn [LineStore.savedLines].
  set (p := LineStore.hasId (Types.LineData.id line)).
  assert (Hp : p (LineStore.withUpdatedAt line now) = true) by (by apply hasId_eq).
  destruct (Z.leb_spec 0 (findIndex p (LineStore.savedLines st))) as [Hge|Hlt].
  - unfold findIndex in *.
    pose proof (find_insert_first p (LineStore.savedLines st)
                  (LineStore.withUpdatedAt line now) 0) as H.
    rewrite Z.sub_0_r in H. apply H; done.
  - rewrite find_snoc, Hp.
    destruct (findIndexFrom_range p (LineStore.savedLines st) 0) as [Hn|Hr];
      [|unfold findIndex in Hlt; lia].
    apply findIndexFrom_None in Hn; [|done]. by rewrite Hn.
Qed.

(** X10: saving a line and then loading it by its id makes it the current
    line again: the store then shows the saved line (stamped with the time of
    saving), its operations and its layout, and no selected machine;
    whatever was saved under that id before is replaced. *)
Theorem X10_save_then_load (now : string) (st : LineStore.t)
    (line : Types.LineData.t) :
  let st' := LineStore.loadLine (LineStore.saveLine now st line)
                                (Types.LineData.id line) in
  LineStore.currentLine st' = Some (LineStore.withUpdatedAt line now) /\
  LineStore.operations st' = Types.LineData.operations line /\
  LineStore.machineLayout st' = Types.LineData.machineLayout line /\
  LineStore.selectedMachine st' = None /\
  LineStore.savedLines st' = LineStore.savedLines (LineStore.saveLine now st line).
Proof.
  intros st'. unfold st', LineStore.loadLine.
  rewrite find_saveLine.
  cbn [LineStore.currentLine LineStore.operations LineStore.machineLayout
       LineStore.selectedMachine LineStore.savedLines].
  by repeat split.
Qed.

Lemma saveLine_saved (now : string) (st : LineStore.t) (line : Types.LineData.t) :
  let p := LineStore.hasId (Types.LineData.id line) in
  let upd := LineStore.withUpdatedAt line now in
  (List.find p (LineStore.savedLines st) = None /\
   LineStore.savedLines (LineStore.saveLine now st line)
   = LineStore.savedLines st ++ [upd]) \/
  (exists n old,
     LineStore.savedLines st !! n = Some old /\
     Types.LineData.id old = Types.LineData.id line /\
     LineStore.savedLines (LineStore.saveLine now st line)
     = <[n := upd]> (LineStore.savedLines st)).
Proof.
  intros p upd. unfold LineStore.saveLine. simpl. fold p. fold upd.
  destruct (Z.leb_spec 0 (findIndex p (LineStore.savedLines st))) as [Hge|Hlt].
  - right. unfold findIndex in *.
    destruct (findIndexFrom_lookup p (LineStore.savedLines st) 0 Hge) as (old & Hold & Hp);
      [done|].
    rewrite Z.sub_0_r in Hold.
    exists (Z.to_nat (findIndexFrom p (LineStore.savedLines st) 0)), old.
    split; [exact Hold|].
    split; [by apply hasId_eq|done].
  - left. split; [|done].
    destruct (findIndexFrom_range p (LineStore.savedLines st) 0) as [Hn|Hr];
      [|unfold findIndex in Hlt; lia].
    by apply findIndexFrom_None in Hn.
Qed.

(** X11: saving a line touches only what is stored under its own id: a line
    stored under any other id is found unchanged; the list of saved ids stays
    the same when the id was already saved and grows by this id, at the end,
    when it was not; so saved ids that were pairwise distinct stay so. *)
Theorem X11_save_touches_one_id (now : string) (st : LineStore.t)
    (line : Types.LineData.t) :
  let st' := LineStore.saveLine now st line in
  (forall id, id <> Types.LineData.id line ->
     List.find (LineStore.hasId id) (LineStore.savedLines st')
     = List.find (LineStore.hasId id) (LineStore.savedLines st)) /\
  LineStore.savedIds st'
  = (if decide (Types.LineData.id line ∈ LineStore.savedIds st)
     then LineStore.savedIds st
     else LineStore.savedIds st ++ [Types.LineData.id line]) /\
  (NoDup (LineStore.savedIds st) -> NoDup (LineStore.savedIds st')) /\
  LineStore.currentLine st' = LineStore.currentLine st /\
  LineStore.operations st' = LineStore.operations st /\
  LineStore.machineLayout st' = LineStore.machineLayout st.
Proof.
  intros st'.
  assert (Hids : LineStore.savedIds st'
                 = (if decide (Types.LineData.id line ∈ LineStore.savedIds st)
                    then LineStore.savedIds st
                    else LineStore.savedIds st ++ [Types.LineData.id line])).
  { unfold LineStore.savedIds, st'.
    destruct (saveLine_saved now st line) as [[Hnone ->]|(n & old & Hn & Hid & ->)].
    - apply find_hasId_None in Hnone. rewrite decide_False by done.
      by rewrite map_app.
    - rewrite decide_True.
      + change (map ?f ?l) with (f <$> l). rewrite list_fmap_insert. simpl.
        apply list_insert_id. rewrite list_lookup_fmap, Hn. simpl. by rewrite Hid.
      + rewrite <- Hid. apply list_elem_of_In, in_map, list_elem_of_In.
        by eapply list_elem_of_lookup_2. }
  split; [|split; [exact Hids|split; [|done]]].
  - intros id Hid. unfold st'.
    destruct (saveLine_saved now st line) as [[Hnone ->]|(n & old & Hn & Hold & ->)].
    + rewrite find_snoc.
      assert (Hf : LineStore.hasId id (LineStore.withUpdatedAt line now) = false)
        by (apply hasId_neq; simpl; congruence).
      rewrite Hf.
      by destruct (List.find (LineStore.hasId id) (LineStore.savedLines st)).
    + apply find_insert_other.
      * apply hasId_neq. simpl. congruence.
      * intros y Hy. rewrite Hn in Hy. injection Hy as <-.
        apply hasId_neq. congruence.
  - intros Hnd. rewrite Hids. case_decide; [done|].
    apply NoDup_app. split; [done|]. split; [|apply NoDup_singleton].
    intros x Hx ->%list_elem_of_singleton. done.
Qed.

Lemma find_filter_other (id id' : string) (l : list Types.LineData.t) :
  id' <> id ->
  List.find (LineStore.hasId id')
            (List.filter (fun x => negb (LineStore.hasId id x)) l)
  = List.find (LineStore.hasId id') l.
Proof.
  intros Hne. induction l as [|a l IH]; [done|]. simpl.
  destruct (LineStore.hasId id a) eqn:Ha; simpl.
  - apply hasId_eq in Ha.
    assert (Hf : LineStore.hasId id' a = false) by (apply hasId_neq; congruence).
    by rewrite Hf.
  - destruct (LineStore.hasId id' a); [done|exact IH].
Qed.

Lemma find_filter_same (id : string) (l : list Types.LineData.t) :
  List.find (LineStore.hasId id)
            (List.filter (fun x => negb (LineStore.hasId id x)) l) = None.
Proof.
  induction l as [|a l IH]; [done|]. simpl.
  destruct (LineStore.hasId id a) eqn:Ha; simpl; [done|]. by rewrite Ha.
Qed.

(** X12: deleting an id removes every line saved under it and nothing
    else: afterwards no line is found under that id, lines under other ids
    are found as before, the current line is dropped exactly when it had
    that id, and loading the deleted id changes nothing. *)
Theorem X12_delete (st : LineStore.t) (id : string) :
  let st' := LineStore.deleteLine st id in
  List.find (LineStore.hasId id) (LineStore.savedLines st') = None /\
  (id ∉ LineStore.savedIds st') /\
  (forall id', id' <> id ->
     List.find (LineStore.hasId id') (LineStore.savedLines st')
     = List.find (LineStore.hasId id') (LineStore.savedLines st)) /\
  (forall cur, LineStore.currentLine st = Some cur ->
     LineStore.currentLine st'
     = if decide (Types.LineData.id cur = id) then None else Some cur) /\
  (LineStore.currentLine st = None -> LineStore.currentLine st' = None) /\
  LineStore.loadLine st' id = st'.
Proof.
  intros st'. unfold st', LineStore.deleteLine. simpl.
  pose proof (find_filter_same id (LineStore.savedLines st)) as Hnone.
  split; [done|]. split; [by apply find_hasId_None|].
  split; [intros id' Hne; by apply find_filter_other|].
  split.
  - intros cur ->. destruct (String.eqb_spec (Types.LineData.id cur) id).
    + by rewrite decide_True.
    + by rewrite decide_False.
  - split; [by intros ->|].
    unfold LineStore.loadLine. simpl. by rewrite Hnone.
Qed.

Lemma filter_fresh (id : string) (l : list Types.LineData.t) :
  id ∉ map Types.LineData.id l ->
  List.filter (fun x => negb (LineStore.hasId id x)) l = l.
Proof.
  induction l as [|a l IH]; [done|]. simpl. rewrite not_elem_of_cons.
  intros [Hne Hl].
  assert (Hf : LineStore.hasId id a = false) by (apply hasId_neq; congruence).
  rewrite Hf. simpl. by rewrite IH.
Qed.

(** X13: deleting a line right after saving it under an id that was not
    saved before restores the list of saved lines. *)
Theorem X13_delete_undoes_fresh_save (now : string) (st : LineStore.t)
    (line : Types.LineData.t) :
  Types.LineData.id line ∉ LineStore.savedIds st ->
  LineStore.savedLines
    (LineStore.deleteLine (LineStore.saveLine now st line) (Types.LineData.id line))
  = LineStore.savedLines st.
Proof.
  intros Hfresh. unfold LineStore.deleteLine. cbn [LineStore.savedLines].
  destruct (saveLine_saved now st line) as [[Hnone ->]|(n & old & Hn & Hid & _)].
  - rewrite List.filter_app. simpl.
    assert (Hp : LineStore.hasId (Types.LineData.id line)
                   (LineStore.withUpdatedAt line now) = true) by (by apply hasId_eq).
    rewrite Hp. simpl. rewrite app_nil_r. by apply filter_fresh.
  - exfalso. apply Hfresh. rewrite <- Hid.
    apply list_elem_of_In, in_map, list_elem_of_In. by eapply list_elem_of_lookup_2.
Qed.

Lemma allDigits_pretty_N_go (x : N) (s : string) :
  allDigits s = true -> allDigits (pretty_N_go x s) = true.
Proof.
  revert s. induction (N.lt_wf_0 x) as [x _ IH]; intros s Hs.
  assert (Hx : (x = 0 \/ 0 < x)%N) by lia. destruct Hx as [->|Hx].
  - by rewrite pretty_N_go_0.
  - rewrite pretty_N_go_step by done. apply IH.
    + by apply N.div_lt.
    + simpl. rewrite Hs, andb_true_r.
      unfold pretty_N_char. by repeat case_match.
Qed.

Lemma allDigits_pretty_nat (n : nat) : allDigits (pretty n) = true.
Proof.
  unfold pretty, pretty_nat, pretty, pretty_N. case_decide; [done|].
  by apply allDigits_pretty_N_go.
Qed.

Lemma digits_prefix_inj (s t a b : string) :
  allDigits s = true -> allDigits t = true ->
  s +:+ "_" +:+ a = t +:+ "_" +:+ b -> s = t.
Proof.
  revert t. induction s as [|c s IH]; intros [|d t] Hs Ht Heq; simpl in *.
  - done.
  - injection Heq as <- _. by apply andb_true_iff in Ht as [Hd _].
  - injection Heq as -> _. by apply andb_true_iff in Hs as [Hc _].
  - injection Heq as -> Heq.
    apply andb_true_iff in Hs as [_ Hs]. apply andb_true_iff in Ht as [_ Ht].
    f_equal. by apply IH.
Qed.

Lemma machineAt_id_inj (i j : nat) (op1 op2 : Operation.t) :
  Types.MachinePosition.id (LineStore.machineAt i op1)
  = Types.MachinePosition.id (LineStore.machineAt j op2) -> i = j.
Proof.
  unfold LineStore.machineAt. cbn [Types.MachinePosition.id]. intros Heq.
  apply (inj (String.append "machine_")) in Heq.
  apply digits_prefix_inj in Heq; [|apply allDigits_pretty_nat..].
  by apply (inj pretty) in Heq.
Qed.

Lemma machineAt_position_inj (i j : nat) (op1 op2 : Operation.t) :
  Types.MachinePosition.position (LineStore.machineAt i op1)
  = Types.MachinePosition.position (LineStore.machineAt j op2) -> i = j.
Proof.
  unfold LineStore.machineAt, LineStore.MACHINE_SPACING, LineStore.ROW_OFFSET.
  cbn [Types.MachinePosition.position]. intros Heq.
  injection Heq as Hx Hz.
  change (30 / 2) with 15 in Hz.
  apply Nat2Z.inj. Z.div_mod_to_equations. lia.
Qed.

(** X14: the store's own two-row layout keeps the operations in order, one
    machine each, and leaves the layout it returns in the store.  The machine
    of index [i] stands in column [i div 2], 2.5 apart: at z = -1.5 with yaw 0
    for an even index, at z = 1.5 with yaw pi for an odd one, so that the two
    rows face each other. *)
Theorem X14_two_row_layout (st : LineStore.t) (ops : list Operation.t) :
  let res := LineStore.generateMachineLayout st ops in
  map Types.MachinePosition.operation res.1 = ops /\
  LineStore.machineLayout res.2 = res.1 /\
  LineStore.savedLines res.2 = LineStore.savedLines st /\
  (forall (i : nat) e, res.1 !! i = Some e ->
     Vec3.x (Types.MachinePosition.position e) = 25 * Z.of_nat (i / 2) /\
     Vec3.y (Types.MachinePosition.position e) = 0 /\
     Vec3.x (Types.MachinePosition.rotation e) = Zero /\
     Vec3.z (Types.MachinePosition.rotation e) = Zero /\
     (Vec3.z (Types.MachinePosition.position e),
      Vec3.y (Types.MachinePosition.rotation e))
     = if Nat.even i then (-15, Zero) else (15, Pi)).
Proof.
  intros res. unfold res, LineStore.generateMachineLayout. cbn [fst snd].
  split.
  { change (map ?f ?l) with (f <$> l). apply list_eq. intros i.
    rewrite list_lookup_fmap, list_lookup_imap.
    by destruct (ops !! i). }
  split; [done|]. split; [done|].
  intros i e He. rewrite list_lookup_imap in He.
  destruct (ops !! i) as [op|]; [|done]. injection He as <-.
  unfold LineStore.machineAt, LineStore.MACHINE_SPACING, LineStore.ROW_OFFSET.
  cbn [Types.MachinePosition.position Types.MachinePosition.rotation
       Vec3.x Vec3.y Vec3.z].
  split; [rewrite Nat2Z.inj_div; simpl; lia|].
  do 3 (split; [done|]).
  change (30 / 2) with 15.
  destruct (Nat.even i) eqn:Hev.
  - apply Nat.even_spec in Hev as [k ->].
    replace (Z.of_nat (2 * k) mod 2) with 0 by (Z.div_mod_to_equations; lia).
    done.
  - assert (Hodd : Nat.odd i = true) by (by rewrite <- Nat.negb_even, Hev).
    apply Nat.odd_spec in Hodd as [k ->].
    replace (Z.of_nat (2 * k + 1) mod 2) with 1 by (Z.div_mod_to_equations; lia).
    done.
Qed.

(** X15: in the store's two-row layout no two machines share a position, and
    no two share an identifier, whatever the operation numbers are. *)
Theorem X15_two_row_layout_distinct (st : LineStore.t) (ops : list Operation.t) :
  let layout := (LineStore.generateMachineLayout st ops).1 in
  NoDup (map Types.MachinePosition.position layout) /\
  NoDup (map Types.MachinePosition.id layout).
Proof.
  intros layout. unfold layout, LineStore.generateMachineLayout. cbn [fst].
  split; apply NoDup_alt; intros i j x;
    change (map ?f ?l) with (f <$> l);
    rewrite !list_lookup_fmap, !list_lookup_imap;
    destruct (ops !! i) as [op1|]; [|done| |done];
    destruct (ops !! j) as [op2|]; [|done| |done];
    cbn [fmap option_fmap option_map]; intros Hx Hy;
    assert (Heq := eq_trans Hx (eq_sym Hy));
    apply (inj Some) in Heq.
  - by apply machineAt_position_inj in Heq.
  - by apply machineAt_id_inj in Heq.
Qed.

(** ** Substrings *)

Lemma append_cons (c : ascii) (a b : string) :
  String c a +:+ b = String c (a +:+ b).
Proof. done. Qed.

Lemma append_empty (b : string) : "" +:+ b = b.
Proof. done. Qed.

Lemma prefix_iff (a s : string) :
  String.prefix a s = true <-> exists q, s = a +:+ q.
Proof.
  revert s. induction a as [|c a IH]; intros s.
  - split; [by exists s|by destruct s].
  - destruct s as [|d s]; simpl; [split; [done|by intros [q ?]]|].
    destruct (ascii_dec c d) as [->|Hne].
    + rewrite IH. split; intros [q Hq]; exists q; [by rewrite Hq|by injection Hq].
    + split; [done|]. intros [q Hq]. by injection Hq as <- _.
Qed.

Lemma includes_iff (s sub : string) :
  includes s sub = true <-> exists p q, s = p +:+ sub +:+ q.
Proof.
  induction s as [|c s IH].
  - change (includes "" sub) with (String.prefix sub "" || false)%bool.
    rewrite orb_false_r, prefix_iff. split.
    + intros [q Hq]. by exists "", q.
    + intros ([|d p] & q & Hq); [by exists q|done].
  - change (includes (String c s) sub)
      with (String.prefix sub (String c s) || includes s sub)%bool.
    rewrite orb_true_iff, prefix_iff, IH. split.
    + intros [[q Hq]|(p & q & Hq)].
      * by exists "", q.
      * exists (String c p), q. simpl. by rewrite Hq.
    + intros ([|d p] & q & Hq).
      * left. by exists q.
      * right. injection Hq as -> Hq. by exists p, q.
Qed.

Lemma includes_empty (s : string) : includes s "" = true.
Proof. by destruct s. Qed.

Lemma string_app_assoc (a b c : string) : (a +:+ b) +:+ c = a +:+ b +:+ c.
Proof.
  induction a as [|x a IH]; [done|]. by rewrite !append_cons, IH.
Qed.

Lemma includes_app_l (s a b : string) :
  includes s (a +:+ b) = true -> includes s a = true.
Proof.
  rewrite !includes_iff. intros (p & q & ->).
  exists p, (b +:+ q). by rewrite string_app_assoc.
Qed.

Lemma includes_self_app (p sub q : string) : includes (p +:+ sub +:+ q) sub = true.
Proof. apply includes_iff. by exists p, q. Qed.

Lemma noneOf_app (f : ascii -> bool) (a b : string) :
  noneOf f (a +:+ b) = (noneOf f a && noneOf f b)%bool.
Proof.
  induction a as [|c a IH]; simpl; [done|]. by rewrite IH, andb_assoc.
Qed.

Lemma noneOf_includes (f : ascii -> bool) (s sub : string) :
  noneOf f s = true -> noneOf f sub = false -> includes s sub = false.
Proof.
  intros Hs Hsub. destruct (includes s sub) eqn:Hinc; [|done].
  apply includes_iff in Hinc as (p & q & ->).
  rewrite !noneOf_app, Hsub, andb_false_l, andb_false_r in Hs. done.
Qed.

Lemma toLowerCase_app (a b : string) :
  toLowerCase (a +:+ b) = toLowerCase a +:+ toLowerCase b.
Proof. induction a as [|c a IH]; simpl; [done|by rewrite IH]. Qed.

Lemma lowerAscii_not_upper (c : ascii) : isUpper (lowerAscii c) = false.
Proof.
  unfold isUpper, lowerAscii.
  destruct (Nat.leb 65 (nat_of_ascii c) && Nat.leb (nat_of_ascii c) 90)%bool eqn:Hc;
    [|done].
  apply andb_true_iff in Hc as [H1%Nat.leb_le H2%Nat.leb_le].
  rewrite nat_ascii_embedding by lia.
  apply andb_false_iff. right. apply Nat.leb_gt. lia.
Qed.

Lemma lowerAscii_idemp (c : ascii) : lowerAscii (lowerAscii c) = lowerAscii c.
Proof.
  pose proof (lowerAscii_not_upper c) as H. unfold isUpper in H.
  unfold lowerAscii at 1. by rewrite H.
Qed.

Lemma toLowerCase_idemp (s : string) : toLowerCase (toLowerCase s) = toLowerCase s.
Proof.
  induction s as [|c s IH]; simpl; [done|]. by rewrite lowerAscii_idemp, IH.
Qed.

Lemma toLowerCase_no_upper (s : string) : noneOf isUpper (toLowerCase s) = true.
Proof.
  induction s as [|c s IH]; simpl; [done|]. by rewrite lowerAscii_not_upper, IH.
Qed.

Lemma removeAll_app (f : ascii -> bool) (a b : string) :
  removeAll f (a +:+ b) = removeAll f a +:+ removeAll f b.
Proof.
  induction a as [|c a IH]; simpl; [done|]. destruct (f c); simpl; by rewrite IH.
Qed.

Lemma removeAll_noneOf (f : ascii -> bool) (s : string) :
  noneOf f (removeAll f s) = true.
Proof.
  induction s as [|c s IH]; simpl; [done|].
  destruct (f c) eqn:Hc; simpl; [done|]. by rewrite Hc, IH.
Qed.

Lemma removeAll_id (f : ascii -> bool) (s : string) :
  noneOf f s = true -> removeAll f s = s.
Proof.
  induction s as [|c s IH]; simpl; [done|].
  intros [Hc Hs]%andb_true_iff. apply negb_true_iff in Hc. rewrite Hc.
  by rewrite IH.
Qed.

Lemma removeAll_keeps (f g : ascii -> bool) (s : string) :
  noneOf g s = true -> noneOf g (removeAll f s) = true.
Proof.
  induction s as [|c s IH]; simpl; [done|].
  intros [Hc Hs]%andb_true_iff. destruct (f c); simpl; [by apply IH|].
  by rewrite Hc, IH.
Qed.

Lemma noneOf_weaken (f g : ascii -> bool) (s : string) :
  (forall c, g c = true -> f c = true) ->
  noneOf f s = true -> noneOf g s = true.
Proof.
  intros Hfg. induction s as [|c s IH]; simpl; [done|].
  intros [Hc Hs]%andb_true_iff. rewrite IH by done. rewrite andb_true_r.
  apply negb_true_iff in Hc. apply negb_true_iff.
  destruct (g c) eqn:Hg; [|done]. apply Hfg in Hg. congruence.
Qed.

Lemma trim_id (s : string) : noneOf isSpace s = true -> trim s = s.
Proof.
  intros Hs. unfold trim.
  assert (Hstart : trimStart s = s).
  { destruct s as [|c s]; [done|]. simpl in *.
    apply andb_true_iff in Hs as [Hc _]. apply negb_true_iff in Hc. by rewrite Hc. }
  rewrite Hstart. clear Hstart.
  induction s as [|c s IH]; simpl in *; [done|].
  apply andb_true_iff in Hs as [Hc Hs]. apply negb_true_iff in Hc.
  rewrite Hc. simpl. by rewrite IH.
Qed.

Lemma normalizeString_eq (s : string) :
  ObParser.normalizeString s = removeAll ObParser.isSeparator (toLowerCase s).
Proof.
  unfold ObParser.normalizeString. destruct (String.eqb_spec s "") as [->|_]; [done|].
  apply trim_id. eapply noneOf_weaken; [|apply removeAll_noneOf].
  intros c Hc. unfold ObParser.isSeparator. by rewrite Hc.
Qed.

Lemma toLowerCase_id (s : string) : noneOf isUpper s = true -> toLowerCase s = s.
Proof.
  induction s as [|c s IH]; simpl; [done|].
  intros [Hc Hs]%andb_true_iff. apply negb_true_iff in Hc.
  unfold isUpper in Hc. unfold lowerAscii. by rewrite Hc, IH.
Qed.

Lemma normalizeString_app (a b : string) :
  ObParser.normalizeString (a +:+ b)
  = ObParser.normalizeString a +:+ ObParser.normalizeString b.
Proof. by rewrite !normalizeString_eq, toLowerCase_app, removeAll_app. Qed.

Lemma normalizeString_clean (s : string) :
  noneOf ObParser.isSeparator (ObParser.normalizeString s) = true /\
  noneOf isUpper (ObParser.normalizeString s) = true.
Proof.
  rewrite normalizeString_eq. split; [apply removeAll_noneOf|].
  apply removeAll_keeps, toLowerCase_no_upper.
Qed.

Lemma normalizeString_fixed (s : string) :
  noneOf ObParser.isSeparator s = true -> noneOf isUpper s = true ->
  ObParser.normalizeString s = s.
Proof.
  intros Hsep Hup. by rewrite normalizeString_eq, toLowerCase_id, removeAll_id.
Qed.

Lemma lowerAscii_ascii (c : ascii) :
  Nat.ltb (nat_of_ascii c) 128 = true ->
  Nat.ltb (nat_of_ascii (lowerAscii c)) 128 = true.
Proof.
  intros Hc. unfold lowerAscii.
  destruct (Nat.leb 65 (nat_of_ascii c) && Nat.leb (nat_of_ascii c) 90)%bool eqn:Hu;
    [|done].
  apply andb_true_iff in Hu as [H1%Nat.leb_le H2%Nat.leb_le].
  rewrite nat_ascii_embedding by lia. apply Nat.ltb_lt. lia.
Qed.

Lemma toLowerCase_ascii (s : string) :
  isAscii s = true -> isAscii (toLowerCase s) = true.
Proof.
  induction s as [|c s IH]; simpl; [done|].
  intros [Hc Hs]%andb_true_iff. by rewrite lowerAscii_ascii, IH.
Qed.

Lemma removeAll_ascii (f : ascii -> bool) (s : string) :
  isAscii s = true -> isAscii (removeAll f s) = true.
Proof.
  induction s as [|c s IH]; simpl; [done|].
  intros [Hc Hs]%andb_true_iff. destruct (f c); simpl; [by apply IH|].
  by rewrite Hc, IH.
Qed.

(** X16: on a string of ASCII characters, [normalizeString] lower-cases and
    deletes the separators, nothing more: its guard for the empty string
    and its final [trim] never change the result.  The result is again
    ASCII and holds no white space, underscore, hyphen, dot or slash and no
    capital letter; normalising is idempotent, commutes with concatenation,
    and leaves alone exactly the strings that are already clean. *)
Theorem X16_normalizeString (s : string) :
  isAscii s = true ->
  ObParser.normalizeString s = removeAll ObParser.isSeparator (toLowerCase s) /\
  isAscii (ObParser.normalizeString s) = true /\
  noneOf ObParser.isSeparator (ObParser.normalizeString s) = true /\
  noneOf isUpper (ObParser.normalizeString s) = true /\
  ObParser.normalizeString (ObParser.normalizeString s) = ObParser.normalizeString s /\
  (forall t, isAscii t = true ->
     ObParser.normalizeString (s +:+ t)
     = ObParser.normalizeString s +:+ ObParser.normalizeString t) /\
  (ObParser.normalizeString s = s <->
   noneOf ObParser.isSeparator s = true /\ noneOf isUpper s = true).
Proof.
  intros Hascii.
  destruct (normalizeString_clean s) as [Hsep Hup].
  split; [apply normalizeString_eq|].
  split; [rewrite normalizeString_eq; by apply removeAll_ascii, toLowerCase_ascii|].
  split; [exact Hsep|]. split; [exact Hup|].
  split; [by apply normalizeString_fixed|].
  split; [intros t _; apply normalizeString_app|].
  split.
  - intros Heq. by rewrite Heq in Hsep, Hup.
  - intros [H1 H2]. by apply normalizeString_fixed.
Qed.

Lemma findIndexFrom_first {T} (p : T -> bool) (l : list T) : forall i,
  0 <= findIndexFrom p l i ->
  0 <= i ->
  forall (j : nat) y,
    (j < Z.to_nat (findIndexFrom p l i - i))%nat -> l !! j = Some y -> p y = false.
Proof.
  induction l as [|a l IH]; intros i Hf Hi j y Hj Hy; simpl in *; [done|].
  destruct (p a) eqn:Ha; [lia|].
  destruct j as [|j]; [by injection Hy as <-|]. simpl in Hy.
  destruct (findIndexFrom_range p l (i + 1)) as [Hn|Hr]; [lia|].
  apply (IH (i + 1) Hf ltac:(lia) j y); [lia|done].
Qed.

Lemma findIndexFrom_le {T} (p : T -> bool) (l : list T) (k : nat) (y : T) :
  l !! k = Some y -> p y = true ->
  0 <= findIndexFrom p l 0 <= Z.of_nat k.
Proof.
  intros Hk Hy.
  destruct (findIndexFrom_range p l 0) as [Hn|Hr].
  - apply findIndexFrom_None in Hn; [|done].
    apply list_elem_of_lookup_2, list_elem_of_In in Hk.
    pose proof (find_none _ _ Hn y Hk). congruence.
  - split; [lia|].
    destruct (Z.le_gt_cases (findIndexFrom p l 0) (Z.of_nat k)) as [Hle|Hgt]; [done|].
    pose proof (findIndexFrom_first p l 0 ltac:(lia) ltac:(done) k y) as Hfirst.
    rewrite Z.sub_0_r in Hfirst. specialize (Hfirst ltac:(lia) Hk). congruence.
Qed.

(** X17: [findColumnIndex] returns the position of the first header that
    matches the field, and -1 exactly when no header matches.  A header
    matches when, after normalising both, it contains one of the field's
    aliases or is contained in one. *)
Theorem X17_findColumnIndex_first_match (headers : list string)
    (field : ObParser.Field) :
  let i := ObParser.findColumnIndex headers field in
  let hit := fun h =>
    ObParser.matchesAlias (map ObParser.normalizeString (ObParser.COLUMN_ALIASES field))
                          (ObParser.normalizeString h) in
  (i = -1 /\ forall h, h ∈ headers -> hit h = false) \/
  (0 <= i < Z.of_nat (length headers) /\
   (exists h, headers !! Z.to_nat i = Some h /\ hit h = true) /\
   (forall (j : nat) h, (j < Z.to_nat i)%nat -> headers !! j = Some h -> hit h = false)).
Proof.
  intros i hit. unfold i, ObParser.findColumnIndex. fold hit.
  destruct (findIndexFrom_range hit headers 0) as [Hn|Hr].
  - left. split; [done|]. apply findIndexFrom_None in Hn; [|done].
    intros h Hh. apply list_elem_of_In in Hh.
    exact (find_none _ _ Hn h Hh).
  - right. split; [lia|]. split.
    + destruct (findIndexFrom_lookup hit headers 0) as (y & Hy & Hp); [lia|done|].
      rewrite Z.sub_0_r in Hy. by exists y.
    + intros j h Hj. apply (findIndexFrom_first hit headers 0); [lia|done|].
      by rewrite Z.sub_0_r.
Qed.

Lemma matchesAlias_empty (field : ObParser.Field) :
  ObParser.matchesAlias (map ObParser.normalizeString (ObParser.COLUMN_ALIASES field))
                        "" = true.
Proof. by destruct field. Qed.

(** X18: a header cell that normalises to the empty string (a blank cell, or
    one made of separators only) matches every field, because every alias
    contains the empty string.  So the column found for any field is never
    to the right of the first such cell, and is never -1 when there is one. *)
Theorem X18_blank_header_matches_every_field (headers : list string)
    (field : ObParser.Field) (k : nat) (h : string) :
  headers !! k = Some h ->
  ObParser.normalizeString h = "" ->
  0 <= ObParser.findColumnIndex headers field <= Z.of_nat k.
Proof.
  intros Hk Hh. unfold ObParser.findColumnIndex.
  apply (findIndexFrom_le _ headers k h Hk).
  rewrite Hh. apply matchesAlias_empty.
Qed.

Lemma normalized_no_space (s : string) :
  noneOf (fun c => Ascii.eqb c " ") (ObParser.normalizeString s) = true.
Proof.
  eapply noneOf_weaken; [|apply (proj1 (normalizeString_clean s))].
  intros c Hc. apply Ascii.eqb_eq in Hc as ->. reflexivity.
Qed.

(** X19: two tests of [getMachineCategory] can never decide.  The one for
    the words bar tack written with a space never succeeds, since a
    normalised name holds no space; and the one for buttonhole only succeeds
    where the test for button, tried before it, already has.  A name that
    spells bar tack with a space is still caught, by the test for bartack,
    unless an earlier category claims it; and normalising a name beforehand
    does not change its category. *)
Theorem X19_getMachineCategory_dead_tests (type : string) :
  let n := ObParser.normalizeString type in
  includes n "bar tack" = false /\
  (includes n "buttonhole" = true -> includes n "button" = true) /\
  (includes (toLowerCase type) "bar tack" = true ->
     ObParser.getMachineCategory type = "snls" \/
     ObParser.getMachineCategory type = "snec" \/
     ObParser.getMachineCategory type = "iron" \/
     ObParser.getMachineCategory type = "button" \/
     ObParser.getMachineCategory type = "bartack") /\
  ObParser.getMachineCategory (ObParser.normalizeString type)
  = ObParser.getMachineCategory type.
Proof.
  intros n. split; [|split; [|split]].
  - apply (noneOf_includes (fun c => Ascii.eqb c " ")); [|done].
    apply normalized_no_space.
  - apply (includes_app_l n "button" "hole").
  - intros Hbt. apply includes_iff in Hbt as (p & q & Hpq).
    assert (Hn : includes n "bartack" = true).
    { unfold n. rewrite normalizeString_eq, Hpq, !removeAll_app.
      apply includes_self_app. }
    unfold ObParser.getMachineCategory. fold n. rewrite Hn. cbn [orb].
    destruct (_ || _ || _)%bool; [by left|].
    destruct (_ || _ || _)%bool; [right; by left|].
    destruct (_ || _ || _)%bool; [right; right; by left|].
    destruct (_ || _ || _)%bool; [right; right; right; by left|].
    by repeat right.
  - unfold ObParser.getMachineCategory.
    destruct (normalizeString_clean type) as [Hsep Hup].
    by rewrite (normalizeString_fixed _ Hsep Hup).
Qed.

(** X20: [getModelUrl] never chooses the buttonhole model: the key button
    comes before the key buttonhole and matches wherever that one does.  A
    name that mentions buttonhole and none of the seven keys before button
    is drawn with the button-making machine.  The empty name and a name
    that matches no key get the default model. *)
Theorem X20_buttonhole_model_never_chosen (type : string) :
  let t := toLowerCase type in
  Machine3D.getModelUrl type <> "/models/buttonhole.glb" /\
  (includes t "buttonhole" = true ->
   (forall key, key ∈ ["snls"; "dnls"; "snec"; "3t ol"; "bartack"; "iron"; "inspection"] ->
      includes t key = false) ->
   Machine3D.getModelUrl type = "/models/buttonmaking mc.glb") /\
  ((forall kv, kv ∈ Machine3D.MODEL_MAP -> includes t kv.1 = false) ->
   Machine3D.getModelUrl type = "/models/last machine.glb") /\
  Machine3D.getModelUrl "" = "/models/last machine.glb".
Proof.
  intros t. split; [|split; [|split; [|done]]].
  - unfold Machine3D.getModelUrl. fold t.
    destruct (String.eqb type ""); [by vm_compute|].
    unfold Machine3D.MODEL_MAP. cbn [List.find fst].
    destruct (includes t "snls"); [by vm_compute|].
    destruct (includes t "dnls"); [by vm_compute|].
    destruct (includes t "snec"); [by vm_compute|].
    destruct (includes t "3t ol"); [by vm_compute|].
    destruct (includes t "bartack"); [by vm_compute|].
    destruct (includes t "iron"); [by vm_compute|].
    destruct (includes t "inspection"); [by vm_compute|].
    destruct (includes t "button") eqn:Hb; [by vm_compute|].
    destruct (includes t "buttonhole") eqn:Hbh.
    { apply (includes_app_l t "button" "hole") in Hbh. congruence. }
    repeat match goal with
           | |- context [if ?b then _ else _] => destruct b; [by vm_compute|]
           end.
    by vm_compute.
  - intros Hbh Hkeys. unfold Machine3D.getModelUrl. fold t.
    destruct (String.eqb_spec type "") as [->|_]; [done|].
    unfold Machine3D.MODEL_MAP. cbn [List.find fst].
    rewrite !Hkeys by (rewrite !elem_of_cons; tauto).
    by rewrite (includes_app_l t "button" "hole" Hbh).
  - intros Hnone. unfold Machine3D.getModelUrl. fold t.
    destruct (String.eqb type ""); [done|].
    assert (Hfind : List.find (fun kv => includes t kv.1) Machine3D.MODEL_MAP = None).
    { induction Machine3D.MODEL_MAP as [|kv m IH]; [done|]. simpl.
      rewrite Hnone by left. apply IH. intros kv' Hkv. apply Hnone. by right. }
    by rewrite Hfind.
Qed.

(** X21: the fixtures the generator emits are drawn as what they are.  An
    entity of a layout that is not a machine is a board (sequence index -1),
    an inspection table or a trolley.  The renderer's test for a section
    board accepts every board the generator emits and rejects its inspection
    tables and trolleys; these get the inspection model and the helper's
    table. *)
Theorem X21_fixtures_as_rendered uuid (ops : list Operation.t) (D W : Q)
    (l : list MachinePosition.t) (e : MachinePosition.t) :
  generateLayout uuid ops D W = Ok l ->
  e ∈ l ->
  let type := Operation.machine_type (MachinePosition.operation e) in
  (isMachine e = false ->
     MachinePosition.machineIndex e = Some (-1) \/
     MachinePosition.isInspection e = true \/
     MachinePosition.isTrolley e = true) /\
  (MachinePosition.machineIndex e = Some (-1) -> Machine3D.isBoard e = true) /\
  (MachinePosition.isInspection e = true ->
     Machine3D.isBoard e = false /\
     Machine3D.getModelUrl type = "/models/inspection machine final.glb") /\
  (MachinePosition.isTrolley e = true ->
     Machine3D.isBoard e = false /\
     Machine3D.getModelUrl type = "/models/helpers table.glb").
Proof.
  intros Hgen He type. apply generateLayout_emitted in Hgen.
  rewrite Forall_forall in Hgen. specialize (Hgen e He). unfold type. clear type.
  destruct Hgen as [op lane x k r s u Hk|name x z u|sec x z lane|sec x z lane g].
  - rewrite machineEntity_index.
    assert (Hm : isMachine (machineEntity op lane x k r s u) = true)
      by (by apply machineEntity_isMachine).
    rewrite Hm.
    destruct (machineEntity_flags op lane x k r s u) as [Hi Ht].
    rewrite Hi, Ht.
    split; [done|]. split; [intros [= ->]; lia|]. by split.
  - split; [by left|]. split; [done|]. by split.
  - split; [right; by left|]. split; [done|]. split; [by split|done].
  - split; [right; by right|]. split; [done|]. split; [done|by split].
Qed.

Lemma isHeaderRowFrom_count numberToString (row : list ObParser.Cell) : forall m,
  m < 2 ->
  ObParser.isHeaderRowFrom numberToString row m
  = (2 <=? m + Z.of_nat (length (ObParser.headerCells numberToString row))).
Proof.
  induction row as [|cell rest IH]; intros m Hm;
    cbn [ObParser.isHeaderRowFrom ObParser.headerCells List.filter].
  - symmetry. apply Z.leb_gt. simpl. lia.
  - fold (ObParser.headerCells numberToString rest).
    destruct (ObParser.matchesAlias ObParser.allAliases
                (ObParser.normalizeString (ObParser.cellText numberToString cell)));
      simpl length.
    + destruct (Z.leb_spec 2 (m + 1)) as [Hge|Hlt].
      * symmetry. apply Z.leb_le. lia.
      * rewrite IH by lia. f_equal. lia.
    + destruct (Z.leb_spec 2 m) as [Hge|Hlt]; [lia|]. by apply IH.
Qed.

Lemma isHeaderRow_count numberToString (row : list ObParser.Cell) :
  ObParser.isHeaderRow numberToString row = true
  <-> (2 <= length (ObParser.headerCells numberToString row))%nat.
Proof.
  unfold ObParser.isHeaderRow. rewrite isHeaderRowFrom_count by lia.
  rewrite Z.leb_le. lia.
Qed.

Lemma blank_cell_matches numberToString (cell : ObParser.Cell) :
  ObParser.cellText numberToString cell = "" ->
  ObParser.matchesAlias ObParser.allAliases
    (ObParser.normalizeString (ObParser.cellText numberToString cell)) = true.
Proof. by intros ->. Qed.

(** X22: [isHeaderRow] accepts a row exactly when at least two of its cells
    match an alias, although it stops at the second match.  A blank cell (the
    empty string or the number 0) matches, so does every cell of separators
    only: a row is accepted as soon as two of its cells are blank, and a row
    of fewer than two cells never is. *)
Theorem X22_isHeaderRow numberToString (row : list ObParser.Cell) :
  (ObParser.isHeaderRow numberToString row = true
   <-> (2 <= length (ObParser.headerCells numberToString row))%nat) /\
  (forall cell, cell ∈ row ->
     ObParser.normalizeString (ObParser.cellText numberToString cell) = "" ->
     cell ∈ ObParser.headerCells numberToString row) /\
  (forall i j ci cj, i <> j -> row !! i = Some ci -> row !! j = Some cj ->
     ObParser.cellText numberToString ci = "" ->
     ObParser.cellText numberToString cj = "" ->
     ObParser.isHeaderRow numberToString row = true) /\
  ((length row < 2)%nat -> ObParser.isHeaderRow numberToString row = false).
Proof.
  split; [apply isHeaderRow_count|].
  assert (Hin : forall cell, cell ∈ row ->
            ObParser.normalizeString (ObParser.cellText numberToString cell) = "" ->
            cell ∈ ObParser.headerCells numberToString row).
  { intros cell Hc Hn. apply list_elem_of_In, filter_In.
    split; [by apply list_elem_of_In|]. by rewrite Hn. }
  split; [exact Hin|]. split.
  - intros i j ci cj Hij Hi Hj Hci Hcj. apply isHeaderRow_count.
    assert (Hlen : forall (l : list ObParser.Cell) (p : ObParser.Cell -> bool) i j ci cj,
              (i < j)%nat -> l !! i = Some ci -> l !! j = Some cj ->
              p ci = true -> p cj = true -> (2 <= length (List.filter p l))%nat).
    { clear. induction l as [|a l IH]; intros p i j ci cj Hij Hi Hj Hpi Hpj; [done|].
      destruct j as [|j]; [lia|]. simpl in Hj.
      destruct i as [|i]; simpl in Hi.
      - injection Hi as ->. simpl. rewrite Hpi. simpl.
        assert (Hcj : In cj (List.filter p l)).
        { apply filter_In. split; [|done].
          apply list_elem_of_In. by eapply list_elem_of_lookup_2. }
        destruct (List.filter p l); [done|simpl; lia].
      - specialize (IH p i j ci cj ltac:(lia) Hi Hj Hpi Hpj). simpl.
        destruct (p a); simpl; lia. }
    unfold ObParser.headerCells.
    destruct (Nat.lt_total i j) as [Hlt|[Heq|Hgt]]; [|done|].
    + eapply (Hlen row _ i j ci cj); [done..| |]; by apply blank_cell_matches.
    + eapply (Hlen row _ j i cj ci); [done..| |]; by apply blank_cell_matches.
  - intros Hshort.
    destruct (ObParser.isHeaderRow numberToString row) eqn:Hh; [|done].
    apply isHeaderRow_count in Hh.
    pose proof (filter_length_le
                  (fun cell => ObParser.matchesAlias ObParser.allAliases
                     (ObParser.normalizeString (ObParser.cellText numberToString cell)))
                  row) as Hle.
    unfold ObParser.headerCells in Hh. lia.
Qed.

(** X23: the header search of [parseOBExcel] looks at the first 20 rows
    only.  Its result is -1 or the index, below 20, of the first row
    [isHeaderRow] accepts; it is -1 exactly when none of the first 20 rows
    is accepted, whatever comes later; and the rows after the 20th never
    change it. *)
Theorem X23_header_search numberToString (rawData : list (list ObParser.Cell)) :
  let i := ObParser.headerRowIndex numberToString rawData in
  (i = -1 \/ 0 <= i < Z.min 20 (Z.of_nat (length rawData))) /\
  (i = -1 <->
   forall (j : nat) row, (j < 20)%nat -> rawData !! j = Some row ->
     ObParser.isHeaderRow numberToString row = false) /\
  (0 <= i ->
   (exists row, rawData !! Z.to_nat i = Some row /\
                ObParser.isHeaderRow numberToString row = true) /\
   forall (j : nat) row, (j < Z.to_nat i)%nat -> rawData !! j = Some row ->
     ObParser.isHeaderRow numberToString row = false) /\
  (forall rest, (20 <= length rawData)%nat ->
     ObParser.headerRowIndex numberToString (take 20 rawData ++ rest) = i).
Proof.
  intros i. unfold i, ObParser.headerRowIndex.
  set (p := ObParser.isHeaderRow numberToString).
  pose proof (findIndexFrom_range p (take 20 rawData) 0) as Hrange.
  rewrite length_take in Hrange.
  split; [lia|]. split; [|split].
  - rewrite findIndexFrom_None by done. split.
    + intros Hnone j row Hj Hrow.
      apply (find_none _ _ Hnone). apply list_elem_of_In.
      apply (list_elem_of_lookup_2 _ j). by rewrite lookup_take_lt.
    + intros Hall. destruct (List.find p (take 20 rawData)) as [row|] eqn:Hfind; [|done].
      apply find_some in Hfind as [Hin Hp].
      apply list_elem_of_In, list_elem_of_lookup in Hin as [j Hj].
      assert (Hlt : (j < 20)%nat).
      { apply lookup_lt_Some in Hj. rewrite length_take in Hj. lia. }
      rewrite lookup_take_lt in Hj by done.
      specialize (Hall j row Hlt Hj). unfold p in *. congruence.
  - intros Hi.
    assert (Hlt : (Z.to_nat (findIndexFrom p (take 20 rawData) 0) < 20)%nat) by lia.
    split.
    + destruct (findIndexFrom_lookup p (take 20 rawData) 0 Hi) as (row & Hrow & Hp);
        [done|].
      rewrite Z.sub_0_r in Hrow. rewrite lookup_take_lt in Hrow by done.
      by exists row.
    + intros j row Hj Hrow.
      apply (findIndexFrom_first p (take 20 rawData) 0 Hi ltac:(done) j row).
      * by rewrite Z.sub_0_r.
      * rewrite lookup_take_lt by lia. done.
  - intros rest Hlong.
    f_equal. rewrite take_app_le by (rewrite length_take; lia).
    by rewrite take_take, Nat.min_id.
Qed.

(** X24: [createLine] makes the new line current without saving it: the
    saved lines stay as they were, and the line carries the operations and
    one machine per operation in the same order, however the times add up.
    Saving that line and loading it by its id brings back the very
    operations and machine layout that creating it left in the store. *)
Theorem X24_create_save_load (add : Q -> Q -> Q) (newId created updated now : string)
    (st : LineStore.t) (lineNo styleNo : string) (ops : list Operation.t) :
  let res := LineStore.createLine add newId created updated st lineNo styleNo ops in
  let line := res.1 in
  let st1 := res.2 in
  let st2 := LineStore.loadLine (LineStore.saveLine now st1 line) newId in
  LineStore.currentLine st1 = Some line /\
  LineStore.savedLines st1 = LineStore.savedLines st /\
  Types.LineData.id line = newId /\
  Types.LineData.operations line = ops /\
  map Types.MachinePosition.operation (Types.LineData.machineLayout line) = ops /\
  LineStore.operations st2 = LineStore.operations st1 /\
  LineStore.machineLayout st2 = LineStore.machineLayout st1 /\
  LineStore.currentLine st2 = Some (LineStore.withUpdatedAt line now).
Proof.
  intros res line st1 st2.
  assert (Hst2 : st2 = LineStore.mk (Some (LineStore.withUpdatedAt line now))
                         (LineStore.savedLines (LineStore.saveLine now st1 line))
                         (Types.LineData.operations line)
                         (Types.LineData.machineLayout line)
                         None (LineStore.ui st1)).
  { unfold st2, LineStore.loadLine.
    change newId with (Types.LineData.id line). by rewrite find_saveLine. }
  split; [done|]. split; [done|]. split; [done|]. split; [done|].
  split.
  { change (map ?f ?l) with (f <$> l). apply list_eq. intros i.
    unfold line, res, LineStore.createLine, LineStore.generateMachineLayout.
    cbn [fst snd Types.LineData.machineLayout].
    rewrite list_lookup_fmap, list_lookup_imap. by destruct (ops !! i). }
  by rewrite Hst2.
Qed.

(** * The sections of a layout, operation by operation *)

Lemma fold_left_at {A B} (f : A -> B -> A) (l : list B) (j : nat) (x : B) (a : A) :
  l !! j = Some x ->
  fold_left f l a = fold_left f (drop (S j) l) (f (fold_left f (take j l) a) x).
Proof.
  intros Hj. rewrite <- (take_drop_middle l j x Hj) at 1.
  by rewrite fold_left_app.
Qed.

Lemma lookup_run_in {T} (pre run rest : list T) (k : nat) (e : T) :
  run !! k = Some e -> (pre ++ run ++ rest) !! (length pre + k)%nat = Some e.
Proof.
  intros Hk. rewrite lookup_app_r by lia.
  replace (length pre + k - length pre)%nat with k by lia.
  by apply lookup_app_l_Some.
Qed.

Section OneCall.

Variable uuidv4 : nat -> string.

(** Every loop of the generator only appends to the layout. *)
Lemma placeOps_prefix g sec ops : forall st lane,
  layout st `prefix_of` layout (placeOps uuidv4 g sec ops (st, lane)).1.
Proof.
  induction ops as [|b ops IH]; intros st lane; [done|].
  unfold placeOps in *. cbn [fold_left]. rewrite placeOp_eq.
  etrans; [|apply IH]. simpl. by apply prefix_app_r.
Qed.

Lemma mainOps_prefix sec ops : forall st c,
  layout st `prefix_of` layout (fold_left (placeMainOp uuidv4 sec) ops (st, c)).1.
Proof.
  induction ops as [|b ops IH]; intros st c; [done|].
  cbn [fold_left]. rewrite placeMainOp_eq.
  etrans; [|apply IH]. simpl. by apply prefix_app_r.
Qed.

Lemma buttonOps_prefix sec ops : forall st c,
  layout st `prefix_of` layout (fold_left (placeButtonOp uuidv4 sec) ops (st, c)).1.
Proof.
  induction ops as [|b ops IH]; intros st c; [done|].
  cbn [fold_left]. rewrite placeButtonOp_eq.
  etrans; [|apply IH]. simpl. by apply prefix_app_r.
Qed.

Lemma afterBoard_eq sec st :
  afterBoard uuidv4 sec st
  = let g := targetGroupOf (toLowerCase sec) in
    let startX := maxPair g (cursors st) + SECTION_GAP_X in
    mkSt (layout st ++ [boardEntity sec startX (innerZ g) (uuidv4 (draws st))])
         (addPair g (setPair g (cursors st) startX) BOARD_GAP)
         (S (draws st)).
Proof. done. Qed.

Lemma partsBranch_layout sec ops st :
  let g := targetGroupOf (toLowerCase sec) in
  exists inspectX,
    layout (partsBranch uuidv4 sec (toLowerCase sec) ops st)
    = layout (placeOps uuidv4 g sec ops (afterBoard uuidv4 sec st, firstLane g)).1
      ++ [inspectionEntity sec inspectX (innerZ g) (firstLane g);
          trolleyEntity sec inspectX (innerZ g) (firstLane g) g].
Proof.
  intros g. rewrite partsBranch_eq, afterBoard_eq. simpl. by eexists.
Qed.

Lemma assemblyBranch_layout sec ops st :
  let startX := assemblyStart (cursors st) in
  let st1 := addBoard uuidv4 (withCursors st (setAll startX)) "Assembly" startX 0 in
  let main := fold_left (placeMainOp uuidv4 sec)
                        (filter (fun i => isButton i <> true) ops) (st1, startX) in
  layout (assemblyBranch uuidv4 sec ops st)
  = layout (fold_left (placeButtonOp uuidv4 sec)
                      (filter (fun i => isButton i = true) ops) (main.1, startX)).1.
Proof.
  intros startX st1 main. rewrite assemblyBranch_eq. fold startX. fold st1.
  unfold main. destruct (fold_left (placeMainOp uuidv4 sec) _ _) as [st2 ac].
  cbn [fst]. by destruct (fold_left (placeButtonOp uuidv4 sec) _ _) as [st3 dc].
Qed.

Lemma processSection_prefix m st sec :
  layout st `prefix_of` layout (processSection uuidv4 m st sec).
Proof.
  destruct (includes (toLowerCase sec) "assembly") eqn:Hsec.
  - rewrite processSection_assembly, assemblyBranch_layout by done.
    etrans; [|apply buttonOps_prefix]. etrans; [|apply mainOps_prefix].
    simpl. by apply prefix_app_r.
  - rewrite processSection_parts by done.
    destruct (partsBranch_layout sec (m !!! sec) st) as [inspectX ->].
    apply prefix_app_r. etrans; [|apply placeOps_prefix].
    rewrite afterBoard_eq. simpl. by apply prefix_app_r.
Qed.

Lemma sections_prefix m secs : forall st,
  layout st `prefix_of` layout (fold_left (processSection uuidv4 m) secs st).
Proof.
  induction secs as [|sec secs IH]; intros st; [done|].
  cbn [fold_left]. etrans; [apply processSection_prefix|apply IH].
Qed.

(** The run of [generateLayout] seen from its [j]-th section. *)
Lemma generateLayout_at ops D W l j sec :
  generateLayout uuidv4 ops D W = Ok l ->
  sectionsOf (planned ops D W) !! j = Some sec ->
  let balanced := planned ops D W in
  let m := (groupSections balanced).1 in
  m !!! sec = filter (fun b => sectionKey b = sec) balanced /\
  layout (processSection uuidv4 m (sectionState uuidv4 balanced j) sec) `prefix_of` l.
Proof.
  intros Hgen Hj balanced m. unfold generateLayout in Hgen.
  destruct (calculateMachineRequirements ops D W) as [b|] eqn:Hcalc; [|done].
  injection Hgen as <-. apply planned_ok in Hcalc as ->. fold balanced.
  pose proof (groupSections_order balanced) as Hord.
  assert (Hin : sec ∈ (groupSections balanced).2).
  { rewrite Hord. by eapply list_elem_of_lookup_2. }
  split; [by apply groupSections_bucket|].
  unfold runSections, sectionState, m.
  destruct (groupSections balanced) as [m' order]. cbn [fst snd] in *. subst order.
  rewrite (fold_left_at _ _ j sec _ Hj).
  apply sections_prefix.
Qed.

Lemma planned_item ops D W sec item :
  item ∈ filter (fun b => sectionKey b = sec) (planned ops D W) ->
  (exists op, op ∈ ops /\
     item = Balanced.mk op (requiredCount (Operation.smv op) D W)) /\
  sectionKey item = sec /\
  1 <= Balanced.count item.
Proof.
  intros Hi. apply list_elem_of_filter in Hi as [Hsec Hin].
  unfold planned in Hin.
  apply list_elem_of_In, in_map_iff in Hin as (op & <- & Hop).
  split; [exists op; split; [by apply list_elem_of_In|done]|].
  split; [done|]. apply requiredCount_ge_1.
Qed.

Lemma afterBoard_cursor sec st lane :
  let g := targetGroupOf (toLowerCase sec) in
  lane = firstLane g \/ lane = secondLane g ->
  LaneCursors.get (cursors (afterBoard uuidv4 sec st)) lane
  = maxPair g (cursors st) + SECTION_GAP_X + BOARD_GAP.
Proof.
  intros g Hlane. rewrite afterBoard_eq. fold g. simpl.
  destruct g, Hlane as [-> | ->]; done.
Qed.

(** Where the operation at index [i] of a parts-preparation section starts:
    one board clearance after the section's start, behind the machines
    already standing in its lane. *)
Lemma placeOps_start g sec ops st i :
  (i <= length ops)%nat ->
  let before := placeOps uuidv4 g sec (take i ops) (st, firstLane g) in
  LaneCursors.get (cursors before.1)
                  (if Nat.even i then firstLane g else secondLane g)
  = LaneCursors.get (cursors st) (if Nat.even i then firstLane g else secondLane g)
    + MACHINE_SPACING_X * sameLaneBefore ops i.
Proof.
  intros Hi before.
  destruct (placeOps_cursor_form uuidv4 g sec (take i ops) st (firstLane g))
    as (Hfirst & Hsecond & _); [by left|].
  fold before in Hfirst, Hsecond.
  assert (Htog : toggle g (firstLane g) = secondLane g) by (by destruct g).
  rewrite Htog in Hsecond.
  unfold sameLaneBefore, MACHINE_SPACING_X. by destruct (Nat.even i).
Qed.

End OneCall.

(** C3: what [generateLayout] does with the operation at index [i] of a
    section whose label does not mention "assembly".  The section's
    operations are those of the input with that section label, in input
    order, each with its planned count.  The operation is placed in the
    first lane of the section's pair (A for AB, C for CD) when [i] is even
    and in the second (B, D) when [i] is odd, whatever its count.  Its whole
    run stands in the returned layout, right after what the generator had
    laid out before it: instance [k] (k = 0 .. count-1) in that lane,
    [k] pitches after the run's start, recording [machineIndex = k].  The
    run starts one board clearance after the section's start, behind the
    machines of the earlier operations of the same lane.  The cursor of the
    placing lane stands at the run's start before the operation and
    [count * pitch] further after it; every other cursor is unchanged by
    it.  [before] and [after] are the generator's states around the
    operation: the section's board follows the layout of the earlier
    sections, the section is completed from [after], and both layouts begin
    the returned layout. *)
Theorem C3_alternating_runs uuid (ops : list Operation.t) (D W : Q)
    (l : list MachinePosition.t) (j : nat) (sec : string) (i : nat)
    (item : Balanced.t) :
  generateLayout uuid ops D W = Ok l ->
  sectionsOf (planned ops D W) !! j = Some sec ->
  includes (toLowerCase sec) "assembly" = false ->
  filter (fun b => sectionKey b = sec) (planned ops D W) !! i = Some item ->
  let sops := filter (fun b => sectionKey b = sec) (planned ops D W) in
  let g := targetGroupOf (toLowerCase sec) in
  let st0 := sectionState uuid (planned ops D W) j in
  let start := maxPair g (cursors st0) + SECTION_GAP_X in
  let before := placeOps uuid g sec (take i sops) (afterBoard uuid sec st0, firstLane g) in
  let after :=
    placeOps uuid g sec (take (S i) sops) (afterBoard uuid sec st0, firstLane g) in
  let lane := if Nat.even i then firstLane g else secondLane g in
  let x0 := start + BOARD_GAP + MACHINE_SPACING_X * sameLaneBefore sops i in
  let run := runEntities uuid (Balanced.operation item) lane None sec x0
                         (draws before.1) (Balanced.count item) in
  (exists op, op ∈ ops /\
     item = Balanced.mk op (requiredCount (Operation.smv op) D W)) /\
  1 <= Balanced.count item /\
  (exists rest, l = layout before.1 ++ run ++ rest) /\
  length run = Z.to_nat (Balanced.count item) /\
  (forall k, 0 <= k < Balanced.count item ->
     exists e, l !! (length (layout before.1) + Z.to_nat k)%nat = Some e /\
       MachinePosition.lane e = lane /\
       Vec3.x (MachinePosition.position e) = x0 + k * MACHINE_SPACING_X /\
       MachinePosition.machineIndex e = Some k /\
       MachinePosition.operation e = Balanced.operation item) /\
  before.2 = lane /\
  LaneCursors.get (cursors before.1) lane = x0 /\
  LaneCursors.get (cursors after.1) lane
  = x0 + Balanced.count item * MACHINE_SPACING_X /\
  (forall l', l' <> lane ->
     LaneCursors.get (cursors after.1) l' = LaneCursors.get (cursors before.1) l') /\
  layout after.1 = layout before.1 ++ run /\
  (exists earlier,
     layout before.1
     = layout st0 ++ boardEntity sec start (innerZ g) (uuid (draws st0)) :: earlier) /\
  (exists inspectX,
     layout (processSection uuid (groupSections (planned ops D W)).1 st0 sec)
     = layout (placeOps uuid g sec (drop (S i) sops) after).1
       ++ [inspectionEntity sec inspectX (innerZ g) (firstLane g);
           trolleyEntity sec inspectX (innerZ g) (firstLane g) g]).
Proof.
  intros Hgen Hj Hsec Hi sops g st0 start before after lane x0 run.
  destruct (generateLayout_at uuid ops D W l j sec Hgen Hj) as [Hbucket Hpre].
  destruct (planned_item ops D W sec item (list_elem_of_lookup_2 _ _ _ Hi))
    as (Hop & _ & Hcount).
  fold st0 in Hpre. fold sops in Hbucket.
  set (st1 := afterBoard uuid sec st0) in *.
  (* the section is completed from [after] *)
  assert (Hsplit : placeOps uuid g sec sops (st1, firstLane g)
                   = placeOps uuid g sec (drop (S i) sops) after).
  { unfold after, placeOps. rewrite <- fold_left_app. by rewrite take_drop. }
  assert (Hclose : exists inspectX,
             layout (processSection uuid (groupSections (planned ops D W)).1 st0 sec)
             = layout (placeOps uuid g sec (drop (S i) sops) after).1
               ++ [inspectionEntity sec inspectX (innerZ g) (firstLane g);
                   trolleyEntity sec inspectX (innerZ g) (firstLane g) g]).
  { rewrite processSection_parts, Hbucket by done.
    destruct (partsBranch_layout uuid sec sops st0) as [inspectX Hlay].
    exists inspectX. rewrite Hlay. fold g. fold st1. by rewrite Hsplit. }
  (* the run, as the loop appends it *)
  assert (Hcount0 : 0 <= Balanced.count item) by lia.
  destruct (placeOps_run uuid g sec sops st1 i item Hi Hcount0)
    as (Hlane & Hafter & Hlen & Hrun & Hcur & Hother & _).
  fold before in Hlane, Hafter, Hlen, Hrun, Hcur, Hother.
  fold after in Hafter, Hcur, Hother. fold lane in Hlane, Hafter, Hlen, Hrun, Hcur, Hother.
  (* where it starts *)
  assert (Hx0 : LaneCursors.get (cursors before.1) lane = x0).
  { unfold before, lane. rewrite placeOps_start.
    - unfold st1. rewrite afterBoard_cursor by (destruct (Nat.even i); auto).
      done.
    - apply lookup_lt_Some in Hi. unfold sops. lia. }
  rewrite Hx0 in Hafter, Hlen, Hrun, Hcur. fold run in Hafter, Hlen, Hrun.
  (* the run is in the returned layout *)
  assert (Hin : exists rest, l = layout before.1 ++ run ++ rest).
  { destruct Hclose as [inspectX Hclose].
    assert (Hpre' : layout after.1 `prefix_of` l).
    { etrans; [|exact Hpre]. rewrite Hclose. apply prefix_app_r.
      destruct after as [sta la]. apply placeOps_prefix. }
    destruct Hpre' as [rest ->]. exists rest. by rewrite Hafter, <- app_assoc. }
  split; [exact Hop|]. split; [exact Hcount|]. split; [exact Hin|].
  split; [exact Hlen|]. split.
  { intros k Hk. destruct (Hrun k Hk) as (e & He & Hrest). exists e.
    split; [|exact Hrest]. destruct Hin as [rest ->]. by apply lookup_run_in. }
  split; [exact Hlane|]. split; [exact Hx0|]. split; [exact Hcur|].
  split; [exact Hother|]. split; [exact Hafter|]. split; [|exact Hclose].
  destruct (placeOps_prefix uuid g sec (take i sops) st1 (firstLane g)) as [ext Hext].
  fold before in Hext. exists ext. rewrite Hext. unfold st1.
  rewrite afterBoard_eq. simpl. by rewrite <- app_assoc.
Qed.

Section AssemblyRuns.

Variable uuidv4 : nat -> string.

(** The main operation at index [i] of an assembly section: its run follows
    what the loop laid out before it, at the cursor the earlier main
    operations left. *)
Lemma mainOps_at sec ops st c i item :
  ops !! i = Some item ->
  exists pre d,
    layout st `prefix_of` pre /\
    (pre ++ rowEntities uuidv4 (Balanced.operation item) sec
                        (c + MACHINE_SPACING_X * mainRows (take i ops)) d
                        (Balanced.count item))
    `prefix_of` layout (fold_left (placeMainOp uuidv4 sec) ops (st, c)).1.
Proof.
  intros Hi. rewrite (fold_left_at _ ops i item (st, c) Hi).
  destruct (fold_left (placeMainOp uuidv4 sec) (take i ops) (st, c))
    as [sta ca] eqn:Hfold.
  assert (Hca : ca = c + MACHINE_SPACING_X * mainRows (take i ops)).
  { pose proof (mainOps_cursor_form uuidv4 sec (take i ops) st c) as H.
    rewrite Hfold in H. simpl in H. by unfold MACHINE_SPACING_X. }
  assert (Hsta : layout st `prefix_of` layout sta).
  { pose proof (mainOps_prefix uuidv4 sec (take i ops) st c) as H.
    by rewrite Hfold in H. }
  rewrite placeMainOp_eq. exists (layout sta), (draws sta).
  split; [exact Hsta|].
  rewrite <- Hca. apply mainOps_prefix.
Qed.

Lemma buttonOps_at sec ops st c i item :
  ops !! i = Some item ->
  exists pre d,
    layout st `prefix_of` pre /\
    (pre ++ runEntities uuidv4 (Balanced.operation item) Lane.D (Some ROT_FACE_FRONT)
                        sec (c + MACHINE_SPACING_X * buttonSlots (take i ops)) d
                        (Balanced.count item))
    `prefix_of` layout (fold_left (placeButtonOp uuidv4 sec) ops (st, c)).1.
Proof.
  intros Hi. rewrite (fold_left_at _ ops i item (st, c) Hi).
  destruct (fold_left (placeButtonOp uuidv4 sec) (take i ops) (st, c))
    as [sta ca] eqn:Hfold.
  assert (Hca : ca = c + MACHINE_SPACING_X * buttonSlots (take i ops)).
  { pose proof (buttonOps_cursor_form uuidv4 sec (take i ops) st c) as H.
    rewrite Hfold in H. simpl in H. by unfold MACHINE_SPACING_X. }
  assert (Hsta : layout st `prefix_of` layout sta).
  { pose proof (buttonOps_prefix uuidv4 sec (take i ops) st c) as H.
    by rewrite Hfold in H. }
  rewrite placeButtonOp_eq. exists (layout sta), (draws sta).
  split; [exact Hsta|].
  rewrite <- Hca. apply buttonOps_prefix.
Qed.

End AssemblyRuns.

(** C4: what [generateLayout] does with a section whose label mentions
    "assembly".  The section's operations are those of the input with that
    label, in input order, each with its planned count; the buttoning test
    splits them into main and buttoning operations.  The section's central
    board follows the layout of the earlier sections; [startX] is where the
    section starts.  The whole run of the main operation at index [i]
    stands in the returned layout, after the board: instance [k] in lane
    [[A,B,C][k mod 3]], at row [k / 3] counted in pitches from the
    operation's cursor, with the front yaw and [machineIndex = k]; the
    cursor stands [ceil(count / 3)] rows further for each earlier main
    operation.  The run of the buttoning operation at index [i] stands in
    the returned layout, after the board: instance [k] in lane D, [k]
    pitches after the operation's cursor, with the front yaw; the cursor
    stands one pitch further for each machine of the earlier buttoning
    operations.  Three main operations of three machines each, alone in the
    input, give nine machines, three per lane A/B/C, each operation's three
    machines sharing one row. *)
Theorem C4_assembly_rows uuid (ops : list Operation.t) (D W : Q)
    (l : list MachinePosition.t) (j : nat) (sec : string) :
  generateLayout uuid ops D W = Ok l ->
  sectionsOf (planned ops D W) !! j = Some sec ->
  includes (toLowerCase sec) "assembly" = true ->
  let sops := filter (fun b => sectionKey b = sec) (planned ops D W) in
  let mainOps := filter (fun i => isButton i <> true) sops in
  let buttonOps := filter (fun i => isButton i = true) sops in
  let st0 := sectionState uuid (planned ops D W) j in
  let startX := assemblyStart (cursors st0) in
  let board := boardEntity "Assembly" startX 0 (uuid (draws st0)) in
  (exists rest, l = layout st0 ++ board :: rest) /\
  (forall i item, mainOps !! i = Some item ->
     let cursor := startX + MACHINE_SPACING_X * mainRows (take i mainOps) in
     (exists op, op ∈ ops /\
        item = Balanced.mk op (requiredCount (Operation.smv op) D W)) /\
     exists mid d rest,
       l = (layout st0 ++ board :: mid)
           ++ rowEntities uuid (Balanced.operation item) sec cursor d
                          (Balanced.count item)
           ++ rest /\
       forall k, 0 <= k < Balanced.count item ->
         exists e,
           l !! (length (layout st0 ++ board :: mid) + Z.to_nat k)%nat = Some e /\
           Some (MachinePosition.lane e)
           = [Lane.A; Lane.B; Lane.C] !! Z.to_nat (k mod 3) /\
           Vec3.x (MachinePosition.position e)
           = cursor + k / 3 * MACHINE_SPACING_X /\
           Vec3.y (MachinePosition.rotation e) = ROT_FACE_FRONT /\
           MachinePosition.machineIndex e = Some k /\
           MachinePosition.operation e = Balanced.operation item) /\
  (forall i item, buttonOps !! i = Some item ->
     let dCursor := startX + MACHINE_SPACING_X * buttonSlots (take i buttonOps) in
     (exists op, op ∈ ops /\
        item = Balanced.mk op (requiredCount (Operation.smv op) D W)) /\
     exists mid d rest,
       l = (layout st0 ++ board :: mid)
           ++ runEntities uuid (Balanced.operation item) Lane.D (Some ROT_FACE_FRONT)
                          sec dCursor d (Balanced.count item)
           ++ rest /\
       forall k, 0 <= k < Balanced.count item ->
         exists e,
           l !! (length (layout st0 ++ board :: mid) + Z.to_nat k)%nat = Some e /\
           MachinePosition.lane e = Lane.D /\
           Vec3.x (MachinePosition.position e) = dCursor + k * MACHINE_SPACING_X /\
           Vec3.y (MachinePosition.rotation e) = ROT_FACE_FRONT /\
           MachinePosition.machineIndex e = Some k /\
           MachinePosition.operation e = Balanced.operation item) /\
  (forall o1 o2 o3,
     ops = [o1; o2; o3] ->
     Operation.section o1 = sec -> Operation.section o2 = sec ->
     Operation.section o3 = sec ->
     requiredCount (Operation.smv o1) D W = 3 ->
     requiredCount (Operation.smv o2) D W = 3 ->
     requiredCount (Operation.smv o3) D W = 3 ->
     isButton (Balanced.mk o1 3) = false ->
     isButton (Balanced.mk o2 3) = false ->
     isButton (Balanced.mk o3 3) = false ->
     machineSlots l
     = [(Lane.A, 20); (Lane.B, 20); (Lane.C, 20);
        (Lane.A, 40); (Lane.B, 40); (Lane.C, 40);
        (Lane.A, 60); (Lane.B, 60); (Lane.C, 60)] /\
     map MachinePosition.operation (machinesOf l)
     = [o1; o1; o1; o2; o2; o2; o3; o3; o3] /\
     Forall (fun e => isMachine e = true ->
                      Vec3.y (MachinePosition.rotation e) = ROT_FACE_FRONT) l).
Proof.
  intros Hgen Hj Hsec sops mainOps buttonOps st0 startX board.
  destruct (generateLayout_at uuid ops D W l j sec Hgen Hj) as [Hbucket Hpre].
  fold st0 in Hpre. fold sops in Hbucket.
  rewrite processSection_assembly, Hbucket, assemblyBranch_layout in Hpre by done.
  fold startX mainOps buttonOps in Hpre.
  set (st1 := addBoard uuid (withCursors st0 (setAll startX)) "Assembly" startX 0)
    in Hpre.
  set (main := fold_left (placeMainOp uuid sec) mainOps (st1, startX)) in Hpre.
  assert (Hst1 : layout st1 = layout st0 ++ [board]) by done.
  assert (Hmain : layout st1 `prefix_of` layout main.1) by apply mainOps_prefix.
  assert (Hbuttons :
            layout main.1
            `prefix_of` layout (fold_left (placeButtonOp uuid sec) buttonOps
                                          (main.1, startX)).1)
    by apply buttonOps_prefix.
  assert (Hitem : forall (P : Balanced.t -> Prop) `{!forall x, Decision (P x)} i item,
             filter P sops !! i = Some item ->
             exists op, op ∈ ops /\
               item = Balanced.mk op (requiredCount (Operation.smv op) D W)).
  { intros P HP i item Hi.
    apply list_elem_of_lookup_2, list_elem_of_filter in Hi as [_ Hin].
    by destruct (planned_item ops D W sec item Hin) as (Hop & _). }
  split.
  { assert (Hb : layout st1 `prefix_of` l)
      by (etrans; [exact Hmain|]; etrans; [exact Hbuttons|exact Hpre]).
    destruct Hb as [rest ->]. exists rest. by rewrite Hst1, <- app_assoc. }
  split; [|split].
  - intros i item Hi cursor. split; [by eapply Hitem|].
    destruct (mainOps_at uuid sec mainOps st1 startX i item Hi)
      as (pre & d & [mid ->] & Hrun).
    fold main in Hrun. fold cursor in Hrun.
    assert (Hl : (layout st1 ++ mid)
                 ++ rowEntities uuid (Balanced.operation item) sec cursor d
                                (Balanced.count item) `prefix_of` l)
      by (etrans; [exact Hrun|]; etrans; [exact Hbuttons|exact Hpre]).
    destruct Hl as [rest Hl]. exists mid, d, rest.
    rewrite Hst1, <- !app_assoc in Hl. simpl in Hl.
    rewrite <- !app_assoc. simpl. split; [exact Hl|].
    intros k Hk. eexists. split.
    + rewrite Hl.
      replace (layout st0 ++ board :: mid ++ rowEntities uuid (Balanced.operation item)
                 sec cursor d (Balanced.count item) ++ rest)
        with ((layout st0 ++ board :: mid)
              ++ rowEntities uuid (Balanced.operation item) sec cursor d
                             (Balanced.count item) ++ rest)
        by (by rewrite <- app_assoc).
      apply lookup_run_in. by apply rowEntities_lookup.
    + rewrite machineEntity_lane, machineEntity_x, machineEntity_forced,
              machineEntity_index, machineEntity_operation.
      split; [apply rowLane_nth; lia|done].
  - intros i item Hi dCursor. split; [by eapply Hitem|].
    destruct (buttonOps_at uuid sec buttonOps main.1 startX i item Hi)
      as (pre & d & [mid' Hmid] & Hrun).
    fold dCursor in Hrun. destruct Hmain as [mid0 Hmid0].
    assert (Hpre0 : pre = (layout st0 ++ board :: (mid0 ++ mid'))).
    { rewrite Hmid, Hmid0, Hst1, <- !app_assoc. done. }
    assert (Hl : pre ++ runEntities uuid (Balanced.operation item) Lane.D
                          (Some ROT_FACE_FRONT) sec dCursor d (Balanced.count item)
                 `prefix_of` l) by (etrans; [exact Hrun|exact Hpre]).
    destruct Hl as [rest Hl]. exists (mid0 ++ mid'), d, rest.
    rewrite <- Hpre0. rewrite <- app_assoc in Hl. split; [exact Hl|].
    intros k Hk. eexists. split.
    + rewrite Hl. apply lookup_run_in. by apply runEntities_lookup.
    + by rewrite machineEntity_lane, machineEntity_x, machineEntity_forced,
                 machineEntity_index, machineEntity_operation.
  - intros o1 o2 o3 -> Hs1 Hs2 Hs3 Hc1 Hc2 Hc3 Hb1 Hb2 Hb3.
    clear Hpre Hbuttons Hitem. unfold generateLayout in Hgen.
    destruct (calculateMachineRequirements [o1; o2; o3] D W) as [b|] eqn:Hcalc;
      [|done].
    injection Hgen as <-. apply planned_ok in Hcalc as ->.
    assert (Hne : sec <> "") by (by intros ->).
    assert (Hplan : planned [o1; o2; o3] D W
                    = [Balanced.mk o1 3; Balanced.mk o2 3; Balanced.mk o3 3]).
    { unfold planned. simpl. by rewrite Hc1, Hc2, Hc3. }
    assert (Hkey : forall o, Operation.section o = sec ->
                     sectionKey (Balanced.mk o 3) = sec).
    { intros o Ho. unfold sectionKey. simpl. rewrite Ho. by apply orElse_nonempty. }
    assert (Hnot : ~ sec <> sec) by (intros H; by apply H).
    assert (Hord : (groupSections (planned [o1; o2; o3] D W)).2 = [sec]).
    { rewrite groupSections_order, Hplan. cbn [map firstSeen].
      rewrite !Hkey by done.
      by rewrite filter_nil, !filter_cons_False, filter_nil by done. }
    assert (Hbuck : (groupSections (planned [o1; o2; o3] D W)).1 !!! sec
                    = [Balanced.mk o1 3; Balanced.mk o2 3; Balanced.mk o3 3]).
    { rewrite groupSections_bucket by (rewrite Hord; by left).
      rewrite Hplan. by rewrite !filter_cons_True, filter_nil by (by apply Hkey). }
    unfold runSections.
    destruct (groupSections (planned [o1; o2; o3] D W)) as [m order].
    cbn [fst snd] in Hord, Hbuck. subst order. cbn [fold_left].
    rewrite processSection_assembly, Hbuck by done.
    destruct (assembly_loops uuid sec) as (_ & _ & _ & _ & Hex).
    exact (Hex initSt o1 o2 o3 Hb1 Hb2 Hb3).
Qed.

(** * The properties at sample inputs *)

Lemma X1_layout_contents_witness :
  generateLayout sampleUuid [cuffOp2; cuffOp1] 480 480 = Ok cuffLayout /\
  map contents cuffLayout = layoutContents (planned [cuffOp2; cuffOp1] 480 480).
Proof.
  split; [reflexivity|].
  apply (X1_layout_contents sampleUuid [cuffOp2; cuffOp1] 480 480 cuffLayout).
  reflexivity.
Defined.

Lemma X2_every_machine_placed_once_witness :
  generateLayout sampleUuid [cuffOp2; cuffOp1] 480 480 = Ok cuffLayout /\
  map MachinePosition.operation (machinesOf cuffLayout)
  ≡ₚ flat_map (fun op => replicate
                 (Z.to_nat (requiredCount (Operation.smv op) 480 480)) op)
              [cuffOp2; cuffOp1].
Proof.
  split; [reflexivity|].
  apply (X2_every_machine_placed_once sampleUuid [cuffOp2; cuffOp1] 480 480 cuffLayout).
  reflexivity.
Defined.

Lemma X3_layout_size_witness :
  generateLayout sampleUuid [cuffOp2; cuffOp1] 480 480 = Ok cuffLayout /\
  length (machinesOf cuffLayout) = 3%nat /\
  length (fixturesOf cuffLayout) = 3%nat /\
  length cuffLayout = 6%nat.
Proof.
  split; [reflexivity|].
  apply (X3_layout_size sampleUuid [cuffOp2; cuffOp1] 480 480 cuffLayout).
  reflexivity.
Defined.


Lemma X5_distinct_positions_witness :
  generateLayout sampleUuid [cuffOp2; cuffOp1] 480 480 = Ok cuffLayout /\
  cuffLayout !! 1%nat = Some (machineEntity cuffOp2 Lane.A 35 0 None (Some "Cuff") "u1") /\
  cuffLayout !! 3%nat = Some (machineEntity cuffOp1 Lane.B 35 0 None (Some "Cuff") "u3") /\
  MachinePosition.position (machineEntity cuffOp2 Lane.A 35 0 None (Some "Cuff") "u1")
  <> MachinePosition.position (machineEntity cuffOp1 Lane.B 35 0 None (Some "Cuff") "u3").
Proof.
  split; [reflexivity|]. split; [reflexivity|]. split; [reflexivity|].
  apply (X5_distinct_positions sampleUuid [cuffOp2; cuffOp1] 480 480 cuffLayout
           1%nat 3%nat);
    [reflexivity | discriminate | reflexivity | reflexivity
     | reflexivity | reflexivity].
Defined.

Lemma X6_lanes_by_label_witness :
  generateLayout sampleUuid [cuffOp2; cuffOp1] 480 480 = Ok cuffLayout /\
  cuffLayout !! 3%nat = Some (machineEntity cuffOp1 Lane.B 35 0 None (Some "Cuff") "u3") /\
  laneAllowed (machineEntity cuffOp1 Lane.B 35 0 None (Some "Cuff") "u3").
Proof.
  split; [reflexivity|]. split; [reflexivity|].
  apply (X6_lanes_by_label sampleUuid [cuffOp2; cuffOp1] 480 480 cuffLayout);
    [reflexivity | by apply (list_elem_of_lookup_2 _ 3%nat) | reflexivity].
Defined.

Lemma X9_fixtures_separate_sections_witness :
  generateLayout sampleUuid [cuffOp2; cuffOp1] 480 480 = Ok cuffLayout /\
  separated cuffLayout.
Proof.
  split; [reflexivity|].
  apply (X9_fixtures_separate_sections sampleUuid [cuffOp2; cuffOp1] 480 480 cuffLayout).
  reflexivity.
Defined.

Lemma X13_delete_undoes_fresh_save_witness :
  (Types.LineData.id sampleLine ∉ LineStore.savedIds LineStore.initial) /\
  LineStore.savedLines
    (LineStore.deleteLine (LineStore.saveLine "2024-02-02" LineStore.initial sampleLine)
                          (Types.LineData.id sampleLine))
  = LineStore.savedLines LineStore.initial.
Proof.
  split; [apply not_elem_of_nil|].
  apply (X13_delete_undoes_fresh_save "2024-02-02" LineStore.initial sampleLine).
  apply not_elem_of_nil.
Defined.

Lemma X18_blank_header_matches_every_field_witness :
  sampleHeaders !! 1%nat = Some "" /\
  ObParser.normalizeString "" = "" /\
  0 <= ObParser.findColumnIndex sampleHeaders ObParser.op_no <= 1.
Proof.
  split; [reflexivity|]. split; [reflexivity|].
  apply (X18_blank_header_matches_every_field sampleHeaders ObParser.op_no 1%nat "");
    reflexivity.
Defined.

Lemma X21_fixtures_as_rendered_witness :
  generateLayout sampleUuid [cuffOp2; cuffOp1] 480 480 = Ok cuffLayout /\
  cuffLayout !! 4%nat = Some (inspectionEntity "Cuff" 85 (-12) Lane.A) /\
  Machine3D.getModelUrl
    (Operation.machine_type
       (MachinePosition.operation (inspectionEntity "Cuff" 85 (-12) Lane.A)))
  = "/models/inspection machine final.glb".
Proof.
  split; [reflexivity|]. split; [reflexivity|].
  apply (X21_fixtures_as_rendered sampleUuid [cuffOp2; cuffOp1] 480 480 cuffLayout
           (inspectionEntity "Cuff" 85 (-12) Lane.A));
    [reflexivity | by apply (list_elem_of_lookup_2 _ 4%nat) | reflexivity].
Defined.

Lemma C3_alternating_runs_witness :
  generateLayout sampleUuid [cuffOp2; cuffOp1] 480 480 = Ok cuffLayout /\
  sectionsOf (planned [cuffOp2; cuffOp1] 480 480) !! 0%nat = Some "Cuff" /\
  includes (toLowerCase "Cuff") "assembly" = false /\
  filter (fun b => sectionKey b = "Cuff") (planned [cuffOp2; cuffOp1] 480 480) !! 1%nat
  = Some (Balanced.mk cuffOp1 1) /\
  exists e, cuffLayout !! 3%nat = Some e /\
    MachinePosition.lane e = Lane.B /\
    Vec3.x (MachinePosition.position e) = 35 /\
    MachinePosition.machineIndex e = Some 0 /\
    MachinePosition.operation e = cuffOp1.
Proof.
  split; [reflexivity|]. split; [reflexivity|]. split; [reflexivity|].
  split; [reflexivity|].
  destruct (C3_alternating_runs sampleUuid [cuffOp2; cuffOp1] 480 480 cuffLayout
              0%nat "Cuff" 1%nat (Balanced.mk cuffOp1 1)
              eq_refl eq_refl eq_refl eq_refl)
    as (_ & _ & _ & _ & Hrun & _).
  destruct (Hrun 0) as (e & He & Hlane & Hx & Hidx & Hop); [done|].
  exists e. split; [exact He|]. split; [exact Hlane|]. split; [exact Hx|].
  split; [exact Hidx|exact Hop].
Defined.

Lemma C4_assembly_rows_witness :
  generateLayout sampleUuid [joinOp; sideOp; hemOp] 480 480 = Ok assemblyLayout /\
  sectionsOf (planned [joinOp; sideOp; hemOp] 480 480) !! 0%nat = Some "Assembly" /\
  includes (toLowerCase "Assembly") "assembly" = true /\
  machineSlots assemblyLayout
  = [(Lane.A, 20); (Lane.B, 20); (Lane.C, 20);
     (Lane.A, 40); (Lane.B, 40); (Lane.C, 40);
     (Lane.A, 60); (Lane.B, 60); (Lane.C, 60)].
Proof.
  split; [reflexivity|]. split; [reflexivity|]. split; [reflexivity|].
  apply (proj2 (proj2 (proj2
           (C4_assembly_rows sampleUuid [joinOp; sideOp; hemOp] 480 480 assemblyLayout
              0%nat "Assembly" eq_refl eq_refl eq_refl)))
           joinOp sideOp hemOp); reflexivity.
Defined.

Lemma X16_normalizeString_witness :
  isAscii "M/C Type" = true /\
  ObParser.normalizeString "M/C Type" = "mctype".
Proof.
  split; [reflexivity|].
  exact (proj1 (X16_normalizeString "M/C Type" eq_refl)).
Defined.
